(** * Translation orchestration engine: a shallow embedding

    The development follows the TypeScript sources of the plugin:
    - [utils/validation], [utils/crypto], [utils/http]  (the tool layer),
    - [translator/base] and [translator/factory],
    - [services/content-translation] (single-shot pipeline, cache,
      history and batch tasks).

    JavaScript strings are lists of UTF-16 code units, objects are records,
    a [Map] keyed by strings is an association list in insertion order, the
    registry keyed by the translator type is a [gmap].  Code that can throw lives in a
    state-and-exception monad; suspension points of [async] code are
    explicit in the batch machine. *)

From Stdlib Require Import ZArith Ascii String DecimalString HexadecimalString.
From stdpp Require Import base option list gmap.

Local Open Scope Z_scope.

(* ================================================================== *)
(** ** JavaScript strings *)
(* ================================================================== *)

Module Js.

(** A string is its sequence of UTF-16 code units. *)
Abbreviation jsstring := (list Z).

(** ASCII literal to code units. *)
Definition lit (s : string) : jsstring :=
  (fun a => Z.of_nat (nat_of_ascii a)) <$> list_ascii_of_string s.

(** [!s] for a string: only the empty string is falsy. *)
Definition truthy (s : jsstring) : bool :=
  match s with [] => false | _ => true end.

(** [a || b] on strings. *)
Definition or_else (a b : jsstring) : jsstring :=
  if truthy a then a else b.

Definition eqb (a b : jsstring) : bool := bool_decide (a = b).

(** WhiteSpace and LineTerminator code units: what [trim] strips and
    what [\s] matches. *)
Definition is_space (c : Z) : bool :=
  (9 <=? c) && (c <=? 13)
  || (c =? 32) || (c =? 160) || (c =? 5760)
  || (8192 <=? c) && (c <=? 8202)
  || (c =? 8232) || (c =? 8233) || (c =? 8239) || (c =? 8287)
  || (c =? 12288) || (c =? 65279).

Definition is_digit (c : Z) : bool := (48 <=? c) && (c <=? 57).
Definition is_upper (c : Z) : bool := (65 <=? c) && (c <=? 90).
Definition is_lower (c : Z) : bool := (97 <=? c) && (c <=? 122).
Definition is_alnum (c : Z) : bool := is_digit c || is_upper c || is_lower c.

(** The class [\w]. *)
Definition is_word (c : Z) : bool := is_alnum c || (c =? 95).

Fixpoint trimStart (s : jsstring) : jsstring :=
  match s with
  | c :: r => if is_space c then trimStart r else s
  | [] => []
  end.

Definition trimEnd (s : jsstring) : jsstring := rev (trimStart (rev s)).

Definition trim (s : jsstring) : jsstring := trimEnd (trimStart s).

Fixpoint startsWith (p s : jsstring) : bool :=
  match p, s with
  | [], _ => true
  | a :: p', b :: s' => (a =? b) && startsWith p' s'
  | _ :: _, [] => false
  end.

(** [s.includes(p)]. *)
Fixpoint includes (p s : jsstring) : bool :=
  startsWith p s ||
  match s with
  | [] => false
  | _ :: r => includes p r
  end.

(** ASCII case folding, the only folding the [i] flag performs on the
    patterns used here. *)
Definition lower (c : Z) : Z := if is_upper c then c + 32 else c.

(** [startsWith] ignoring ASCII case; [p] is given in lower case. *)
Fixpoint startsWith_ci (p s : jsstring) : bool :=
  match p, s with
  | [], _ => true
  | a :: p', b :: s' => (a =? lower b) && startsWith_ci p' s'
  | _ :: _, [] => false
  end.

(** Drops the code units before the first [c]; [None] without one. *)
Fixpoint from_first (c : Z) (s : jsstring) : option jsstring :=
  match s with
  | [] => None
  | b :: r => if b =? c then Some s else from_first c r
  end.

(** The suffix that follows the first case-insensitive occurrence of
    [p]. *)
Fixpoint after_first_ci (p s : jsstring) : option jsstring :=
  if startsWith_ci p s then Some (drop (length p) s)
  else match s with
       | [] => None
       | _ :: r => after_first_ci p r
       end.

(** [a.slice(0, stop)] on an array or a string, for an integer
    [stop]: a negative [stop] counts from the end. *)
Definition slice0 {A} (stop : Z) (l : list A) : list A :=
  if stop <? 0 then take (Z.to_nat (Z.of_nat (length l) + stop)) l
  else take (Z.to_nat stop) l.

(** [s.substring(0, stop)] for an integer [stop]: a negative [stop] is
    taken as 0. *)
Definition substring0 (stop : Z) (s : jsstring) : jsstring :=
  take (Z.to_nat stop) s.

(** [s.split(sep)[0]] for a separator of one code unit: the code units
    before its first occurrence. *)
Fixpoint before_first (sep : Z) (s : jsstring) : jsstring :=
  match s with
  | [] => []
  | c :: r => if c =? sep then [] else c :: before_first sep r
  end.

(** [/[lo-hi]/.test(s)]. *)
Definition has_in_range (lo hi : Z) (s : jsstring) : bool :=
  existsb (fun c => (lo <=? c) && (c <=? hi)) s.

(** Number to its decimal digits ([String(n)] on an integer). *)
Definition of_Z (z : Z) : jsstring :=
  lit (DecimalString.NilZero.string_of_int (Z.to_int z)).

End Js.

Import Js.

(* ================================================================== *)
(** ** Core types ([types/index]) *)
(* ================================================================== *)

(** [enum TranslatorType]. *)
Inductive TranslatorType := OPENAI | CUSTOM.

#[global] Instance TranslatorType_eq_dec : EqDecision TranslatorType.
Proof. solve_decision. Defined.

#[global] Instance TranslatorType_countable : Countable TranslatorType.
Proof.
  refine (inj_countable' (fun t => match t with OPENAI => false | CUSTOM => true end)
                         (fun b => if b then CUSTOM else OPENAI) _).
  by intros [].
Defined.

(** The string behind an enum member. *)
Definition TranslatorType_value (t : TranslatorType) : jsstring :=
  match t with
  | OPENAI => lit "openai"
  | CUSTOM => lit "custom"
  end.

(** [Object.values(TranslatorType)]. *)
Definition TranslatorType_values : list jsstring :=
  TranslatorType_value <$> [OPENAI; CUSTOM].

(** [enum LanguageCode]: a language code is a string at run time, the enum
    lists the well-formed ones. *)
Module LanguageCode.
Definition AUTO := lit "auto".
Definition ZH_CN := lit "zh-CN".
Definition ZH_TW := lit "zh-TW".
Definition EN := lit "en".
Definition JA := lit "ja".
Definition KO := lit "ko".
Definition FR := lit "fr".
Definition DE := lit "de".

Definition RU := lit "ru".
Definition AR := lit "ar".

(** [Object.values(LanguageCode)], in declaration order. *)
Definition values : list jsstring :=
  lit <$>
    [ "auto"; "zh-CN"; "zh-TW"; "en"; "ja"; "ko"; "fr"; "de"; "es"; "ru";
      "it"; "pt"; "ar"; "th"; "vi"; "id"; "ms"; "nl"; "pl"; "tr";
      "sv"; "da"; "no"; "fi"; "cs"; "hu"; "ro"; "bg"; "hr"; "sk";
      "sl"; "et"; "lv"; "lt"; "uk"; "el"; "he"; "fa"; "hi"; "bn";
      "ur"; "ta"; "te"; "ml"; "kn"; "gu"; "pa"; "mr"; "ne"; "si";
      "my"; "km"; "lo"; "ka"; "am"; "sw"; "zu"; "af"; "sq"; "az";
      "be"; "bs"; "eu"; "ca"; "cy"; "eo"; "gl"; "is"; "ga"; "mt";
      "mk"; "la"; "mi"; "sm"; "sn"; "st"; "tl"; "to"; "xh"; "yo";
      "haw"; "ceb"; "ny"; "co"; "fy"; "gd"; "hmn"; "lb"; "ps"; "sd";
      "uz"; "kk"; "ky"; "tg"; "mn"; "yi" ]%string.
End LanguageCode.

(** [type TranslationStatus]. *)
Inductive TranslationStatus := pending | success | error | cancelled.

#[global] Instance TranslationStatus_eq_dec : EqDecision TranslationStatus.
Proof. solve_decision. Defined.

(** [interface TranslationRequest].  [translator] is [None] when the
    caller leaves the field out; the empty [sourceLang] is the falsy one. *)
Record TranslationRequest := {
  req_text : jsstring;
  req_sourceLang : jsstring;
  req_targetLang : jsstring;
  req_translator : option TranslatorType;
  req_maxTokens : option Z
}.

(** [interface TranslationResponse]. *)
Record TranslationResponse := {
  originalText : jsstring;
  translatedText : jsstring;
  sourceLang : jsstring;
  targetLang : jsstring;
  translator : TranslatorType;
  status : TranslationStatus;
  timestamp : Z;
  error_msg : option jsstring
}.

(** [interface TranslatorConfig] (the fields the engine reads). *)
Record TranslatorConfig := {
  cfg_type : TranslatorType;
  cfg_name : jsstring;
  cfg_enabled : bool;
  cfg_apiKey : option jsstring;
  cfg_apiUrl : option jsstring;
  cfg_model : option jsstring;
  cfg_maxTokens : option Z;
  cfg_timeout : option Z;
  cfg_retryCount : option Z;
  (** Keys outside the interface that a run-time object may carry and
      [ValidationUtils.validateConfig] asks for. *)
  cfg_sourceLanguage : option jsstring;
  cfg_targetLanguage : option jsstring
}.

(** [PluginSettings.advanced]. *)
Record AdvancedSettings := {
  enableCache : bool;
  cacheExpiry : Z;
  enableLogging : bool;
  maxTokens : Z
}.

(** [interface PluginSettings] (without the UI-only fields). *)
Record PluginSettings := {
  defaultTranslator : TranslatorType;
  defaultTargetLang : jsstring;
  translators_cfg : TranslatorType -> option TranslatorConfig;
  advanced : AdvancedSettings
}.

(** [interface TranslationError]: a plain object, not an [Error]. *)
Record TranslationError := {
  te_code : jsstring;
  te_message : jsstring;
  te_timestamp : Z
}.

(** What a [throw] can carry here: an instance of [Error] (or of a
    subclass) with its [name], [message] and, for [HttpError], the HTTP
    status; the object built by [createTranslationError]; or [undefined],
    which [throw lastError] raises when no attempt was made. *)
Inductive Thrown :=
| ErrorInstance (name message : jsstring)
| HttpErrorInstance (message : jsstring) (http_status : option Z)
| TranslationErrorObject (e : TranslationError)
| UndefinedValue.

(** [new Error(message)]. *)
Definition new_Error (message : jsstring) : Thrown :=
  ErrorInstance (lit "Error") message.

(** [e instanceof Error]. *)
Definition instanceof_Error (e : Thrown) : bool :=
  match e with
  | ErrorInstance _ _ | HttpErrorInstance _ _ => true
  | TranslationErrorObject _ | UndefinedValue => false
  end.

(** [e.name]. *)
Definition thrown_name (e : Thrown) : jsstring :=
  match e with
  | ErrorInstance n _ => n
  | HttpErrorInstance _ _ => lit "HttpError"
  | TranslationErrorObject _ | UndefinedValue => []
  end.

(** [e.message]. *)
Definition thrown_message (e : Thrown) : jsstring :=
  match e with
  | ErrorInstance _ m | HttpErrorInstance m _ => m
  | TranslationErrorObject t => te_message t
  | UndefinedValue => []
  end.

(** Outcome of a call that may throw. *)
Inductive Outcome (A : Type) :=
| Returned (a : A)
| Threw (e : Thrown).
Arguments Returned {A} a.
Arguments Threw {A} e.

(* ================================================================== *)
(** ** [ConfigService]: the default settings *)
(* ================================================================== *)

Module ConfigService.

Definition default_translator_config (t : TranslatorType) (name : string)
  : TranslatorConfig :=
  {| cfg_type := t; cfg_name := lit name; cfg_enabled := false;
     cfg_apiKey := None; cfg_apiUrl := None; cfg_model := None;
     cfg_maxTokens := None; cfg_timeout := Some 30000;
     cfg_retryCount := Some 3;
     cfg_sourceLanguage := None; cfg_targetLanguage := None |}.

(** [DEFAULT_CONFIG]. *)
Definition DEFAULT_CONFIG : PluginSettings :=
  {| defaultTranslator := OPENAI;
     defaultTargetLang := LanguageCode.ZH_CN;
     translators_cfg :=
       fun t => match t with
                | OPENAI => Some (default_translator_config OPENAI "OpenAI")
                | CUSTOM => Some (default_translator_config CUSTOM "Custom")
                end;
     advanced := {| enableCache := true;
                    cacheExpiry := 24 * 60 * 60 * 1000;
                    enableLogging := true;
                    maxTokens := 128000 |} |}.

End ConfigService.

(* ================================================================== *)
(** ** [ValidationUtils] *)
(* ================================================================== *)

Module ValidationUtils.

(** [/^sk-[a-zA-Z0-9]{48}$/.test(s)]. *)
Definition openai_key_shape (s : jsstring) : bool :=
  startsWith (lit "sk-") s
  && bool_decide (length s = 51%nat)
  && forallb is_alnum (drop 3 s).

(** [validateApiKey(apiKey, type)]; [type] is the run-time string. *)
Definition validateApiKey (apiKey : jsstring) (type : jsstring) : bool :=
  if negb (truthy apiKey) then false
  else
    let trimmedKey := trim apiKey in
    if bool_decide (length trimmedKey = 0%nat) then false
    else if Js.eqb type (TranslatorType_value OPENAI) then
      openai_key_shape trimmedKey
    else if Js.eqb type (TranslatorType_value CUSTOM) then
      (8 <=? Z.of_nat (length trimmedKey))
      && (Z.of_nat (length trimmedKey) <=? 200)
    else false.

(** [validateLanguageCode(code)]. *)
Definition validateLanguageCode (code : jsstring) : bool :=
  if negb (truthy code) then false
  else bool_decide (code ∈ LanguageCode.values).

(** The character class of [validateText]:
    [[\w\u4e00-\u9fff\u3040-\u309f\u30a0-\u30ff]]. *)
Definition is_content_unit (c : Z) : bool :=
  is_word c
  || (19968 <=? c) && (c <=? 40959)
  || (12352 <=? c) && (c <=? 12447)
  || (12448 <=? c) && (c <=? 12543).

(** [validateText(text)]. *)
Definition validateText (text : jsstring) : bool :=
  if negb (truthy text) then false
  else
    let trimmedText := trim text in
    if bool_decide (length trimmedText = 0%nat) then false
    else existsb is_content_unit trimmedText.

(** The object [validateConfig] inspects: a field is [None] when the
    object has no such key. *)
Record ConfigObject := {
  co_translatorType : option jsstring;
  co_sourceLanguage : option jsstring;
  co_targetLanguage : option jsstring;
  co_apiKey : option jsstring
}.

(** The value [validateConfig] returns: always an object. *)
Record ValidationResult := {
  valid : bool;
  errors : list jsstring
}.

(** [field in config]. *)
Definition has_field {A} (f : option A) : bool :=
  match f with Some _ => true | None => false end.

(** Truthiness of a string-valued field ([undefined] and [''] are
    falsy). *)
Definition field_truthy (f : option jsstring) : bool :=
  match f with Some s => truthy s | None => false end.

Definition field_value (f : option jsstring) : jsstring := default [] f.

Definition missing_field (name : string) : jsstring :=
  [32570; 23569; 24517; 38656; 23383; 27573; 58; 32] ++ lit name.

(** [validateConfig(config)].  The guard on a non-object argument does
    not apply to a record. *)
Definition validateConfig (config : ConfigObject) : ValidationResult :=
  let e0 : list jsstring := [] in
  let e1 := if has_field (co_translatorType config) then e0
            else e0 ++ [missing_field "translatorType"] in
  let e2 := if has_field (co_sourceLanguage config) then e1
            else e1 ++ [missing_field "sourceLanguage"] in
  let e3 := if has_field (co_targetLanguage config) then e2
            else e2 ++ [missing_field "targetLanguage"] in
  let e4 :=
    if field_truthy (co_translatorType config)
       && negb (bool_decide (field_value (co_translatorType config)
                               ∈ TranslatorType_values))
    then e3 ++ [[26080; 25928; 30340; 32763; 35793; 22120; 31867; 22411]]
    else e3 in
  let e5 :=
    if field_truthy (co_sourceLanguage config)
       && negb (validateLanguageCode (field_value (co_sourceLanguage config)))
    then e4 ++ [[26080; 25928; 30340; 28304; 35821; 35328; 20195; 30721]]
    else e4 in
  let e6 :=
    if field_truthy (co_targetLanguage config)
       && negb (validateLanguageCode (field_value (co_targetLanguage config)))
    then e5 ++ [[26080; 25928; 30340; 30446; 26631; 35821; 35328; 20195; 30721]]
    else e5 in
  let e7 :=
    if field_truthy (co_apiKey config)
       && field_truthy (co_translatorType config)
       && negb (validateApiKey (field_value (co_apiKey config))
                  (field_value (co_translatorType config)))
    then e6 ++ [[26080; 25928; 30340; 65; 80; 73; 23494; 38053; 26684; 24335]]
    else e6 in
  {| valid := bool_decide (length e7 = 0%nat); errors := e7 |}.

(** One match of [/<script[^>]*>[\s\S]*?<\/script>/i] at the head of
    [s]: the text after the match. *)
Definition match_script (s : jsstring) : option jsstring :=
  if startsWith_ci (lit "<script") s then
    r ← from_first 62 (drop 7 s);
    after_first_ci (lit "</script>") (drop 1 r)
  else None.

(** [s.replace(/<script[^>]*>[\s\S]*?<\/script>/gi, '')]. *)
Fixpoint strip_scripts (fuel : nat) (s : jsstring) : jsstring :=
  match fuel with
  | O => s
  | S fuel' =>
      match s with
      | [] => []
      | c :: r =>
          match match_script s with
          | Some rest => strip_scripts fuel' rest
          | None => c :: strip_scripts fuel' r
          end
      end
  end.

(** The code units up to the next [>]: what [[^>]*] consumes. *)
Fixpoint skip_to_gt (s : jsstring) : jsstring :=
  match s with
  | [] => []
  | c :: r => if c =? 62 then s else skip_to_gt r
  end.

(** One match of [/\s(on\w+|javascript:)[^>]*/i] at the head of [s]. *)
Definition match_handler (s : jsstring) : option jsstring :=
  match s with
  | c :: r =>
      if is_space c then
        if startsWith_ci (lit "on") r
           && match drop 2 r with w :: _ => is_word w | [] => false end
        then Some (skip_to_gt (drop 3 r))
        else if startsWith_ci (lit "javascript:") r
        then Some (skip_to_gt (drop 11 r))
        else None
      else None
  | [] => None
  end.

(** [s.replace(/\s(on\w+|javascript:)[^>]*/gi, '')]. *)
Fixpoint strip_handlers (fuel : nat) (s : jsstring) : jsstring :=
  match fuel with
  | O => s
  | S fuel' =>
      match s with
      | [] => []
      | c :: r =>
          match match_handler s with
          | Some rest => strip_handlers fuel' rest
          | None => c :: strip_handlers fuel' r
          end
      end
  end.

(** [sanitizeHtml(html)]. *)
Definition sanitizeHtml (html : jsstring) : jsstring :=
  if negb (truthy html) then []
  else
    let a := strip_scripts (length html) html in
    trim (strip_handlers (length a) a).

(** The characters [sanitizeText] removes: the angle brackets, the
    double and the single quote and the ampersand. *)
Definition is_dangerous (c : Z) : bool :=
  (c =? 60) || (c =? 62) || (c =? 34) || (c =? 39) || (c =? 38).

(** [sanitizeText(text, maxLength?)]. *)
Definition sanitizeText (text : jsstring) (maxLength : option Z) : jsstring :=
  if negb (truthy text) then []
  else
    let sanitized := List.filter (fun c => negb (is_dangerous c)) (trim text) in
    match maxLength with
    | Some n =>
        if negb (n =? 0) && (n <? Z.of_nat (length sanitized))
        then substring0 n sanitized
        else sanitized
    | None => sanitized
    end.

End ValidationUtils.

(* ================================================================== *)
(** ** [CryptoUtils] *)
(* ================================================================== *)

Module CryptoUtils.

(** [ToInt32]: the value the bit operators see and produce. *)
Definition to_int32 (z : Z) : Z := (z + 2 ^ 31) mod 2 ^ 32 - 2 ^ 31.

(** One round of the loop of [hash]:
    [hash = ((hash << 5) - hash) + char; hash = hash & hash]. *)
Definition hash_step (h : Z) (char : Z) : Z :=
  let h1 := (to_int32 (Z.shiftl (to_int32 h) 5) - h) + char in
  to_int32 (Z.land (to_int32 h1) (to_int32 h1)).

(** [n.toString(16)] for a non-negative integer. *)
Definition to_hex (n : Z) : jsstring :=
  lit (HexadecimalString.NilZero.string_of_uint (N.to_hex_uint (Z.to_N n))).

(** [hash(text)]; the [algorithm] argument is not read. *)
Definition hash (text : jsstring) : jsstring :=
  if bool_decide (length text = 0%nat) then lit "0"
  else to_hex (Z.abs (fold_left hash_step text 0)).

(** The loop of [safeCompare]: [result |= a.charCodeAt(i) ^ b.charCodeAt(i)]. *)
Fixpoint safeCompare_loop (a b : jsstring) (result : Z) : Z :=
  match a, b with
  | x :: a', y :: b' =>
      safeCompare_loop a' b'
        (to_int32 (Z.lor (to_int32 result)
                     (to_int32 (Z.lxor (to_int32 x) (to_int32 y)))))
  | _, _ => result
  end.

(** [safeCompare(a, b)]. *)
Definition safeCompare (a b : jsstring) : bool :=
  if negb (Nat.eqb (length a) (length b)) then false
  else safeCompare_loop a b 0 =? 0.

(** What [generateUUID] and [Math.random] draw from: the [n]-th draw of
    the run. *)
Definition Entropy := nat -> jsstring.

End CryptoUtils.

(* ================================================================== *)
(** ** [HttpUtils]: the retrying transport *)
(* ================================================================== *)

Module HttpUtils.

(** [interface HttpRequestConfig]: the fields that drive the retry
    loop; [None] is an absent field, replaced by its default. *)
Record HttpRequestConfig := {
  retries : option Z;
  retryDelay : option Z;
  validateStatus : option (Z -> bool)
}.

Definition defaultRetries : Z := 3.
Definition defaultRetryDelay : Z := 1000.
Definition defaultValidateStatus (status : Z) : bool :=
  (200 <=? status) && (status <? 300).

(** [interface HttpResponse]. *)
Record HttpResponse := {
  data : jsstring;
  resp_status : Z;
  statusText : jsstring
}.

(** The [Response] that [fetch] resolves with, as one attempt reads
    it: its status, its status text, and what the reading of its body
    comes to ([response.json()] for a JSON content type, [response.text()]
    otherwise), which may throw. *)
Record FetchedResponse := {
  fetched_status : Z;
  fetched_statusText : jsstring;
  fetched_body : Outcome jsstring
}.

(** One call of [fetch]: it resolves with a response, or it rejects (a
    [TypeError] of the network, the [AbortError] of the timeout). *)
Inductive FetchResult :=
| Responded (r : FetchedResponse)
| Failed (e : Thrown).

(** The endpoint: its answer to the [n]-th attempt of a request. *)
Definition Endpoint := nat -> FetchResult.

(** What the loop does that an observer can count. *)
Inductive Event :=
| Fetch (attempt : Z)
| Delay (ms : Z).

#[global] Instance Event_eq_dec : EqDecision Event.
Proof. solve_decision. Defined.

(** [shouldRetry(error)]. *)
Definition shouldRetry (e : Thrown) : bool :=
  if Js.eqb (thrown_name e) (lit "TypeError")
     && includes (lit "fetch") (thrown_message e) then true
  else if Js.eqb (thrown_name e) (lit "AbortError") then true
  else match e with
       | HttpErrorInstance _ st =>
           match st with
           | Some s => if s =? 0 then false else 500 <=? s
           | None => false
           end
       | _ => false
       end.

(** The [HttpError] of a response whose status is refused. *)
Definition status_error (r : FetchedResponse) : Thrown :=
  HttpErrorInstance
    (lit "Request failed with status " ++ of_Z (fetched_status r)
       ++ lit ": " ++ fetched_statusText r)
    (Some (fetched_status r)).

(** The body of [try] for one attempt: [fetch], then the reading of
    the body, then the test of the status. *)
Definition attempt_once (validate : Z -> bool) (ep : Endpoint) (n : nat)
  : Outcome HttpResponse :=
  match ep n with
  | Responded r =>
      match fetched_body r with
      | Returned responseData =>
          if validate (fetched_status r) then
            Returned {| data := responseData;
                        resp_status := fetched_status r;
                        statusText := fetched_statusText r |}
          else Threw (status_error r)
      | Threw e => Threw e
      end
  | Failed e => Threw e
  end.

(** The loop [for (attempt = 0; attempt <= retries; attempt++)] from
    [attempt] on.  [fuel] bounds the iterations; [None] is fuel
    exhaustion, which [request] never meets. *)
Fixpoint request_loop (fuel : nat) (validate : Z -> bool) (nretries delay : Z)
    (ep : Endpoint) (attempt : Z) (lastError : Thrown) (tr : list Event)
  : option (Outcome HttpResponse * list Event) :=
  if attempt <=? nretries then
    match fuel with
    | O => None
    | S fuel' =>
        let tr1 := tr ++ [Fetch attempt] in
        match attempt_once validate ep (Z.to_nat attempt) with
        | Returned r => Some (Returned r, tr1)
        | Threw e =>
            if attempt =? nretries then Some (Threw e, tr1)
            else if shouldRetry e then
              request_loop fuel' validate nretries delay ep (attempt + 1) e
                (tr1 ++ [Delay (delay * 2 ^ attempt)])
            else Some (Threw e, tr1)
        end
    end
  else Some (Threw lastError, tr).

(** The destructuring of [config] with its defaults. *)
Definition config_retries (config : HttpRequestConfig) : Z :=
  default defaultRetries (retries config).
Definition config_retryDelay (config : HttpRequestConfig) : Z :=
  default defaultRetryDelay (retryDelay config).
Definition config_validateStatus (config : HttpRequestConfig) : Z -> bool :=
  default defaultValidateStatus (validateStatus config).

(** [request(url, config)]: outcome and trace of events. *)
Definition request (ep : Endpoint) (config : HttpRequestConfig)
  : option (Outcome HttpResponse * list Event) :=
  let nretries := config_retries config in
  request_loop (Z.to_nat (nretries + 1)) (config_validateStatus config)
    nretries (config_retryDelay config) ep 0 UndefinedValue [].

(** [get(url, config)]: [request] with the method set; the method does
    not enter the retry loop. *)
Definition get (ep : Endpoint) (config : HttpRequestConfig)
  : option (Outcome HttpResponse * list Event) :=
  request ep config.

(** [checkConnection(url)]: one [get] with [retries: 0], whose outcome
    is turned into a boolean. *)
Definition checkConnection (ep : Endpoint) : option (bool * list Event) :=
  match get ep {| retries := Some 0; retryDelay := None;
                  validateStatus := None |} with
  | Some (Returned _, tr) => Some (true, tr)
  | Some (Threw _, tr) => Some (false, tr)
  | None => None
  end.

(** Number of attempts in a trace. *)
Fixpoint attempts (tr : list Event) : nat :=
  match tr with
  | [] => O
  | Fetch _ :: r => S (attempts r)
  | Delay _ :: r => attempts r
  end.



End HttpUtils.

(* ================================================================== *)
(** ** The world outside the engine *)
(* ================================================================== *)

(** One call of an adapter's [doTranslate]. *)
Record BackendCall := {
  bc_adapter : TranslatorType;
  bc_text : jsstring;
  bc_from : jsstring;
  bc_to : jsstring
}.

(** Ghost log of the effects a caller can count. *)
Inductive Effect :=
| CacheLookup (hash : jsstring)
| CacheWrite (hash : jsstring)
| InstanceCreated (id : jsstring)
| BackendCalled (c : BackendCall)
| HistoryAppended (id : jsstring).

(** Clock, randomness and the log.  [Date.now()] reads [now]; the [n]-th
    random string of a run is [entropy n]. *)
Record World := {
  now : Z;
  entropy : nat -> jsstring;
  draws : nat;
  effects : list Effect
}.

Definition log (e : Effect) (w : World) : World :=
  {| now := now w; entropy := entropy w; draws := draws w;
     effects := effects w ++ [e] |}.

(** The clock reads [t]. *)
Definition set_now (t : Z) (w : World) : World :=
  {| now := t; entropy := entropy w; draws := draws w; effects := effects w |}.

(** Draws the next random string. *)
Definition draw (w : World) : jsstring * World :=
  (entropy w (draws w),
   {| now := now w; entropy := entropy w; draws := S (draws w);
      effects := effects w |}).

(** The backend calls of a log, in order. *)
Fixpoint backend_calls (l : list Effect) : list BackendCall :=
  match l with
  | [] => []
  | BackendCalled c :: r => c :: backend_calls r
  | _ :: r => backend_calls r
  end.

(** The cache lookups and writes of a log, in order. *)
Definition is_cache_effect (e : Effect) : bool :=
  match e with
  | CacheLookup _ | CacheWrite _ => true
  | _ => false
  end.

Definition cache_effects (l : list Effect) : list Effect :=
  List.filter is_cache_effect l.

(* ================================================================== *)
(** ** [BaseTranslator]: the template every adapter inherits *)
(* ================================================================== *)

Module BaseTranslator.

(** The abstract members a subclass supplies.  [doTranslate] answers
    from the calls the backend has seen so far and the arguments. *)
Record Adapter := {
  getType : TranslatorType;
  getName : jsstring;
  getSupportedLanguages : list jsstring;
  validateConfig : TranslatorConfig -> bool;
  doInitialize : TranslatorConfig -> option Thrown;
  doDestroy : option Thrown;
  doTranslate : list BackendCall -> jsstring -> jsstring -> jsstring
                -> Outcome jsstring
}.

(** The fields of an instance. *)
Record Translator := {
  adapter : Adapter;
  config : TranslatorConfig;
  isInitialized : bool
}.

(** [constructor(config)]. *)
Definition construct (a : Adapter) (c : TranslatorConfig) : Translator :=
  {| adapter := a; config := c; isInitialized := false |}.

(** [initialize(config?)]: the instance afterwards and the error it
    rethrows, if any. *)
Definition initialize (t : Translator) (c : option TranslatorConfig)
  : Translator * option Thrown :=
  let cfg := default (config t) c in
  if negb (validateConfig (adapter t) cfg) then
    ({| adapter := adapter t; config := cfg; isInitialized := isInitialized t |},
     Some (new_Error (lit "Configuration validation failed")))
  else match doInitialize (adapter t) cfg with
       | Some e =>
           ({| adapter := adapter t; config := cfg;
               isInitialized := isInitialized t |}, Some e)
       | None =>
           ({| adapter := adapter t; config := cfg; isInitialized := true |},
            None)
       end.

(** [destroy()]. *)
Definition destroy (t : Translator) : Translator * option Thrown :=
  match doDestroy (adapter t) with
  | Some e => (t, Some e)
  | None =>
      ({| adapter := adapter t; config := config t; isInitialized := false |},
       None)
  end.

(** [validateRequest(request)]: the error it throws, if any. *)
Definition validateRequest (t : Translator) (request : TranslationRequest)
  : option Thrown :=
  if negb (truthy (req_text request))
     || negb (ValidationUtils.validateText (req_text request)) then
    Some (new_Error (lit "Invalid text for translation"))
  else if negb (truthy (req_sourceLang request))
          || negb (ValidationUtils.validateLanguageCode (req_sourceLang request)) then
    Some (new_Error (lit "Invalid source language code"))
  else if negb (ValidationUtils.validateLanguageCode (req_targetLang request)) then
    Some (new_Error (lit "Invalid target language code"))
  else if Js.eqb (req_sourceLang request) (req_targetLang request) then
    Some (new_Error (lit "Source and target languages cannot be the same"))
  else
    let supportedLanguages := getSupportedLanguages (adapter t) in
    if negb (bool_decide (req_sourceLang request ∈ supportedLanguages)) then
      Some (new_Error (lit "Source language " ++ req_sourceLang request
                         ++ lit " is not supported"))
    else if negb (bool_decide (req_targetLang request ∈ supportedLanguages)) then
      Some (new_Error (lit "Target language " ++ req_targetLang request
                         ++ lit " is not supported"))
    else None.

(** [s.replace(/\s+/g, ' ')]: [in_run] tells that the code unit before
    was white space, already replaced. *)
Fixpoint collapse_spaces (in_run : bool) (s : jsstring) : jsstring :=
  match s with
  | [] => []
  | c :: r =>
      if is_space c then
        if in_run then collapse_spaces true r
        else 32 :: collapse_spaces true r
      else c :: collapse_spaces false r
  end.

(** The class [[\u200B-\u200D\uFEFF]]. *)
Definition is_zero_width (c : Z) : bool :=
  (8203 <=? c) && (c <=? 8205) || (c =? 65279).

(** [preprocessText(text)]. *)
Definition preprocessText (text : jsstring) : jsstring :=
  List.filter (fun c => negb (is_zero_width c)) (collapse_spaces false (trim text)).

(** [postprocessText(text)]. *)
Definition postprocessText (text : jsstring) : jsstring := trim text.

(** [getErrorCode(error)]. *)
Definition getErrorCode (e : Thrown) : jsstring :=
  let m := thrown_message e in
  if includes (lit "API key") m then lit "INVALID_API_KEY"
  else if includes (lit "network") m || includes (lit "fetch") m then
    lit "NETWORK_ERROR"
  else if includes (lit "rate limit") m then lit "RATE_LIMIT_EXCEEDED"
  else if includes (lit "quota") m then lit "QUOTA_EXCEEDED"
  else if includes (lit "language") m then lit "UNSUPPORTED_LANGUAGE"
  else lit "UNKNOWN_ERROR".

(** [createTranslationError(error, request)]. *)
Definition createTranslationError (e : Thrown) (w : World) : Thrown :=
  TranslationErrorObject
    {| te_code := getErrorCode e; te_message := thrown_message e;
       te_timestamp := now w |}.

(** The body of [try] in [translate]. *)
Definition translate_try (t : Translator) (request : TranslationRequest)
    (w : World) : Outcome TranslationResponse * World :=
  if negb (isInitialized t) then
    (Threw (new_Error (lit "Translator not initialized")), w)
  else match validateRequest t request with
       | Some e => (Threw e, w)
       | None =>
           let preprocessedText := preprocessText (req_text request) in
           let call := {| bc_adapter := getType (adapter t);
                          bc_text := preprocessedText;
                          bc_from := req_sourceLang request;
                          bc_to := req_targetLang request |} in
           let w1 := log (BackendCalled call) w in
           match doTranslate (adapter t) (backend_calls (effects w))
                   preprocessedText (req_sourceLang request)
                   (req_targetLang request) with
           | Threw e => (Threw e, w1)
           | Returned translated =>
               (Returned {| originalText := req_text request;
                            translatedText := postprocessText translated;
                            sourceLang := req_sourceLang request;
                            targetLang := req_targetLang request;
                            translator := getType (adapter t);
                            status := success;
                            timestamp := now w1;
                            error_msg := None |}, w1)
           end
       end.

(** [translate(request)]: whatever the body throws is rethrown as the
    object of [createTranslationError]. *)
Definition translate (t : Translator) (request : TranslationRequest)
    (w : World) : Outcome TranslationResponse * World :=
  match translate_try t request w with
  | (Returned r, w1) => (Returned r, w1)
  | (Threw e, w1) => (Threw (createTranslationError e w1), w1)
  end.

(** [Partial<TranslatorConfig>]: [None] is a key the object does not
    have. *)
Record PartialConfig := {
  p_type : option TranslatorType;
  p_name : option jsstring;
  p_enabled : option bool;
  p_apiKey : option jsstring;
  p_apiUrl : option jsstring;
  p_model : option jsstring;
  p_maxTokens : option Z;
  p_timeout : option Z;
  p_retryCount : option Z
}.

Definition override {A} (new old : option A) : option A :=
  match new with Some _ => new | None => old end.

(** [{ ...config, ...newConfig }]. *)
Definition merge_config (c : TranslatorConfig) (n : PartialConfig)
  : TranslatorConfig :=
  {| cfg_type := default (cfg_type c) (p_type n);
     cfg_name := default (cfg_name c) (p_name n);
     cfg_enabled := default (cfg_enabled c) (p_enabled n);
     cfg_apiKey := override (p_apiKey n) (cfg_apiKey c);
     cfg_apiUrl := override (p_apiUrl n) (cfg_apiUrl c);
     cfg_model := override (p_model n) (cfg_model c);
     cfg_maxTokens := override (p_maxTokens n) (cfg_maxTokens c);
     cfg_timeout := override (p_timeout n) (cfg_timeout c);
     cfg_retryCount := override (p_retryCount n) (cfg_retryCount c);
     cfg_sourceLanguage := cfg_sourceLanguage c;
     cfg_targetLanguage := cfg_targetLanguage c |}.

(** [updateConfig(newConfig)]. *)
Definition updateConfig (t : Translator) (n : PartialConfig) : Translator :=
  {| adapter := adapter t;
     config := merge_config (config t) n;
     isInitialized :=
       if ValidationUtils.field_truthy (p_apiKey n)
          || ValidationUtils.field_truthy (p_apiUrl n)
       then false else isInitialized t |}.

End BaseTranslator.

(* ================================================================== *)
(** ** What the adapters override *)
(* ================================================================== *)

Module Adapters.

Import BaseTranslator.

(** [isAvailable()] as [OpenAITranslator] and [CustomTranslator] both
    override it, with the same body: a translation of ['Hello'] from
    English to simplified Chinese that goes to [doTranslate] directly,
    with no test of [isInitialized]; the answer is the truthiness of the
    text that comes back, and [false] when the call throws.  The body of
    the base class runs for neither adapter. *)
Definition isAvailable (t : Translator) (w : World) : bool * World :=
  let call := {| bc_adapter := getType (adapter t);
                 bc_text := lit "Hello";
                 bc_from := LanguageCode.EN;
                 bc_to := LanguageCode.ZH_CN |} in
  match doTranslate (adapter t) (backend_calls (effects w))
          (lit "Hello") LanguageCode.EN LanguageCode.ZH_CN with
  | Returned result => (truthy result, log (BackendCalled call) w)
  | Threw _ => (false, log (BackendCalled call) w)
  end.

End Adapters.

(* ================================================================== *)
(** ** A [Map] in insertion order *)
(* ================================================================== *)

Module JsMap.
Section Ops.
Context {V : Type}.

Abbreviation t := (list (jsstring * V)).

(** [m.get(k)]. *)
Fixpoint get (k : jsstring) (m : t) : option V :=
  match m with
  | [] => None
  | (k', v) :: r => if Js.eqb k k' then Some v else get k r
  end.

(** [m.set(k, v)]: a known key keeps its place, a new key goes last. *)
Fixpoint set (k : jsstring) (v : V) (m : t) : t :=
  match m with
  | [] => [(k, v)]
  | (k', v') :: r =>
      if Js.eqb k k' then (k', v) :: r else (k', v') :: set k v r
  end.

(** [m.delete(k)]. *)
Fixpoint delete (k : jsstring) (m : t) : t :=
  match m with
  | [] => []
  | (k', v') :: r => if Js.eqb k k' then r else (k', v') :: delete k r
  end.

(** [m.keys().next().value]: the key inserted first among those
    present. *)
Definition first_key (m : t) : option jsstring :=
  match m with
  | [] => None
  | (k, _) :: _ => Some k
  end.

(** [m.size]. *)
Definition size (m : t) : nat := length m.

(** [m.has(k)]. *)
Definition has (k : jsstring) (m : t) : bool :=
  match get k m with Some _ => true | None => false end.

(** The value under [k] replaced by its image under [f]: what a
    mutation of the object stored there does to the map. *)
Fixpoint alter (f : V -> V) (k : jsstring) (m : t) : t :=
  match m with
  | [] => []
  | (k', v') :: r =>
      if Js.eqb k k' then (k', f v') :: r else (k', v') :: alter f k r
  end.

Definition keys (m : t) : list jsstring := fst <$> m.
End Ops.
End JsMap.

(* ================================================================== *)
(** ** State of the engine *)
(* ================================================================== *)

(** [interface TranslatorRegistration]; the constructor yields the
    subclass members for a configuration. *)
Record TranslatorRegistration := {
  reg_type : TranslatorType;
  reg_constructor : TranslatorConfig -> BaseTranslator.Adapter;
  reg_name : jsstring;
  reg_description : jsstring
}.

(** The fields of [TranslatorFactory]. *)
Record Factory := {
  translators : gmap TranslatorType TranslatorRegistration;
  instances : list (jsstring * BaseTranslator.Translator)
}.

(** [interface TranslationCacheItem]. *)
Record TranslationCacheItem := {
  ci_originalText : jsstring;
  ci_translatedText : jsstring;
  ci_sourceLang : jsstring;
  ci_targetLang : jsstring;
  ci_translator : TranslatorType;
  ci_timestamp : Z;
  ci_hash : jsstring
}.

(** [interface TranslationHistory]. *)
Record TranslationHistory := {
  h_id : jsstring;
  h_originalText : jsstring;
  h_translatedText : jsstring;
  h_sourceLang : jsstring;
  h_targetLang : jsstring;
  h_translator : TranslatorType;
  h_timestamp : Z
}.

(** Status of a batch task. *)
Inductive TaskStatus := task_pending | task_running | task_completed | task_failed.

#[global] Instance TaskStatus_eq_dec : EqDecision TaskStatus.
Proof. solve_decision. Defined.

(** [interface BatchTranslationTask].  [progress] holds the numerator and
    the denominator of the quotient the double approximates. *)
Record BatchTranslationTask := {
  task_id : jsstring;
  texts : list jsstring;
  task_from : jsstring;
  task_to : jsstring;
  task_translator : TranslatorType;
  progress : Z * Z;
  task_status : TaskStatus;
  results : list TranslationResponse;
  task_errors : list jsstring;
  startTime : option Z;
  endTime : option Z
}.

(** The fields of [ContentTranslationService], with the configuration
    service's settings, the factory and the world it runs in. *)
Record Sys := {
  svc_isInitialized : bool;
  settings : PluginSettings;
  translationCache : list (jsstring * TranslationCacheItem);
  translationHistory : list TranslationHistory;
  batchTasks : list (jsstring * BatchTranslationTask);
  factory : Factory;
  world : World
}.

Definition set_world (w : World) (s : Sys) : Sys :=
  {| svc_isInitialized := svc_isInitialized s; settings := settings s;
     translationCache := translationCache s;
     translationHistory := translationHistory s;
     batchTasks := batchTasks s; factory := factory s; world := w |}.

Definition set_factory (f : Factory) (s : Sys) : Sys :=
  {| svc_isInitialized := svc_isInitialized s; settings := settings s;
     translationCache := translationCache s;
     translationHistory := translationHistory s;
     batchTasks := batchTasks s; factory := f; world := world s |}.

Definition set_cache (c : list (jsstring * TranslationCacheItem)) (s : Sys) : Sys :=
  {| svc_isInitialized := svc_isInitialized s; settings := settings s;
     translationCache := c;
     translationHistory := translationHistory s;
     batchTasks := batchTasks s; factory := factory s; world := world s |}.

Definition set_history (h : list TranslationHistory) (s : Sys) : Sys :=
  {| svc_isInitialized := svc_isInitialized s; settings := settings s;
     translationCache := translationCache s;
     translationHistory := h;
     batchTasks := batchTasks s; factory := factory s; world := world s |}.

Definition set_tasks (b : list (jsstring * BatchTranslationTask)) (s : Sys) : Sys :=
  {| svc_isInitialized := svc_isInitialized s; settings := settings s;
     translationCache := translationCache s;
     translationHistory := translationHistory s;
     batchTasks := b; factory := factory s; world := world s |}.

(* ================================================================== *)
(** ** State and exceptions *)
(* ================================================================== *)

(** A computation on the engine: it returns or throws, and leaves a
    state either way. *)
Definition M (A : Type) : Type := Sys -> Outcome A * Sys.

Definition ret {A} (a : A) : M A := fun s => (Returned a, s).

Definition throw {A} (e : Thrown) : M A := fun s => (Threw e, s).

Definition bind {A B} (c : M A) (k : A -> M B) : M B :=
  fun s =>
    match c s with
    | (Returned a, s1) => k a s1
    | (Threw e, s1) => (Threw e, s1)
    end.

Definition get_state : M Sys := fun s => (Returned s, s).

Definition modify (f : Sys -> Sys) : M unit := fun s => (Returned tt, f s).

(** [try { c } catch (e) { h e }]. *)
Definition try_catch {A} (c : M A) (h : Thrown -> M A) : M A :=
  fun s =>
    match c s with
    | (Returned a, s1) => (Returned a, s1)
    | (Threw e, s1) => h e s1
    end.

(** A computation on the world alone, run on the engine's world. *)
Definition lift_world {A} (c : World -> Outcome A * World) : M A :=
  fun s => let '(o, w1) := c (world s) in (o, set_world w1 s).

Declare Scope engine_scope.
Delimit Scope engine_scope with engine.
Notation "'let!' x := c 'in' k" := (bind c (fun x => k))
  (at level 10, x name, c at level 100, k at level 200) : engine_scope.
Notation "'do!' c 'in' k" := (bind c (fun _ => k))
  (at level 10, c at level 100, k at level 200) : engine_scope.
Local Open Scope engine_scope.

(** [Date.now()]. *)
Definition Date_now : M Z := fun s => (Returned (now (world s)), s).

(** The next random string. *)
Definition random_string : M jsstring :=
  fun s => let '(r, w1) := draw (world s) in (Returned r, set_world w1 s).

Definition log_effect (e : Effect) : M unit :=
  modify (fun s => set_world (log e (world s)) s).

(* ================================================================== *)
(** ** [TranslatorFactory] *)
(* ================================================================== *)

Module TranslatorFactory.

Import BaseTranslator.

Definition set_instances (i : list (jsstring * Translator)) (s : Sys) : Sys :=
  set_factory {| translators := translators (factory s); instances := i |} s.

(** Truthiness of an object reference: every object is truthy. *)
Definition object_truthy {A} (_ : A) : bool := true.

(** [{ ...config, translatorType: type }] as [validateConfig] reads
    it. *)
Definition merged_config (c : TranslatorConfig) (type : TranslatorType)
  : ValidationUtils.ConfigObject :=
  {| ValidationUtils.co_translatorType := Some (TranslatorType_value type);
     ValidationUtils.co_sourceLanguage := cfg_sourceLanguage c;
     ValidationUtils.co_targetLanguage := cfg_targetLanguage c;
     ValidationUtils.co_apiKey := cfg_apiKey c |}.

(** [generateInstanceId(type)]. *)
Definition generateInstanceId (type : TranslatorType) : M jsstring :=
  let! timestamp := Date_now in
  let! random := random_string in
  ret (TranslatorType_value type ++ lit "_" ++ of_Z timestamp
         ++ lit "_" ++ random).

(** [destroyInstance(instanceId)]. *)
Definition destroyInstance (instanceId : jsstring) : M unit :=
  let! s := get_state in
  match JsMap.get instanceId (instances (factory s)) with
  | None => ret tt
  | Some instance =>
      match snd (destroy instance) with
      | Some e => throw e
      | None =>
          modify (set_instances (JsMap.delete instanceId (instances (factory s))))
      end
  end.

(** [createTranslatorAsync(type, config, instanceId?)]. *)
Definition createTranslatorAsync (type : TranslatorType)
    (config : TranslatorConfig) (instanceId : option jsstring)
  : M Translator :=
  let! s := get_state in
  match translators (factory s) !! type with
  | None =>
      throw (new_Error (lit "Translator type " ++ TranslatorType_value type
                          ++ lit " is not registered"))
  | Some registration =>
      if negb (object_truthy
                 (ValidationUtils.validateConfig (merged_config config type)))
      then throw (new_Error (lit "Invalid translator configuration"))
      else
        let! id := (if truthy (default [] instanceId)
                    then ret (default [] instanceId)
                    else generateInstanceId type) in
        let! s1 := get_state in
        do! (if JsMap.has id (instances (factory s1))
             then destroyInstance id else ret tt) in
        let instance := construct (reg_constructor registration config) config in
        match initialize instance (Some config) with
        | (_, Some e) => throw e
        | (instance', None) =>
            let! s2 := get_state in
            do! modify (set_instances
                          (JsMap.set id instance' (instances (factory s2)))) in
            do! log_effect (InstanceCreated id) in
            ret instance'
        end
  end.

Definition set_translators
    (r : gmap TranslatorType TranslatorRegistration) (s : Sys) : Sys :=
  set_factory {| translators := r; instances := instances (factory s) |} s.

(** [isSupported(type)]. *)
Definition isSupported (type : TranslatorType) (s : Sys) : bool :=
  bool_decide (is_Some (translators (factory s) !! type)).

(** [getInstance(instanceId)]. *)
Definition getInstance (instanceId : jsstring) (s : Sys) : option Translator :=
  JsMap.get instanceId (instances (factory s)).

(** A promise that is not awaited: the computation runs, and what it
    throws is an unhandled rejection the caller does not see.  The state
    is the one left when the promise has settled. *)
Definition detached (c : M unit) : M unit :=
  fun s => (Returned tt, snd (c s)).

(** [for (const key of keys) body(key)]. *)
Fixpoint for_each (keys : list jsstring) (body : jsstring -> M unit) : M unit :=
  match keys with
  | [] => ret tt
  | key :: rest => do! body key in for_each rest body
  end.

(** The type an instance id stands for: [key.split('_')[0]]. *)
Definition id_type (key : jsstring) : jsstring := before_first 95 key.

(** [unregisterTranslator(type)]. *)
Definition unregisterTranslator (type : TranslatorType) : M unit :=
  let! s := get_state in
  if negb (bool_decide (is_Some (translators (factory s) !! type))) then ret tt
  else
    let instancesToDestroy :=
      List.filter (fun key => Js.eqb (id_type key) (TranslatorType_value type))
        (JsMap.keys (instances (factory s))) in
    do! for_each instancesToDestroy (fun key => detached (destroyInstance key)) in
    modify (fun s1 => set_translators (base.delete type (translators (factory s1))) s1).

(** [destroyAllInstances()]: a failure of one [destroyInstance] is
    logged and the loop goes on. *)
Definition destroyAllInstances : M unit :=
  let! s := get_state in
  for_each (JsMap.keys (instances (factory s)))
    (fun id => try_catch (destroyInstance id) (fun _ => ret tt)).

(** [cleanup()]. *)
Definition cleanup : M unit :=
  do! destroyAllInstances in
  modify (set_translators ∅).

(** [reinitializeInstance(instanceId, config?)]: the instance is an
    object in the map, so what [destroy] and [initialize] do to it shows
    there. *)
Definition reinitializeInstance (instanceId : jsstring)
    (config : option TranslatorConfig) : M unit :=
  let! s := get_state in
  match JsMap.get instanceId (instances (factory s)) with
  | None =>
      throw (new_Error (lit "Instance " ++ instanceId ++ lit " not found"))
  | Some instance =>
      match destroy instance with
      | (_, Some e) => throw e
      | (destroyed, None) =>
          let '(initialized, failure) := initialize destroyed config in
          do! modify (set_instances
                        (JsMap.alter (fun _ => initialized) instanceId
                           (instances (factory s)))) in
          match failure with
          | Some e => throw e
          | None => ret tt
          end
      end
  end.

End TranslatorFactory.

(* ================================================================== *)
(** ** [ContentTranslationService] *)
(* ================================================================== *)

Module ContentTranslationService.

Import BaseTranslator.

(** The size cap of the cache and of the history. *)
Definition maxCacheSize : nat := 1000.
Definition maxHistorySize : nat := 1000.

(** [generateTextHash(text, sourceLang, targetLang, translator)]. *)
Definition generateTextHash (text sourceLang targetLang : jsstring)
    (translator : TranslatorType) : jsstring :=
  CryptoUtils.hash
    (text ++ lit "|" ++ sourceLang ++ lit "|" ++ targetLang ++ lit "|"
       ++ TranslatorType_value translator).

(** [getCachedTranslation(text, sourceLang, targetLang, translator)]. *)
Definition getCachedTranslation (text sourceLang targetLang : jsstring)
    (translator : TranslatorType) : M (option TranslationCacheItem) :=
  let hash := generateTextHash text sourceLang targetLang translator in
  do! log_effect (CacheLookup hash) in
  let! s := get_state in
  ret (JsMap.get hash (translationCache s)).

(** The map after [cacheTranslation] stored [item] under [hash]. *)
Definition cache_put (hash : jsstring) (item : TranslationCacheItem)
    (cache : list (jsstring * TranslationCacheItem))
  : list (jsstring * TranslationCacheItem) :=
  let c1 := JsMap.set hash item cache in
  if bool_decide (maxCacheSize < JsMap.size c1)%nat then
    match JsMap.first_key c1 with
    | Some oldestKey => JsMap.delete oldestKey c1
    | None => c1
    end
  else c1.

(** [cacheTranslation(originalText, response, translator)]. *)
Definition cacheTranslation (originalText : jsstring)
    (response : TranslationResponse) (translator : TranslatorType) : M unit :=
  let hash := generateTextHash originalText (sourceLang response)
                (targetLang response) translator in
  let! t := Date_now in
  let cacheItem :=
    {| ci_originalText := originalText;
       ci_translatedText := translatedText response;
       ci_sourceLang := sourceLang response;
       ci_targetLang := targetLang response;
       ci_translator := translator;
       ci_timestamp := t;
       ci_hash := hash |} in
  do! log_effect (CacheWrite hash) in
  modify (fun s => set_cache (cache_put hash cacheItem (translationCache s)) s).

(** [createResponseFromCache(cacheItem)]. *)
Definition createResponseFromCache (cacheItem : TranslationCacheItem)
  : M TranslationResponse :=
  let! t := Date_now in
  ret {| originalText := ci_originalText cacheItem;
         translatedText := ci_translatedText cacheItem;
         sourceLang := ci_sourceLang cacheItem;
         targetLang := ci_targetLang cacheItem;
         translator := ci_translator cacheItem;
         status := success;
         timestamp := t;
         error_msg := None |}.

(** [a.slice(-n)]: the last [n] elements. *)
Definition slice_last {A} (n : nat) (l : list A) : list A :=
  drop (length l - n) l.

(** [addToHistory(response, translator)]. *)
Definition addToHistory (response : TranslationResponse)
    (translator : TranslatorType) : M unit :=
  let! id := random_string in
  let historyItem :=
    {| h_id := id;
       h_originalText := originalText response;
       h_translatedText := translatedText response;
       h_sourceLang := sourceLang response;
       h_targetLang := targetLang response;
       h_translator := translator;
       h_timestamp := timestamp response |} in
  do! log_effect (HistoryAppended id) in
  modify (fun s =>
    let h := translationHistory s ++ [historyItem] in
    set_history
      (if bool_decide (maxHistorySize < length h)%nat
       then slice_last maxHistorySize h else h) s).

(** [config.advanced?.maxTokens || 128000]. *)
Definition effective_maxTokens (config : PluginSettings) : Z :=
  if maxTokens (advanced config) =? 0 then 128000
  else maxTokens (advanced config).

(** [{ ...translatorConfig, maxTokens }]. *)
Definition with_maxTokens (c : TranslatorConfig) (n : Z) : TranslatorConfig :=
  {| cfg_type := cfg_type c; cfg_name := cfg_name c;
     cfg_enabled := cfg_enabled c; cfg_apiKey := cfg_apiKey c;
     cfg_apiUrl := cfg_apiUrl c; cfg_model := cfg_model c;
     cfg_maxTokens := Some n; cfg_timeout := cfg_timeout c;
     cfg_retryCount := cfg_retryCount c;
     cfg_sourceLanguage := cfg_sourceLanguage c;
     cfg_targetLanguage := cfg_targetLanguage c |}.

(** The body of [try] in [translateText]. *)
Definition translateText_try (request : TranslationRequest)
  : M TranslationResponse :=
  let! s := get_state in
  if negb (svc_isInitialized s) then
    throw (new_Error (lit "Service not initialized"))
  else
    let config := settings s in
    let sourceLanguage := or_else (req_sourceLang request) LanguageCode.AUTO in
    let targetLang := req_targetLang request in
    let text := req_text request in
    let translator := default (defaultTranslator config) (req_translator request) in
    let! cachedResult :=
      (if enableCache (advanced config)
       then getCachedTranslation text sourceLanguage targetLang translator
       else ret None) in
    match cachedResult with
    | Some item => createResponseFromCache item
    | None =>
        let maxTokens := effective_maxTokens config in
        let translationRequest :=
          {| req_text := ValidationUtils.sanitizeHtml text;
             req_sourceLang := sourceLanguage;
             req_targetLang := targetLang;
             req_translator := Some translator;
             req_maxTokens := Some maxTokens |} in
        match translators_cfg config translator with
        | None =>
            throw (new_Error (lit "Translator " ++ TranslatorType_value translator
                                ++ lit " not configured"))
        | Some translatorConfig =>
            let enhancedTranslatorConfig :=
              with_maxTokens translatorConfig maxTokens in
            let! translatorInstance :=
              TranslatorFactory.createTranslatorAsync translator
                enhancedTranslatorConfig None in
            if negb (TranslatorFactory.object_truthy translatorInstance) then
              throw (new_Error (lit "Translator " ++ TranslatorType_value translator
                                  ++ lit " not available"))
            else
              let! response :=
                lift_world (translate translatorInstance translationRequest) in
              do! (if enableCache (advanced config)
                      && bool_decide (status response = success)
                   then cacheTranslation text response translator
                   else ret tt) in
              do! addToHistory response translator in
              ret response
        end
    end.

(** The response built by [catch] in [translateText]. *)
Definition error_response (request : TranslationRequest) (e : Thrown)
  : M TranslationResponse :=
  let! s := get_state in
  let config := settings s in
  let! t := Date_now in
  ret {| originalText := req_text request;
         translatedText := [];
         sourceLang := or_else (req_sourceLang request) LanguageCode.AUTO;
         targetLang := req_targetLang request;
         translator := default (defaultTranslator config) (req_translator request);
         status := error;
         timestamp := t;
         error_msg := Some (if instanceof_Error e then thrown_message e
                            else lit "Unknown error") |}.

(** [translateText(request)]. *)
Definition translateText (request : TranslationRequest)
  : M TranslationResponse :=
  try_catch (translateText_try request) (error_response request).

(** [clearTranslationCache()] and [clearTranslationHistory()] on the
    state in memory. *)
Definition clearTranslationCache : M unit := modify (set_cache []).
Definition clearTranslationHistory : M unit := modify (set_history []).

(** [getTranslationHistory(limit?)]: newest first; a [limit] of 0 is
    falsy and means no limit. *)
Definition getTranslationHistory (limit : option Z) (s : Sys)
  : list TranslationHistory :=
  let history := rev (translationHistory s) in
  match limit with
  | Some n => if n =? 0 then history else slice0 n history
  | None => history
  end.

(** The loop of [batchTranslate]. *)
Fixpoint batchTranslate_loop (requests : list TranslationRequest)
    (results : list TranslationResponse) : M (list TranslationResponse) :=
  match requests with
  | [] => ret results
  | request :: rest =>
      let! response := translateText request in
      batchTranslate_loop rest (results ++ [response])
  end.

(** [batchTranslate(requests)]. *)
Definition batchTranslate (requests : list TranslationRequest)
  : M (list TranslationResponse) :=
  try_catch (batchTranslate_loop requests []) throw.

(** [detectLanguage(text)]. *)
Definition detectLanguage (text : jsstring) : jsstring :=
  if has_in_range 19968 40959 text then LanguageCode.ZH_CN
  else if has_in_range 12352 12447 text || has_in_range 12448 12543 text
  then LanguageCode.JA
  else if has_in_range 44032 55215 text then LanguageCode.KO
  else if has_in_range 1024 1279 text then LanguageCode.RU
  else if has_in_range 1536 1791 text then LanguageCode.AR
  else LanguageCode.EN.

(** [Array.from(this.translationCache.values())], what
    [saveTranslationCache] writes. *)
Definition cache_to_array (c : list (jsstring * TranslationCacheItem))
  : list TranslationCacheItem :=
  snd <$> c.

(** [new Map(cacheArray.map(item => [item.hash, item]))], what
    [loadTranslationCache] builds. *)
Definition cache_from_array (a : list TranslationCacheItem)
  : list (jsstring * TranslationCacheItem) :=
  fold_left (fun m item => JsMap.set (ci_hash item) item m) a [].

End ContentTranslationService.

(* ================================================================== *)
(** ** Batch tasks *)
(* ================================================================== *)

(** [executeBatchTranslation] is an [async] function: it runs until it
    awaits, and is resumed when the awaited promise settles.  Between two
    suspension points nothing else runs; at a suspension point any other
    call of the service may, [cancelBatchTranslation] among them.  The
    machine keeps, for every task, where its executor waits.  The task
    object is shared by the map and its executor; it is kept in the map and
    the executor reaches it by its id. *)
Module BatchTranslation.

Import BaseTranslator ContentTranslationService.

(** Where an executor waits, with the settled value of the promise it
    awaits. *)
Inductive Continuation :=
| AwaitCreate (o : Outcome Translator)
| AwaitTranslate (i : nat) (translatorInstance : Translator)
    (o : Outcome TranslationResponse)
| Resolved
| Rejected (e : Thrown).

Record Machine := {
  sys : Sys;
  executors : list (jsstring * Continuation)
}.

Definition with_task (taskId : jsstring)
    (f : BatchTranslationTask -> BatchTranslationTask) (s : Sys) : Sys :=
  set_tasks (JsMap.alter f taskId (batchTasks s)) s.

Definition set_status (st : TaskStatus) (t : BatchTranslationTask)
  : BatchTranslationTask :=
  {| task_id := task_id t; texts := texts t; task_from := task_from t;
     task_to := task_to t; task_translator := task_translator t;
     progress := progress t; task_status := st; results := results t;
     task_errors := task_errors t; startTime := startTime t;
     endTime := endTime t |}.

Definition set_progress (p : Z * Z) (t : BatchTranslationTask)
  : BatchTranslationTask :=
  {| task_id := task_id t; texts := texts t; task_from := task_from t;
     task_to := task_to t; task_translator := task_translator t;
     progress := p; task_status := task_status t; results := results t;
     task_errors := task_errors t; startTime := startTime t;
     endTime := endTime t |}.

Definition set_startTime (z : Z) (t : BatchTranslationTask)
  : BatchTranslationTask :=
  {| task_id := task_id t; texts := texts t; task_from := task_from t;
     task_to := task_to t; task_translator := task_translator t;
     progress := progress t; task_status := task_status t;
     results := results t; task_errors := task_errors t;
     startTime := Some z; endTime := endTime t |}.

Definition set_endTime (z : Z) (t : BatchTranslationTask)
  : BatchTranslationTask :=
  {| task_id := task_id t; texts := texts t; task_from := task_from t;
     task_to := task_to t; task_translator := task_translator t;
     progress := progress t; task_status := task_status t;
     results := results t; task_errors := task_errors t;
     startTime := startTime t; endTime := Some z |}.

(** [task.results.push(r)]. *)
Definition push_result (r : TranslationResponse) (t : BatchTranslationTask)
  : BatchTranslationTask :=
  {| task_id := task_id t; texts := texts t; task_from := task_from t;
     task_to := task_to t; task_translator := task_translator t;
     progress := progress t; task_status := task_status t;
     results := results t ++ [r]; task_errors := task_errors t;
     startTime := startTime t; endTime := endTime t |}.

(** [task.errors.push(m)]. *)
Definition push_error (m : jsstring) (t : BatchTranslationTask)
  : BatchTranslationTask :=
  {| task_id := task_id t; texts := texts t; task_from := task_from t;
     task_to := task_to t; task_translator := task_translator t;
     progress := progress t; task_status := task_status t;
     results := results t; task_errors := task_errors t ++ [m];
     startTime := startTime t; endTime := endTime t |}.

(** The message [catch] stores for a thrown value. *)
Definition caught_message (e : Thrown) : jsstring :=
  if instanceof_Error e then thrown_message e else lit "Unknown error".

(** The placeholder [catch] pushes for chunk [text]. *)
Definition placeholder (t : BatchTranslationTask) (text : jsstring)
    (e : Thrown) (w : World) : TranslationResponse :=
  {| originalText := text;
     translatedText := [];
     sourceLang := task_from t;
     targetLang := task_to t;
     translator := task_translator t;
     status := error;
     timestamp := now w;
     error_msg := Some (caught_message e) |}.

(** The statements after the loop: the task is marked completed. *)
Definition finish (taskId : jsstring) (s : Sys) : Sys * Continuation :=
  (with_task taskId (fun t => set_endTime (now (world s))
                                (set_status task_completed t)) s,
   Resolved).

(** The request of the loop body for one chunk. *)
Definition chunk_request (task : BatchTranslationTask) (text : jsstring)
  : TranslationRequest :=
  {| req_text := text;
     req_sourceLang := task_from task;
     req_targetLang := task_to task;
     req_translator := Some (task_translator task);
     req_maxTokens := None |}.

(** The head of iteration [i]: the loop test, the test of the status,
    and the call of [translate], which the executor then awaits. *)
Definition loop_head (taskId : jsstring) (i : nat)
    (translatorInstance : Translator) (s : Sys) : Sys * Continuation :=
  match JsMap.get taskId (batchTasks s) with
  | None => (s, Resolved)
  | Some task =>
      match texts task !! i with
      | Some text =>
          if negb (bool_decide (task_status task = task_running)) then
            finish taskId s
          else
            let request := chunk_request task text in
            let '(o, w1) := translate translatorInstance request (world s) in
            (set_world w1 s, AwaitTranslate i translatorInstance o)
      | None => finish taskId s
      end
  end.

(** The rest of iteration [i] once [translate] has settled with [o], on
    the task object. *)
Definition settle_chunk (i : nat) (o : Outcome TranslationResponse)
    (w : World) (task : BatchTranslationTask) : BatchTranslationTask :=
  let task1 :=
    match o with
    | Returned response =>
        let t1 := push_result response task in
        if bool_decide (status response = error) then
          push_error (or_else (default [] (error_msg response))
                        (lit "Unknown error")) t1
        else t1
    | Threw e =>
        push_result
          (placeholder task (default [] (texts task !! i)) e w)
          (push_error (caught_message e) task)
    end in
  set_progress ((Z.of_nat i + 1) * 100, Z.of_nat (length (texts task))) task1.

Definition after_chunk (taskId : jsstring) (i : nat)
    (o : Outcome TranslationResponse) (s : Sys) : Sys :=
  with_task taskId (settle_chunk i o (world s)) s.

(** The handler [startBatchTranslation] attaches to the executor's
    promise. *)
Definition on_rejected (taskId : jsstring) (e : Thrown) (s : Sys) : Sys :=
  with_task taskId
    (fun task => push_error (thrown_message e) (set_status task_failed task)) s.

(** [executeBatchTranslation(taskId)] up to its first suspension. *)
Definition execute_begin (taskId : jsstring) (s : Sys) : Sys * Continuation :=
  match JsMap.get taskId (batchTasks s) with
  | None =>
      let e := new_Error (lit "Task not found") in
      (on_rejected taskId e s, Rejected e)
  | Some task =>
      let s1 := with_task taskId
                  (fun t => set_startTime (now (world s))
                              (set_status task_running t)) s in
      match translators_cfg (settings s1) (task_translator task) with
      | None =>
          let e := new_Error (lit "Translator "
                                ++ TranslatorType_value (task_translator task)
                                ++ lit " not configured") in
          (on_rejected taskId e s1, Rejected e)
      | Some translatorConfig =>
          let '(o, s2) :=
            TranslatorFactory.createTranslatorAsync (task_translator task)
              translatorConfig None s1 in
          (s2, AwaitCreate o)
      end
  end.

(** The executor of [taskId] runs from where it waits to its next
    suspension. *)
Definition resume (taskId : jsstring) (m : Machine) : Machine :=
  match JsMap.get taskId (executors m) with
  | Some (AwaitCreate (Threw e)) =>
      {| sys := on_rejected taskId e (sys m);
         executors := JsMap.set taskId (Rejected e) (executors m) |}
  | Some (AwaitCreate (Returned translatorInstance)) =>
      let '(s1, k) := loop_head taskId 0 translatorInstance (sys m) in
      {| sys := s1; executors := JsMap.set taskId k (executors m) |}
  | Some (AwaitTranslate i translatorInstance o) =>
      let s1 := after_chunk taskId i o (sys m) in
      let '(s2, k) := loop_head taskId (S i) translatorInstance s1 in
      {| sys := s2; executors := JsMap.set taskId k (executors m) |}
  | Some Resolved | Some (Rejected _) | None => m
  end.

(** [startBatchTranslation(texts, from, to, translatorType)]: the task
    id and the machine once the call has returned. *)
Definition startBatchTranslation (txts : list jsstring) (from to : jsstring)
    (translatorType : TranslatorType) (m : Machine) : jsstring * Machine :=
  let '(taskId, w1) := draw (world (sys m)) in
  let task :=
    {| task_id := taskId; texts := txts; task_from := from; task_to := to;
       task_translator := translatorType; progress := (0, 1);
       task_status := task_pending; results := []; task_errors := [];
       startTime := None; endTime := None |} in
  let s1 := set_tasks (JsMap.set taskId task (batchTasks (sys m)))
              (set_world w1 (sys m)) in
  let '(s2, k) := execute_begin taskId s1 in
  (taskId, {| sys := s2; executors := JsMap.set taskId k (executors m) |}).

(** [cancelBatchTranslation(taskId)]. *)
Definition cancelBatchTranslation (taskId : jsstring) (m : Machine)
  : bool * Machine :=
  match JsMap.get taskId (batchTasks (sys m)) with
  | None => (false, m)
  | Some task =>
      if bool_decide (task_status task = task_completed) then (false, m)
      else
        (true,
         {| sys := with_task taskId
                     (fun t => push_error (lit "Translation cancelled by user")
                                 (set_status task_failed t)) (sys m);
            executors := executors m |})
  end.

(** What can happen at a suspension point. *)
Inductive Occurrence :=
| Resume (taskId : jsstring)
| Cancel (taskId : jsstring).

#[global] Instance Occurrence_eq_dec : EqDecision Occurrence.
Proof. solve_decision. Defined.

Definition step (e : Occurrence) (m : Machine) : Machine :=
  match e with
  | Resume taskId => resume taskId m
  | Cancel taskId => snd (cancelBatchTranslation taskId m)
  end.

(** The machine after a sequence of events. *)
Definition run (es : list Occurrence) (m : Machine) : Machine :=
  fold_left (fun m e => step e m) es m.

(** The status of a task, as [getBatchTranslationProgress] reports it. *)
Definition status_of (taskId : jsstring) (m : Machine) : option TaskStatus :=
  task_status <$> JsMap.get taskId (batchTasks (sys m)).

End BatchTranslation.


(* ================================================================== *)
(** ** Concrete endpoints, adapters and states *)
(* ================================================================== *)

Module Fixtures.

Import HttpUtils BaseTranslator.



(** A 200 whose body does not parse. *)
Definition unreadable_200 : FetchedResponse :=
  {| fetched_status := 200; fetched_statusText := lit "OK";
     fetched_body :=
       Threw (ErrorInstance (lit "SyntaxError")
                (lit "Unexpected end of JSON input")) |}.




(** An adapter in the manner of the OpenAI one: it wants a non-blank API
    key, supports a few languages, and its backend answers from the
    text alone. *)
Definition stub_doTranslate (_ : list BackendCall) (text from to : jsstring)
  : Outcome jsstring :=
  if Js.eqb text (lit "Hello") then Returned [20320; 22909]
  else if includes (lit "quota") text then
    Threw (new_Error (lit "OpenAI translation failed: quota exceeded"))
  else Returned (lit "[" ++ to ++ lit "] " ++ text).

Definition stub_adapter (_ : TranslatorConfig) : Adapter :=
  {| getType := OPENAI;
     getName := lit "OpenAI Translator";
     getSupportedLanguages :=
       [LanguageCode.AUTO; LanguageCode.ZH_CN; LanguageCode.EN; LanguageCode.JA];
     validateConfig :=
       fun c => match cfg_apiKey c with
                | Some k => truthy k && truthy (trim k)
                | None => false
                end;
     doInitialize := fun _ => None;
     doDestroy := None;
     doTranslate := stub_doTranslate |}.

(** A configuration as the settings page stores it: no key outside the
    interface. *)
Definition openai_config : TranslatorConfig :=
  {| cfg_type := OPENAI; cfg_name := lit "OpenAI"; cfg_enabled := true;
     cfg_apiKey := Some (lit "sk-live-0123456789");
     cfg_apiUrl := None; cfg_model := None; cfg_maxTokens := None;
     cfg_timeout := Some 30000; cfg_retryCount := Some 3;
     cfg_sourceLanguage := None; cfg_targetLanguage := None |}.

Definition openai_registration : TranslatorRegistration :=
  {| reg_type := OPENAI; reg_constructor := stub_adapter;
     reg_name := lit "OpenAI"; reg_description := lit "OpenAI GPT" |}.

(** The default settings with the OpenAI translator configured;
    [cache] and [logging] set the two flags of [advanced]. *)
Definition settings_with (cache logging : bool) : PluginSettings :=
  {| defaultTranslator := defaultTranslator ConfigService.DEFAULT_CONFIG;
     defaultTargetLang := defaultTargetLang ConfigService.DEFAULT_CONFIG;
     translators_cfg :=
       fun t => match t with OPENAI => Some openai_config | CUSTOM => None end;
     advanced :=
       {| enableCache := cache;
          cacheExpiry := cacheExpiry (advanced ConfigService.DEFAULT_CONFIG);
          enableLogging := logging;
          maxTokens := maxTokens (advanced ConfigService.DEFAULT_CONFIG) |} |}.

Definition world0 : World :=
  {| now := 1730000000000;
     entropy := fun n => lit "r" ++ of_Z (Z.of_nat n);
     draws := 0; effects := [] |}.

(** An initialized service with empty cache and history. *)
Definition sys_with (cache logging : bool) : Sys :=
  {| svc_isInitialized := true;
     settings := settings_with cache logging;
     translationCache := [];
     translationHistory := [];
     batchTasks := [];
     factory := {| translators := {[ OPENAI := openai_registration ]};
                   instances := [] |};
     world := world0 |}.

Definition sys0 : Sys := sys_with true true.

(** The request of the specification's scenario. *)
Definition hello_request : TranslationRequest :=
  {| req_text := lit "Hello"; req_sourceLang := LanguageCode.AUTO;
     req_targetLang := LanguageCode.ZH_CN; req_translator := Some OPENAI;
     req_maxTokens := None |}.

(** A request the template refuses: source and target are the same. *)
Definition same_language_request : TranslationRequest :=
  {| req_text := lit "Hello"; req_sourceLang := LanguageCode.EN;
     req_targetLang := LanguageCode.EN; req_translator := Some OPENAI;
     req_maxTokens := None |}.

(** A request for a language the adapter does not support. *)
Definition french_request : TranslationRequest :=
  {| req_text := lit "Hello"; req_sourceLang := LanguageCode.EN;
     req_targetLang := LanguageCode.FR; req_translator := Some OPENAI;
     req_maxTokens := None |}.

(** An initialized instance of the stub. *)
Definition stub_instance : Translator :=
  {| adapter := stub_adapter openai_config; config := openai_config;
     isInitialized := true |}.

(** A cache filled to its cap: the keys [k0], [k1], ... in insertion
    order. *)
Definition filler_item (n : nat) : TranslationCacheItem :=
  {| ci_originalText := lit "text " ++ of_Z (Z.of_nat n);
     ci_translatedText := lit "translation " ++ of_Z (Z.of_nat n);
     ci_sourceLang := LanguageCode.EN;
     ci_targetLang := LanguageCode.ZH_CN;
     ci_translator := OPENAI;
     ci_timestamp := 1700000000000 + Z.of_nat n;
     ci_hash := lit "k" ++ of_Z (Z.of_nat n) |}.

Definition full_cache : list (jsstring * TranslationCacheItem) :=
  (fun n => (lit "k" ++ of_Z (Z.of_nat n), filler_item n)) <$> seq 0 1000.

Definition sys_full : Sys := set_cache full_cache sys0.

(** The response of the scenario. *)
Definition hello_response : TranslationResponse :=
  {| originalText := lit "Hello"; translatedText := [20320; 22909];
     sourceLang := LanguageCode.AUTO; targetLang := LanguageCode.ZH_CN;
     translator := OPENAI; status := success; timestamp := 1730000000000;
     error_msg := None |}.

(** The machine of an initialized service with no task. *)
Definition machine0 : BatchTranslation.Machine :=
  {| BatchTranslation.sys := sys0; BatchTranslation.executors := [] |}.

(** Three chunks; the backend refuses the second. *)
Definition three_chunks : list jsstring :=
  [lit "first chunk"; lit "over quota"; lit "third chunk"].

(** An adapter in the manner of the custom one, set up for Japanese
    and Korean only. *)
Definition custom_adapter (_ : TranslatorConfig) : Adapter :=
  {| getType := CUSTOM;
     getName := lit "Custom Translator";
     getSupportedLanguages := [LanguageCode.JA; LanguageCode.KO];
     validateConfig := fun _ => true;
     doInitialize := fun _ => None;
     doDestroy := None;
     doTranslate := stub_doTranslate |}.

Definition custom_instance : Translator :=
  {| adapter := custom_adapter openai_config; config := openai_config;
     isInitialized := true |}.

(** Two requests that differ in their text only: ['Aa'] and ['BB']. *)
Definition aa_request : TranslationRequest :=
  {| req_text := lit "Aa"; req_sourceLang := LanguageCode.EN;
     req_targetLang := LanguageCode.ZH_CN; req_translator := Some OPENAI;
     req_maxTokens := None |}.

Definition bb_request : TranslationRequest :=
  {| req_text := lit "BB"; req_sourceLang := LanguageCode.EN;
     req_targetLang := LanguageCode.ZH_CN; req_translator := Some OPENAI;
     req_maxTokens := None |}.

(** The batch of the three chunks, started and run to its end. *)
Definition three_chunks_id : jsstring :=
  fst (BatchTranslation.startBatchTranslation three_chunks LanguageCode.EN
         LanguageCode.ZH_CN OPENAI machine0).

Definition three_chunks_started : BatchTranslation.Machine :=
  snd (BatchTranslation.startBatchTranslation three_chunks LanguageCode.EN
         LanguageCode.ZH_CN OPENAI machine0).

Definition three_chunks_done : BatchTranslation.Machine :=
  BatchTranslation.run
    (replicate 4 (BatchTranslation.Resume three_chunks_id))
    (snd (BatchTranslation.startBatchTranslation three_chunks
            LanguageCode.EN LanguageCode.ZH_CN OPENAI machine0)).

(** A factory with two instances of the stub: one under an id the
    caller chose, one under a generated id. *)
Definition sys_two_instances : Sys :=
  set_factory
    {| translators := {[ OPENAI := openai_registration ]};
       instances := [(lit "main", stub_instance);
                     (lit "openai_1730000000000_r0", stub_instance)] |}
    sys0.

(** A configuration the stub refuses: no API key. *)
Definition keyless_config : TranslatorConfig :=
  {| cfg_type := OPENAI; cfg_name := lit "OpenAI"; cfg_enabled := true;
     cfg_apiKey := None;
     cfg_apiUrl := None; cfg_model := None; cfg_maxTokens := None;
     cfg_timeout := Some 30000; cfg_retryCount := Some 3;
     cfg_sourceLanguage := None; cfg_targetLanguage := None |}.

End Fixtures.


(* ================================================================== *)
(** ** Vocabulary of the statements *)
(* ================================================================== *)

Module TransportSpec.

Import HttpUtils.






End TransportSpec.

Module TemplateSpec.

Import BaseTranslator.

(** The requests [validateRequest] refuses. *)
Definition invalid_request (t : Translator) (request : TranslationRequest)
  : Prop :=
  req_text request = []
  \/ ValidationUtils.validateText (req_text request) = false
  \/ ValidationUtils.validateLanguageCode (req_sourceLang request) = false
  \/ ValidationUtils.validateLanguageCode (req_targetLang request) = false
  \/ req_sourceLang request = req_targetLang request
  \/ req_sourceLang request ∉ getSupportedLanguages (adapter t)
  \/ req_targetLang request ∉ getSupportedLanguages (adapter t).

End TemplateSpec.

Module FactorySpec.

Import BaseTranslator.

(** The instance the factory builds for a configuration the adapter
    accepts. *)
Definition new_instance (reg : TranslatorRegistration)
    (config : TranslatorConfig) : Translator :=
  {| adapter := reg_constructor reg config; config := config;
     isInitialized := true |}.

End FactorySpec.

Module ServiceSpec.

Import BaseTranslator ContentTranslationService.

(** The item [cacheTranslation] builds. *)
Definition item_of (text : jsstring) (response : TranslationResponse)
    (tr : TranslatorType) (s : Sys) : TranslationCacheItem :=
  {| ci_originalText := text;
     ci_translatedText := translatedText response;
     ci_sourceLang := sourceLang response;
     ci_targetLang := targetLang response;
     ci_translator := tr;
     ci_timestamp := now (world s);
     ci_hash := generateTextHash text (sourceLang response)
                  (targetLang response) tr |}.

(** Two states with the same service fields: they differ at most in the
    factory and the world. *)
Definition same_service (s s' : Sys) : Prop :=
  svc_isInitialized s' = svc_isInitialized s
  /\ settings s' = settings s
  /\ translationCache s' = translationCache s
  /\ translationHistory s' = translationHistory s
  /\ batchTasks s' = batchTasks s.

(** The fingerprint under which [translateText] looks a request up. *)
Definition fingerprint (s : Sys) (request : TranslationRequest) : jsstring :=
  generateTextHash (req_text request)
    (or_else (req_sourceLang request) LanguageCode.AUTO)
    (req_targetLang request)
    (default (defaultTranslator (settings s)) (req_translator request)).

(** The response rebuilt from a cache item at time [t]. *)
Definition response_of_item (item : TranslationCacheItem) (t : Z)
  : TranslationResponse :=
  {| originalText := ci_originalText item;
     translatedText := ci_translatedText item;
     sourceLang := ci_sourceLang item;
     targetLang := ci_targetLang item;
     translator := ci_translator item;
     status := success;
     timestamp := t;
     error_msg := None |}.

(** The state after the lookup, when there is one. *)
Definition after_lookup (s : Sys) (request : TranslationRequest) : Sys :=
  if enableCache (advanced (settings s))
  then set_world (log (CacheLookup (fingerprint s request)) (world s)) s
  else s.

(** The request handed to the translator. *)
Definition backend_request (s : Sys) (request : TranslationRequest)
  : TranslationRequest :=
  {| req_text := ValidationUtils.sanitizeHtml (req_text request);
     req_sourceLang := or_else (req_sourceLang request) LanguageCode.AUTO;
     req_targetLang := req_targetLang request;
     req_translator :=
       Some (default (defaultTranslator (settings s)) (req_translator request));
     req_maxTokens := Some (effective_maxTokens (settings s)) |}.

(** The write-through after a response of the translator. *)
Definition write_through (s : Sys) (request : TranslationRequest)
    (response : TranslationResponse) (s1 : Sys) : Sys :=
  let tr := default (defaultTranslator (settings s)) (req_translator request) in
  let s2 :=
    if enableCache (advanced (settings s))
       && bool_decide (status response = success)
    then snd (cacheTranslation (req_text request) response tr s1)
    else s1 in
  snd (addToHistory response tr s2).

(** The ways through the body of [translateText]. *)
Inductive path (request : TranslationRequest) (s : Sys)
  : Outcome TranslationResponse * Sys -> Prop :=
| path_uninitialized :
    svc_isInitialized s = false ->
    path request s (Threw (new_Error (lit "Service not initialized")), s)
| path_hit item :
    svc_isInitialized s = true ->
    enableCache (advanced (settings s)) = true ->
    JsMap.get (fingerprint s request) (translationCache s) = Some item ->
    path request s
      (Returned (response_of_item item (now (world s))),
       after_lookup s request)
| path_unconfigured :
    svc_isInitialized s = true ->
    (enableCache (advanced (settings s)) = true ->
     JsMap.get (fingerprint s request) (translationCache s) = None) ->
    translators_cfg (settings s)
      (default (defaultTranslator (settings s)) (req_translator request))
    = None ->
    path request s
      (Threw (new_Error
                (lit "Translator "
                   ++ TranslatorType_value
                        (default (defaultTranslator (settings s))
                           (req_translator request))
                   ++ lit " not configured")),
       after_lookup s request)
| path_no_instance c e s1 :
    svc_isInitialized s = true ->
    (enableCache (advanced (settings s)) = true ->
     JsMap.get (fingerprint s request) (translationCache s) = None) ->
    translators_cfg (settings s)
      (default (defaultTranslator (settings s)) (req_translator request))
    = Some c ->
    TranslatorFactory.createTranslatorAsync
      (default (defaultTranslator (settings s)) (req_translator request))
      (with_maxTokens c (effective_maxTokens (settings s))) None
      (after_lookup s request)
    = (Threw e, s1) ->
    path request s (Threw e, s1)
| path_backend_failed c inst s1 e w :
    svc_isInitialized s = true ->
    (enableCache (advanced (settings s)) = true ->
     JsMap.get (fingerprint s request) (translationCache s) = None) ->
    translators_cfg (settings s)
      (default (defaultTranslator (settings s)) (req_translator request))
    = Some c ->
    TranslatorFactory.createTranslatorAsync
      (default (defaultTranslator (settings s)) (req_translator request))
      (with_maxTokens c (effective_maxTokens (settings s))) None
      (after_lookup s request)
    = (Returned inst, s1) ->
    translate inst (backend_request s request) (world s1) = (Threw e, w) ->
    path request s (Threw e, set_world w s1)
| path_translated c inst s1 response w :
    svc_isInitialized s = true ->
    (enableCache (advanced (settings s)) = true ->
     JsMap.get (fingerprint s request) (translationCache s) = None) ->
    translators_cfg (settings s)
      (default (defaultTranslator (settings s)) (req_translator request))
    = Some c ->
    TranslatorFactory.createTranslatorAsync
      (default (defaultTranslator (settings s)) (req_translator request))
      (with_maxTokens c (effective_maxTokens (settings s))) None
      (after_lookup s request)
    = (Returned inst, s1) ->
    translate inst (backend_request s request) (world s1)
    = (Returned response, w) ->
    path request s
      (Returned response, write_through s request response (set_world w s1)).

(** The part of the body that follows a miss. *)
Definition after_miss (request : TranslationRequest) (s : Sys)
  : M TranslationResponse :=
  let tr := default (defaultTranslator (settings s)) (req_translator request) in
  match translators_cfg (settings s) tr with
  | Some translatorConfig =>
      let! translatorInstance :=
        TranslatorFactory.createTranslatorAsync tr
          (with_maxTokens translatorConfig (effective_maxTokens (settings s)))
          None in
      if negb (TranslatorFactory.object_truthy translatorInstance)
      then throw (new_Error (lit "Translator " ++ TranslatorType_value tr
                               ++ lit " not available"))
      else
        let! response :=
          lift_world (translate translatorInstance (backend_request s request)) in
        do! (if enableCache (advanced (settings s))
                && bool_decide (status response = success)
             then cacheTranslation (req_text request) response tr
             else ret tt) in
        do! addToHistory response tr in
        ret response
  | None =>
      throw (new_Error (lit "Translator " ++ TranslatorType_value tr
                          ++ lit " not configured"))
  end.

(** The response [catch] builds, as a function of the state it reads. *)
Definition caught_response (request : TranslationRequest) (e : Thrown)
    (s : Sys) : TranslationResponse :=
  {| originalText := req_text request;
     translatedText := [];
     sourceLang := or_else (req_sourceLang request) LanguageCode.AUTO;
     targetLang := req_targetLang request;
     translator := default (defaultTranslator (settings s))
                     (req_translator request);
     status := error;
     timestamp := now (world s);
     error_msg := Some (if instanceof_Error e then thrown_message e
                        else lit "Unknown error") |}.

(** The entry [addToHistory] appends. *)
Definition history_item (id : jsstring) (response : TranslationResponse)
    (tr : TranslatorType) : TranslationHistory :=
  {| h_id := id;
     h_originalText := originalText response;
     h_translatedText := translatedText response;
     h_sourceLang := sourceLang response;
     h_targetLang := targetLang response;
     h_translator := tr;
     h_timestamp := timestamp response |}.

(** The log with one more entry, cut to its last 1000. *)
Definition history_push (x : TranslationHistory)
    (h : list TranslationHistory) : list TranslationHistory :=
  if bool_decide (maxHistorySize < length (h ++ [x]))%nat
  then slice_last maxHistorySize (h ++ [x]) else h ++ [x].

(** The state [s] when the clock reads [t]. *)
Definition at_time (t : Z) (s : Sys) : Sys := set_world (set_now t (world s)) s.

(** The state [s] with [advanced.cacheExpiry] set to [expiry]. *)
Definition with_cacheExpiry (expiry : Z) (s : Sys) : Sys :=
  {| svc_isInitialized := svc_isInitialized s;
     settings :=
       {| defaultTranslator := defaultTranslator (settings s);
          defaultTargetLang := defaultTargetLang (settings s);
          translators_cfg := translators_cfg (settings s);
          advanced :=
            {| enableCache := enableCache (advanced (settings s));
               cacheExpiry := expiry;
               enableLogging := enableLogging (advanced (settings s));
               maxTokens := maxTokens (advanced (settings s)) |} |};
     translationCache := translationCache s;
     translationHistory := translationHistory s;
     batchTasks := batchTasks s;
     factory := factory s;
     world := world s |}.

End ServiceSpec.

Module BatchSpec.

Import BaseTranslator BatchTranslation.

(** The result and the errors iteration [i] adds for an outcome. *)
Definition chunk_result (task : BatchTranslationTask) (text : jsstring)
    (o : Outcome TranslationResponse) (w : World) : TranslationResponse :=
  match o with
  | Returned response => response
  | Threw e => placeholder task text e w
  end.

Definition chunk_errors (o : Outcome TranslationResponse) : list jsstring :=
  match o with
  | Returned response =>
      if bool_decide (status response = error)
      then [or_else (default [] (error_msg response)) (lit "Unknown error")]
      else []
  | Threw e => [caught_message e]
  end.

(** The loop from iteration [i] on, without suspension: what the task
    and the world are once the chunks [rest] are processed. *)
Fixpoint remaining (inst : Translator) (i : nat) (rest : list jsstring)
    (task : BatchTranslationTask) (w : World) : BatchTranslationTask * World :=
  match rest with
  | [] => (set_endTime (now w) (set_status task_completed task), w)
  | text :: rest' =>
      let '(o, w1) := translate inst (chunk_request task text) w in
      remaining inst (S i) rest' (settle_chunk i o w1 task) w1
  end.

(** The outcomes of the calls of [translate] for the chunks [rest], in
    order, from the world [w]. *)
Fixpoint chunk_outcomes (inst : Translator) (task : BatchTranslationTask)
    (rest : list jsstring) (w : World) : list (Outcome TranslationResponse) :=
  match rest with
  | [] => []
  | text :: rest' =>
      let '(o, w1) := translate inst (chunk_request task text) w in
      o :: chunk_outcomes inst task rest' w1
  end.

(** The results the chunks [rest] add, in order. *)
Fixpoint chunk_results (inst : Translator) (task : BatchTranslationTask)
    (rest : list jsstring) (w : World) : list TranslationResponse :=
  match rest with
  | [] => []
  | text :: rest' =>
      let '(o, w1) := translate inst (chunk_request task text) w in
      chunk_result task text o w1 :: chunk_results inst task rest' w1
  end.

(** The number of outcomes that are throws. *)
Fixpoint failures (os : list (Outcome TranslationResponse)) : nat :=
  match os with
  | [] => 0
  | Threw _ :: r => S (failures r)
  | Returned _ :: r => failures r
  end.

End BatchSpec.

(** Strings as the engine has them: every code unit is a 16-bit value. *)
Module StringSpec.
Import Js.

Definition code_unit (c : Z) : Prop := 0 <= c < 65536.

Definition code_units (s : jsstring) : Prop := Forall code_unit s.

End StringSpec.

Module TranslatorSpec.
Import Js BaseTranslator.

(** A code unit of a text ready for the backend: not a zero-width
    one, and no white space other than the plain space. *)
Definition clean_unit (c : Z) : Prop :=
  is_zero_width c = false /\ (is_space c = true -> c = 32).

(** The code of the error a refused request is rethrown with. *)
Definition refusal_code (request : TranslationRequest) : jsstring :=
  if ValidationUtils.validateText (req_text request)
  then lit "UNSUPPORTED_LANGUAGE"
  else lit "UNKNOWN_ERROR".

(** The request of the availability check, and the backend call it
    makes. *)
Definition probe_request (t : Translator) : TranslationRequest :=
  {| req_text := lit "Hello"; req_sourceLang := LanguageCode.EN;
     req_targetLang := LanguageCode.ZH_CN;
     req_translator := Some (getType (adapter t));
     req_maxTokens := None |}.

Definition probe_call (t : Translator) : BackendCall :=
  {| bc_adapter := getType (adapter t); bc_text := lit "Hello";
     bc_from := LanguageCode.EN; bc_to := LanguageCode.ZH_CN |}.

(** [t'] is [t] after a call that takes it out of service:
    [updateConfig] with an API key or URL, or a [destroy] that went
    through. *)
Definition taken_out_of_service (t t' : Translator) : Prop :=
  (exists n, ValidationUtils.field_truthy (p_apiKey n)
             || ValidationUtils.field_truthy (p_apiUrl n) = true
             /\ t' = updateConfig t n)
  \/ (doDestroy (adapter t) = None /\ t' = fst (destroy t)).

End TranslatorSpec.

Module ServiceTerms.
Import ContentTranslationService.

(** A cache as the service builds it: no key twice, and every item
    stored under its own [hash]. *)
Definition keyed_by_hash (c : list (jsstring * TranslationCacheItem)) : Prop :=
  NoDup (JsMap.keys c) /\ Forall (fun kv => fst kv = ci_hash (snd kv)) c.

(** A response that answers [request]: a success, or an error that
    echoes the text and the target language of the request. *)
Definition answers (request : TranslationRequest) (r : TranslationResponse)
  : Prop :=
  status r = success
  \/ (status r = error
      /\ originalText r = req_text request
      /\ targetLang r = req_targetLang request).

(** The responses [translateText] gives to the requests, one after
    the other, each in the state the one before left. *)
Inductive in_sequence
  : list TranslationRequest -> Sys -> list TranslationResponse -> Sys -> Prop :=
| in_sequence_nil s : in_sequence [] s [] s
| in_sequence_cons request rest s r s1 rs s' :
    translateText request s = (Returned r, s1) ->
    in_sequence rest s1 rs s' ->
    in_sequence (request :: rest) s (r :: rs) s'.

End ServiceTerms.

Module BatchTerms.
Import BaseTranslator BatchTranslation.

(** The task an occurrence is about. *)
Definition subject (e : Occurrence) : jsstring :=
  match e with Resume taskId | Cancel taskId => taskId end.

(** The error of a batch whose translator has no configuration. *)
Definition not_configured (tr : TranslatorType) : Thrown :=
  new_Error (lit "Translator " ++ TranslatorType_value tr
               ++ lit " not configured").

(** A task that failed before its first chunk, for the reason [e]. *)
Definition failed_at_setup (e : Thrown) (task : BatchTranslationTask) : Prop :=
  task_status task = task_failed
  /\ results task = []
  /\ head (task_errors task) = Some (thrown_message e).

End BatchTerms.

Module FactoryTerms.
Import Js BaseTranslator TranslatorFactory.

(** The instance's [destroy] goes through. *)
Definition destroyable (instance : Translator) : bool :=
  bool_decide (doDestroy (adapter instance) = None).

(** What [destroyInstance(key)] leaves of the map of instances. *)
Definition destroy_one (key : jsstring) (i : list (jsstring * Translator))
  : list (jsstring * Translator) :=
  match JsMap.get key i with
  | Some instance => if destroyable instance then JsMap.delete key i else i
  | None => i
  end.

(** The entries that stay when the instances whose id [selected]
    holds of are destroyed. *)
Definition stays (selected : jsstring -> bool) (kv : jsstring * Translator)
  : bool :=
  negb (selected (fst kv) && destroyable (snd kv)).

(** The ids [unregisterTranslator(type)] takes for instances of
    [type]. *)
Definition named_after (type : TranslatorType) (key : jsstring) : bool :=
  Js.eqb (id_type key) (TranslatorType_value type).

End FactoryTerms.

(** Schedules: what may happen around a batch task while it runs. *)
Module ScheduleSpec.
Import BaseTranslator BatchTranslation BatchSpec.

(** The number of times the executor of [id] is resumed in a
    schedule. *)
Fixpoint resumptions (id : jsstring) (es : list Occurrence) : nat :=
  match es with
  | [] => 0
  | Resume id' :: r =>
      if Js.eqb id' id then S (resumptions id r) else resumptions id r
  | Cancel _ :: r => resumptions id r
  end.

(** The task [id] is not cancelled in a schedule. *)
Definition uncancelled (id : jsstring) (es : list Occurrence) : Prop :=
  Forall (fun e => e <> Cancel id) es.

(** [o] is what [translate] came to for [request], in some world. *)
Definition answered (inst : Translator) (request : TranslationRequest)
    (o : Outcome TranslationResponse) : Prop :=
  exists w w', translate inst request w = (o, w').

(** [r] is the result the loop pushes for the outcome [o] of the chunk
    [text]: the response itself, or the placeholder built in [catch]. *)
Definition pushed_for (task0 : BatchTranslationTask) (text : jsstring)
    (o : Outcome TranslationResponse) (r : TranslationResponse) : Prop :=
  match o with
  | Returned response => r = response
  | Threw e => exists w, r = placeholder task0 text e w
  end.

(** [task] is [task0] after its first chunks settled with the outcomes
    [os], in order. *)
Definition settled (inst : Translator) (task0 task : BatchTranslationTask)
    (os : list (Outcome TranslationResponse)) : Prop :=
  texts task = texts task0
  /\ task_from task = task_from task0
  /\ task_to task = task_to task0
  /\ task_translator task = task_translator task0
  /\ (length os <= length (texts task0))%nat
  /\ length (results task) = length os
  /\ (forall j text o,
        texts task0 !! j = Some text -> os !! j = Some o ->
        answered inst (chunk_request task0 text) o
        /\ exists r, results task !! j = Some r /\ pushed_for task0 text o r)
  /\ task_errors task = concat (chunk_errors <$> os)
  /\ progress task
     = match os with
       | [] => (0, 1)
       | _ :: _ => (Z.of_nat (length os) * 100,
                    Z.of_nat (length (texts task0)))
       end.

(** Where the executor of [id] stands, and how many resumptions it
    still needs to return. *)
Definition stage (inst : Translator) (task0 : BatchTranslationTask)
    (id : jsstring) (m : Machine) (need : nat) : Prop :=
  exists task os,
    JsMap.get id (batchTasks (sys m)) = Some task
    /\ settled inst task0 task os
    /\ match JsMap.get id (executors m) with
       | Some (AwaitCreate (Returned inst')) =>
           inst' = inst /\ os = [] /\ task_status task = task_running
           /\ need = S (length (texts task0))
       | Some (AwaitTranslate i inst' o) =>
           inst' = inst /\ i = length os /\ task_status task = task_running
           /\ (exists text, texts task0 !! i = Some text
                            /\ answered inst (chunk_request task0 text) o)
           /\ need = (length (texts task0) - i)%nat
       | Some Resolved =>
           length os = length (texts task0)
           /\ task_status task = task_completed /\ need = 0%nat
       | _ => False
       end.

End ScheduleSpec.


(* ================================================================== *)
(** ** The transport retries what is retryable, with backoff *)
(* ================================================================== *)

Module HttpFacts.

Import HttpUtils TransportSpec.

Lemma attempts_app tr1 tr2 :
  attempts (tr1 ++ tr2) = (attempts tr1 + attempts tr2)%nat.
Proof. induction tr1 as [|[]]; simpl; auto. Qed.









Lemma shouldRetry_abort message :
  shouldRetry (ErrorInstance (lit "AbortError") message) = true.
Proof. unfold shouldRetry. cbn. by destruct (includes _ _). Qed.

Lemma shouldRetry_network message :
  includes (lit "fetch") message = true ->
  shouldRetry (ErrorInstance (lit "TypeError") message) = true.
Proof.
  intros H. unfold shouldRetry. cbn [thrown_name thrown_message].
  rewrite H. reflexivity.
Qed.







End HttpFacts.


Module HttpClaims.

Import HttpUtils HttpFacts Fixtures TransportSpec.




End HttpClaims.


(* ================================================================== *)
(** ** The template validates before it calls the adapter *)
(* ================================================================== *)

Module BaseTranslatorFacts.

Import BaseTranslator TemplateSpec.

Lemma validateRequest_refuses t request :
  invalid_request t request -> is_Some (validateRequest t request).
Proof.
  unfold invalid_request, validateRequest, Js.eqb.
  intros H.
  destruct (truthy (req_text request)) eqn:Ht; cbn [negb orb]; [|eauto].
  destruct (ValidationUtils.validateText (req_text request)) eqn:Hv;
    cbn [negb]; [|eauto].
  destruct (truthy (req_sourceLang request)) eqn:Hs; cbn [negb orb]; [|eauto].
  destruct (ValidationUtils.validateLanguageCode (req_sourceLang request))
    eqn:Hvs; cbn [negb]; [|eauto].
  destruct (ValidationUtils.validateLanguageCode (req_targetLang request))
    eqn:Hvt; cbn [negb]; [|eauto].
  case_bool_decide as Heq; [eauto|].
  case_bool_decide as Hin1; cbn [negb]; [|eauto].
  case_bool_decide as Hin2; cbn [negb]; [|eauto].
  destruct H as [H|[H|[H|[H|[H|[H|H]]]]]]; try congruence; try done.
  rewrite H in Ht. discriminate.
Qed.

Lemma validateRequest_accepts t request :
  ~ invalid_request t request -> validateRequest t request = None.
Proof.
  unfold invalid_request, validateRequest, Js.eqb. intros H.
  destruct (truthy (req_text request)) eqn:Ht; cbn [negb orb].
  2:{ destruct (req_text request); [tauto|discriminate]. }
  destruct (ValidationUtils.validateText (req_text request)) eqn:Hv;
    cbn [negb]; [|tauto].
  destruct (ValidationUtils.validateLanguageCode (req_sourceLang request))
    eqn:Hvs; [|tauto].
  assert (truthy (req_sourceLang request) = true) as ->.
  { unfold ValidationUtils.validateLanguageCode in Hvs.
    by destruct (truthy (req_sourceLang request)). }
  cbn [negb orb].
  destruct (ValidationUtils.validateLanguageCode (req_targetLang request))
    eqn:Hvt; cbn [negb]; [|tauto].
  case_bool_decide as Heq; [tauto|].
  case_bool_decide as Hin1; cbn [negb]; [|tauto].
  case_bool_decide as Hin2; cbn [negb]; [done|tauto].
Qed.

(** What [translate] throws is never an instance of [Error]. *)
Lemma translate_throws_object t request w e w' :
  translate t request w = (Threw e, w') -> instanceof_Error e = false.
Proof.
  unfold translate. destruct (translate_try t request w) as [[r|e0] w1];
    intros H; inversion H; reflexivity.
Qed.

(** A response of [translate] is a success that echoes the request. *)
Lemma translate_returns t request w r w' :
  translate t request w = (Returned r, w') ->
  status r = success
  /\ originalText r = req_text request
  /\ sourceLang r = req_sourceLang request
  /\ targetLang r = req_targetLang request
  /\ error_msg r = None.
Proof.
  unfold translate, translate_try.
  destruct (isInitialized t); cbn [negb]; [|intros H; inversion H].
  destruct (validateRequest t request); [intros H; inversion H|].
  destruct (doTranslate _ _ _ _ _); intros H; inversion H. done.
Qed.

(** An accepted request reaches the adapter exactly once. *)
Lemma translate_calls_backend t request w :
  isInitialized t = true -> ~ invalid_request t request ->
  backend_calls (effects (snd (translate t request w)))
  = backend_calls (effects w)
    ++ [ {| bc_adapter := getType (adapter t);
            bc_text := preprocessText (req_text request);
            bc_from := req_sourceLang request;
            bc_to := req_targetLang request |} ].
Proof.
  intros Hi Hv. unfold translate, translate_try.
  rewrite Hi, (validateRequest_accepts _ _ Hv). cbn [negb].
  assert (Hlog : forall c l, backend_calls (l ++ [BackendCalled c])
                             = backend_calls l ++ [c]).
  { intros c l. induction l as [|[] l IH]; cbn; by rewrite ?IH. }
  destruct (doTranslate _ _ _ _ _); cbn [snd log effects]; apply Hlog.
Qed.

(** C7.  [translate] throws without calling the adapter's [doTranslate]
    when the translator is not initialized, when the text is empty or
    has no valid content, when a language code is not a member of the
    enumeration, when source and target are the same, and when a code is
    not among [getSupportedLanguages()]: the world, and with it the log
    of backend calls, is as before the call. *)
Theorem translate_fails_before_backend
    (t : Translator) (request : TranslationRequest) (w : World) :
  isInitialized t = false \/ invalid_request t request ->
  exists e, translate t request w = (Threw e, w)
            /\ backend_calls (effects (snd (translate t request w)))
               = backend_calls (effects w).
Proof.
  intros H. unfold translate, translate_try.
  destruct (isInitialized t) eqn:Hi; cbn [negb].
  - destruct H as [H|H]; [discriminate|].
    destruct (validateRequest_refuses _ _ H) as [e ->]. eauto.
  - eauto.
Qed.

(** A request for French, which the adapter does not list: refused
    with no backend call. *)
Lemma translate_fails_before_backend_witness :
  exists e,
    translate Fixtures.stub_instance Fixtures.french_request Fixtures.world0
    = (Threw e, Fixtures.world0)
    /\ backend_calls
         (effects (snd (translate Fixtures.stub_instance
                          Fixtures.french_request Fixtures.world0)))
       = [].
Proof.
  assert (Hbad : isInitialized Fixtures.stub_instance = false
                 \/ invalid_request Fixtures.stub_instance
                      Fixtures.french_request).
  { right. unfold invalid_request. do 6 right.
    apply (bool_decide_unpack _). vm_compute. exact I. }
  destruct (translate_fails_before_backend Fixtures.stub_instance
              Fixtures.french_request Fixtures.world0 Hbad) as (e & He & Hb).
  exists e. split; [exact He | exact Hb].
Defined.

End BaseTranslatorFacts.


(* ================================================================== *)
(** ** Facts about insertion-ordered maps *)
(* ================================================================== *)

Module JsMapFacts.

Section Facts.
Context {V : Type}.
Implicit Types (m : list (jsstring * V)) (k : jsstring) (v : V).

Lemma eqb_true a b : Js.eqb a b = true <-> a = b.
Proof. unfold Js.eqb. apply bool_decide_eq_true. Qed.

Lemma eqb_false a b : Js.eqb a b = false <-> a <> b.
Proof. unfold Js.eqb. apply bool_decide_eq_false. Qed.

Lemma eqb_refl a : Js.eqb a a = true.
Proof. by apply eqb_true. Qed.

Lemma get_set_eq k v m : JsMap.get k (JsMap.set k v m) = Some v.
Proof.
  induction m as [|[k' v'] m IH]; cbn.
  - by rewrite eqb_refl.
  - destruct (Js.eqb k k') eqn:E; cbn; rewrite E; [done | apply IH].
Qed.

Lemma get_set_ne k k' v m :
  k <> k' -> JsMap.get k' (JsMap.set k v m) = JsMap.get k' m.
Proof.
  intros Hne. induction m as [|[k0 v0] m IH]; cbn.
  - apply not_eq_sym, eqb_false in Hne. by rewrite Hne.
  - destruct (Js.eqb k k0) eqn:E; cbn.
    + apply eqb_true in E as <-.
      apply not_eq_sym, eqb_false in Hne. by rewrite Hne.
    + destruct (Js.eqb k' k0); [done | apply IH].
Qed.

Lemma get_delete_ne k k' m :
  k <> k' -> JsMap.get k' (JsMap.delete k m) = JsMap.get k' m.
Proof.
  intros Hne. induction m as [|[k0 v0] m IH]; cbn; [done|].
  destruct (Js.eqb k k0) eqn:E; cbn.
  - apply eqb_true in E as <-.
    apply not_eq_sym, eqb_false in Hne. by rewrite Hne.
  - destruct (Js.eqb k' k0); [done | apply IH].
Qed.

(** A new key goes last. *)
Lemma set_absent k v m :
  JsMap.get k m = None -> JsMap.set k v m = m ++ [(k, v)].
Proof.
  induction m as [|[k0 v0] m IH]; cbn; [done|].
  destruct (Js.eqb k k0); [discriminate|]. intros H. by rewrite IH.
Qed.

(** A known key keeps its place. *)
Lemma set_present_length k v v0 m :
  JsMap.get k m = Some v0 -> length (JsMap.set k v m) = length m.
Proof.
  induction m as [|[k1 v1] m IH]; cbn; [discriminate|].
  destruct (Js.eqb k k1); cbn; [done|]. intros H. by rewrite IH.
Qed.

Lemma set_keys_present k v v0 m :
  JsMap.get k m = Some v0 -> JsMap.keys (JsMap.set k v m) = JsMap.keys m.
Proof.
  unfold JsMap.keys.
  induction m as [|[k1 v1] m IH]; cbn; [discriminate|].
  destruct (Js.eqb k k1); cbn; [done|]. intros H. by rewrite IH.
Qed.

Lemma delete_head k v m : JsMap.delete k ((k, v) :: m) = m.
Proof. cbn. by rewrite eqb_refl. Qed.

Lemma get_app_absent k v m :
  JsMap.get k m = None -> JsMap.get k (m ++ [(k, v)]) = Some v.
Proof. intros H. rewrite <- set_absent by done. apply get_set_eq. Qed.

Lemma get_app_other k k' v v' m :
  JsMap.get k' m = Some v' -> JsMap.get k' (m ++ [(k, v)]) = Some v'.
Proof.
  induction m as [|[k1 v1] m IH]; cbn; [discriminate|].
  destruct (Js.eqb k' k1); [done | apply IH].
Qed.

Lemma get_alter_eq f k m :
  JsMap.get k (JsMap.alter f k m) = f <$> JsMap.get k m.
Proof.
  induction m as [|[k1 v1] m IH]; cbn; [done|].
  destruct (Js.eqb k k1) eqn:E; cbn; rewrite E; [done | apply IH].
Qed.

Lemma get_alter_ne f k k' m :
  k <> k' -> JsMap.get k' (JsMap.alter f k m) = JsMap.get k' m.
Proof.
  intros Hne. induction m as [|[k1 v1] m IH]; cbn; [done|].
  destruct (Js.eqb k k1) eqn:E; cbn.
  - apply eqb_true in E as <-.
    apply not_eq_sym, eqb_false in Hne. by rewrite Hne.
  - destruct (Js.eqb k' k1); [done | apply IH].
Qed.
End Facts.

End JsMapFacts.


(* ================================================================== *)
(** ** The factory *)
(* ================================================================== *)

Module FactoryFacts.

Import BaseTranslator TranslatorFactory JsMapFacts Fixtures FactorySpec.

(** An unknown type is refused, and nothing changes. *)
Lemma createTranslatorAsync_not_registered type config id s :
  translators (factory s) !! type = None ->
  createTranslatorAsync type config id s
  = (Threw (new_Error (lit "Translator type " ++ TranslatorType_value type
                         ++ lit " is not registered")), s).
Proof.
  intros H. unfold createTranslatorAsync, bind, get_state. cbn.
  by rewrite H.
Qed.

Lemma initialize_accepted reg config :
  validateConfig (reg_constructor reg config) config = true ->
  doInitialize (reg_constructor reg config) config = None ->
  initialize (construct (reg_constructor reg config) config) (Some config)
  = (new_instance reg config, None).
Proof.
  intros Hv Hi. unfold initialize, construct. cbn. by rewrite Hv, Hi.
Qed.

(** The validator's verdict is not consulted: for a registered type and
    a free id, a configuration the adapter accepts yields a stored,
    initialized instance, whether or not
    [ValidationUtils.validateConfig] finds it valid. *)
Lemma createTranslatorAsync_creates type config id s reg :
  translators (factory s) !! type = Some reg ->
  truthy id = true ->
  JsMap.get id (instances (factory s)) = None ->
  validateConfig (reg_constructor reg config) config = true ->
  doInitialize (reg_constructor reg config) config = None ->
  exists s',
    createTranslatorAsync type config (Some id) s
    = (Returned (new_instance reg config), s')
    /\ instances (factory s')
       = JsMap.set id (new_instance reg config) (instances (factory s))
    /\ translators (factory s') = translators (factory s).
Proof.
  intros Hreg Hid Hfree Hv Hi.
  unfold createTranslatorAsync, bind, get_state. cbn [fst snd].
  rewrite Hreg. cbn [object_truthy negb default from_option].
  unfold Datatypes.id. rewrite Hid.
  unfold ret at 1. cbn [fst snd].
  unfold JsMap.has. rewrite Hfree. unfold ret at 1.
  rewrite (initialize_accepted reg config Hv Hi).
  eexists. split; [reflexivity|]. split; reflexivity.
Qed.

(** An instance that occupies the id is destroyed first. *)
Lemma createTranslatorAsync_replaces type config id s reg old :
  translators (factory s) !! type = Some reg ->
  truthy id = true ->
  JsMap.get id (instances (factory s)) = Some old ->
  doDestroy (adapter old) = None ->
  validateConfig (reg_constructor reg config) config = true ->
  doInitialize (reg_constructor reg config) config = None ->
  exists s',
    createTranslatorAsync type config (Some id) s
    = (Returned (new_instance reg config), s')
    /\ instances (factory s')
       = JsMap.set id (new_instance reg config)
           (JsMap.delete id (instances (factory s))).
Proof.
  intros Hreg Hid Hold Hd Hv Hi.
  unfold createTranslatorAsync, bind, get_state. cbn [fst snd].
  rewrite Hreg. cbn [object_truthy negb default from_option].
  unfold Datatypes.id. rewrite Hid.
  unfold ret at 1. cbn [fst snd].
  unfold JsMap.has. rewrite Hold.
  unfold destroyInstance, bind, get_state. cbn [fst snd].
  rewrite Hold. unfold destroy. rewrite Hd. cbn [snd].
  unfold modify at 1. cbn [fst snd].
  rewrite (initialize_accepted reg config Hv Hi).
  eexists. split; reflexivity.
Qed.

(** A failing [destroy] of the old instance, or a failing [initialize]
    of the new one, is rethrown. *)
Lemma createTranslatorAsync_initialize_fails type config id s reg :
  translators (factory s) !! type = Some reg ->
  truthy id = true ->
  JsMap.get id (instances (factory s)) = None ->
  validateConfig (reg_constructor reg config) config = false ->
  createTranslatorAsync type config (Some id) s
  = (Threw (new_Error (lit "Configuration validation failed")), s).
Proof.
  intros Hreg Hid Hfree Hv.
  unfold createTranslatorAsync, bind, get_state. cbn [fst snd].
  rewrite Hreg. cbn [object_truthy negb default from_option].
  unfold Datatypes.id. rewrite Hid.
  unfold ret at 1. cbn [fst snd].
  unfold JsMap.has. rewrite Hfree. unfold ret at 1.
  unfold initialize, construct. cbn. by rewrite Hv.
Qed.

(** C6, at a registered type with a configuration that the
    configuration validator rejects.  [validateConfig] returns an object
    whose [valid] is [false]; the object is truthy, so the guard of the
    [InvalidConfig] error is never taken, and the call constructs,
    initializes, stores and returns the instance. *)
Theorem createTranslatorAsync_accepts_invalid_config :
  ValidationUtils.valid
    (ValidationUtils.validateConfig (merged_config openai_config OPENAI))
  = false
  /\ length (ValidationUtils.errors
               (ValidationUtils.validateConfig
                  (merged_config openai_config OPENAI))) = 3%nat
  /\ exists inst s',
       createTranslatorAsync OPENAI openai_config (Some (lit "main")) sys0
       = (Returned inst, s')
       /\ isInitialized inst = true
       /\ JsMap.get (lit "main") (instances (factory s')) = Some inst.
Proof.
  split; [reflexivity|]. split; [reflexivity|].
  destruct (createTranslatorAsync_creates OPENAI openai_config (lit "main")
              sys0 openai_registration)
    as (s' & Heq & Hinst & _); try reflexivity.
  exists (new_instance openai_registration openai_config), s'.
  split; [exact Heq|]. split; [reflexivity|].
  rewrite Hinst. apply get_set_eq.
Qed.

End FactoryFacts.


(* ================================================================== *)
(** ** The translation cache *)
(* ================================================================== *)

Module CacheFacts.

Import ContentTranslationService JsMapFacts BaseTranslator ServiceSpec.

Implicit Types (c : list (jsstring * TranslationCacheItem))
  (h : jsstring) (item : TranslationCacheItem).

Lemma maxCacheSize_value : maxCacheSize = 1000%nat.
Proof. reflexivity. Qed.

Lemma maxCacheSize_pos : (0 < maxCacheSize)%nat.
Proof. rewrite maxCacheSize_value. lia. Qed.

#[local] Opaque maxCacheSize.

(** Linear arithmetic with the cap kept abstract. *)
Ltac cap_lia :=
  pose proof maxCacheSize_pos;
  generalize dependent maxCacheSize; intros; lia.

(** A new fingerprint with room left: appended. *)
Lemma cache_put_room h item c :
  JsMap.get h c = None -> (length c < maxCacheSize)%nat ->
  cache_put h item c = c ++ [(h, item)].
Proof.
  intros Hn Hl. unfold cache_put, JsMap.size.
  rewrite set_absent by done. rewrite length_app. cbn [length].
  case_bool_decide; [cap_lia | done].
Qed.

(** A new fingerprint in a full cache: the entry inserted first goes. *)
Lemma cache_put_full h item c :
  JsMap.get h c = None -> (maxCacheSize <= length c)%nat ->
  cache_put h item c = drop 1 c ++ [(h, item)].
Proof.
  intros Hn Hl. unfold cache_put, JsMap.size.
  rewrite set_absent by done. rewrite length_app. cbn [length].
  case_bool_decide; [|cap_lia].
  destruct c as [|[k0 v0] c]; [cbn in *; cap_lia|].
  cbn [app JsMap.first_key]. by rewrite delete_head.
Qed.

(** A known fingerprint: the item is replaced where it is. *)
Lemma cache_put_known h item item0 c :
  JsMap.get h c = Some item0 -> (length c <= maxCacheSize)%nat ->
  cache_put h item c = JsMap.set h item c.
Proof.
  intros Hs Hl. unfold cache_put, JsMap.size.
  rewrite (set_present_length _ _ _ _ Hs).
  case_bool_decide; [cap_lia | done].
Qed.

Lemma cache_put_bound h item c :
  (length c <= maxCacheSize)%nat ->
  (length (cache_put h item c) <= maxCacheSize)%nat.
Proof.
  intros Hl. destruct (JsMap.get h c) as [item0|] eqn:Hg.
  - rewrite (cache_put_known _ _ _ _ Hg Hl).
    by rewrite (set_present_length _ _ _ _ Hg).
  - destruct (decide (length c < maxCacheSize)%nat).
    + rewrite cache_put_room by done. rewrite length_app. cbn. cap_lia.
    + rewrite cache_put_full by (done || cap_lia).
      rewrite length_app, length_drop. cbn. cap_lia.
Qed.

(** A fingerprint that missed is found after the write, whatever the
    size of the cache. *)
Lemma cache_put_get_new h item c :
  JsMap.get h c = None -> JsMap.get h (cache_put h item c) = Some item.
Proof.
  intros Hn. destruct (decide (length c < maxCacheSize)%nat).
  - rewrite cache_put_room by done. by apply get_app_absent.
  - rewrite cache_put_full by (done || cap_lia).
    apply get_app_absent.
    destruct c as [|[k0 v0] c]; [done|]. cbn in Hn |- *.
    rewrite drop_0. by destruct (Js.eqb h k0).
Qed.

Lemma cache_put_get h item c :
  (length c <= maxCacheSize)%nat ->
  JsMap.get h (cache_put h item c) = Some item.
Proof.
  intros Hl. destruct (JsMap.get h c) as [item0|] eqn:Hg.
  - rewrite (cache_put_known _ _ _ _ Hg Hl). apply get_set_eq.
  - by apply cache_put_get_new.
Qed.

(** The write of a new fingerprint keeps every entry but, in a full
    cache, the oldest. *)
Lemma cache_put_keeps h item c k v :
  JsMap.get h c = None -> JsMap.get k c = Some v ->
  (length c < maxCacheSize)%nat \/ JsMap.first_key c <> Some k ->
  JsMap.get k (cache_put h item c) = Some v.
Proof.
  intros Hn Hk Hor. destruct (decide (length c < maxCacheSize)%nat).
  - rewrite cache_put_room by done. by apply get_app_other.
  - destruct Hor as [?|Hfirst]; [done|].
    rewrite cache_put_full by (done || cap_lia).
    apply get_app_other.
    destruct c as [|[k0 v0] c]; [done|]. cbn in Hk, Hfirst |- *.
    rewrite drop_0. destruct (Js.eqb k k0) eqn:E; [|done].
    apply eqb_true in E. congruence.
Qed.

Lemma cacheTranslation_cache text response tr s :
  translationCache (snd (cacheTranslation text response tr s))
  = cache_put (generateTextHash text (sourceLang response)
                 (targetLang response) tr)
      (item_of text response tr s) (translationCache s).
Proof. reflexivity. Qed.

Lemma getCachedTranslation_cache text sl tl tr s :
  translationCache (snd (getCachedTranslation text sl tl tr s))
  = translationCache s
  /\ fst (getCachedTranslation text sl tl tr s)
     = Returned (JsMap.get (generateTextHash text sl tl tr) (translationCache s)).
Proof. split; reflexivity. Qed.

(** C8.  The cache is bounded, and it evicts in insertion order.  From
    a cache of at most 1000 entries [cacheTranslation] leaves at most
    1000, with the new item stored.  A new fingerprint goes last; when
    the cache is full the first entry, the one inserted before all
    others, is dropped.  A known fingerprint keeps its place and nothing
    is dropped.  A lookup leaves the cache, and so its order, as it
    is. *)
Theorem cache_bounded_insertion_order
    (s : Sys) (text : jsstring) (response : TranslationResponse)
    (tr : TranslatorType) :
  let h := generateTextHash text (sourceLang response) (targetLang response) tr in
  let item := item_of text response tr s in
  let c := translationCache s in
  let c' := translationCache (snd (cacheTranslation text response tr s)) in
  (length c <= 1000)%nat ->
  (length c' <= 1000)%nat
  /\ JsMap.get h c' = Some item
  /\ (JsMap.get h c = None -> (length c < 1000)%nat -> c' = c ++ [(h, item)])
  /\ (JsMap.get h c = None -> length c = 1000%nat ->
      exists oldest rest, c = oldest :: rest /\ c' = rest ++ [(h, item)])
  /\ (is_Some (JsMap.get h c) ->
      JsMap.keys c' = JsMap.keys c /\ length c' = length c)
  /\ (forall text' sl tl tr',
        translationCache (snd (getCachedTranslation text' sl tl tr' s)) = c).
Proof.
  intros h item c c'. rewrite <- maxCacheSize_value. intros Hl.
  subst c'. rewrite cacheTranslation_cache. fold h item c.
  split; [by apply cache_put_bound|].
  split; [by apply cache_put_get|].
  split; [intros; by apply cache_put_room|].
  split.
  { intros Hn Heq. rewrite cache_put_full by (done || cap_lia).
    destruct c as [|oldest rest] eqn:Hc.
    - rewrite maxCacheSize_value in Heq. discriminate.
    - exists oldest, rest. split; reflexivity. }
  split; [|done].
  intros [item0 Hs]. rewrite (cache_put_known _ _ _ _ Hs Hl).
  split; [by eapply set_keys_present | by eapply set_present_length].
Qed.

(** A write into the full cache: the cap holds, the entry inserted
    first is gone and the new one is last. *)
Lemma cache_bounded_insertion_order_witness :
  let s := Fixtures.sys_full in
  let h := generateTextHash (lit "Hello") LanguageCode.AUTO
             LanguageCode.ZH_CN OPENAI in
  let c' := translationCache
              (snd (cacheTranslation (lit "Hello") Fixtures.hello_response
                      OPENAI s)) in
  (length (translationCache s) <= 1000)%nat
  /\ (length c' <= 1000)%nat
  /\ JsMap.first_key (translationCache s) = Some (lit "k0")
  /\ c' = drop 1 (translationCache s)
          ++ [(h, item_of (lit "Hello") Fixtures.hello_response OPENAI s)].
Proof.
  intros s h c'.
  assert (Hl : (length (translationCache s) <= 1000)%nat).
  { apply Nat.leb_le. vm_compute. reflexivity. }
  destruct (cache_bounded_insertion_order s (lit "Hello")
              Fixtures.hello_response OPENAI Hl)
    as (Hb & _ & _ & Hfull & _).
  split; [exact Hl|]. split; [exact Hb|].
  split; [vm_compute; reflexivity|].
  destruct Hfull as (oldest & rest & Hc & Hc').
  - vm_compute. reflexivity.
  - vm_compute. reflexivity.
  - subst c'. rewrite Hc', Hc. reflexivity.
Defined.

End CacheFacts.


(* ================================================================== *)
(** ** The single-shot pipeline *)
(* ================================================================== *)

Module ServiceFacts.

Import BaseTranslator ContentTranslationService JsMapFacts CacheFacts
  BaseTranslatorFacts TemplateSpec ServiceSpec.

#[local] Opaque lit of_Z TranslatorType_value LanguageCode.AUTO
  generateTextHash ValidationUtils.sanitizeHtml
  ValidationUtils.validateConfig.

Lemma same_service_refl s : same_service s s.
Proof. by repeat split. Qed.

Lemma same_service_trans s1 s2 s3 :
  same_service s1 s2 -> same_service s2 s3 -> same_service s1 s3.
Proof.
  intros (?&?&?&?&?) (?&?&?&?&?). repeat split; congruence.
Qed.

Lemma same_service_world w s : same_service s (set_world w s).
Proof. by repeat split. Qed.

Lemma same_service_factory f s : same_service s (set_factory f s).
Proof. by repeat split. Qed.

Create HintDb frame.
#[local] Hint Resolve same_service_refl same_service_world
  same_service_factory : frame.

(** The factory touches the factory and the world only. *)
Lemma destroyInstance_frame id s :
  same_service s (snd (TranslatorFactory.destroyInstance id s)).
Proof.
  unfold TranslatorFactory.destroyInstance, bind, get_state. cbn.
  destruct (JsMap.get id (instances (factory s))) as [i|]; cbn; auto with frame.
  destruct (snd (destroy i)); cbn; auto with frame.
  apply same_service_factory.
Qed.

Lemma destroyInstance_effects id s :
  world (snd (TranslatorFactory.destroyInstance id s)) = world s.
Proof.
  unfold TranslatorFactory.destroyInstance, bind, get_state. cbn.
  destruct (JsMap.get id (instances (factory s))) as [i|]; cbn; auto.
  destruct (snd (destroy i)); cbn; auto.
Qed.

Lemma createTranslatorAsync_frame type config id s :
  same_service s
    (snd (TranslatorFactory.createTranslatorAsync type config id s)).
Proof.
  unfold TranslatorFactory.createTranslatorAsync, bind, get_state. cbn.
  destruct (translators (factory s) !! type) as [reg|]; cbn; auto with frame.
  set (gen := if truthy (default [] id) then _ else _).
  assert (Hgen : same_service s (snd (gen s))).
  { subst gen. destruct (truthy (default [] id)); cbn; auto with frame. }
  destruct (gen s) as [[i|e] s1]; cbn in *; [|done].
  set (d := if JsMap.has i (instances (factory s1)) then _ else _).
  assert (Hd : same_service s1 (snd (d s1))).
  { subst d. destruct (JsMap.has i (instances (factory s1))); cbn;
      [apply destroyInstance_frame | apply same_service_refl]. }
  destruct (d s1) as [[[]|e] s2]; cbn in *;
    [|by eapply same_service_trans].
  destruct (initialize _ _) as [inst' [e|]]; cbn;
    [by eapply same_service_trans|].
  eapply same_service_trans; [exact Hgen|].
  eapply same_service_trans; [exact Hd|].
  by repeat split.
Qed.

(** A hit: the response comes from the item, and the only effect is the
    lookup. *)
Lemma translateText_hit request s item :
  svc_isInitialized s = true ->
  enableCache (advanced (settings s)) = true ->
  JsMap.get (fingerprint s request) (translationCache s) = Some item ->
  translateText request s
  = (Returned (response_of_item item (now (world s))),
     set_world (log (CacheLookup (fingerprint s request)) (world s)) s).
Proof.
  intros Hi Hc Hg.
  unfold translateText, try_catch, translateText_try, bind, get_state.
  cbn. rewrite Hi, Hc. cbn.
  unfold fingerprint in Hg. rewrite Hg. reflexivity.
Qed.

Lemma after_miss_path request s :
  svc_isInitialized s = true ->
  (enableCache (advanced (settings s)) = true ->
   JsMap.get (fingerprint s request) (translationCache s) = None) ->
  path request s (after_miss request s (after_lookup s request)).
Proof.
  intros Hi Hmiss. unfold after_miss.
  set (tr := default (defaultTranslator (settings s)) (req_translator request)).
  destruct (translators_cfg (settings s) tr) as [c|] eqn:Hcfg;
    [|by apply path_unconfigured].
  unfold bind at 1.
  destruct (TranslatorFactory.createTranslatorAsync _ _ _ _)
    as [[inst|e] s1] eqn:Hcreate; [|by eapply path_no_instance].
  cbn [TranslatorFactory.object_truthy negb].
  unfold bind at 1, lift_world.
  destruct (translate inst (backend_request s request) (world s1))
    as [[response|e] w] eqn:Htr; [|by eapply path_backend_failed].
  pose proof (path_translated request s c inst s1 response w
                Hi Hmiss Hcfg Hcreate Htr) as Hp.
  unfold write_through in Hp. fold tr in Hp.
  unfold bind, ret.
  destruct (enableCache (advanced (settings s))
            && bool_decide (status response = success)); exact Hp.
Qed.

(** The body of [translateText] is a lookup, when caching is on,
    followed on a miss by [after_miss]. *)
Lemma translateText_try_unfold request s :
  translateText_try request s
  = if negb (svc_isInitialized s)
    then (Threw (new_Error (lit "Service not initialized")), s)
    else if enableCache (advanced (settings s)) then
      match JsMap.get (fingerprint s request) (translationCache s) with
      | Some item =>
          (Returned (response_of_item item (now (world s))),
           after_lookup s request)
      | None => after_miss request s (after_lookup s request)
      end
    else after_miss request s (after_lookup s request).
Proof.
  unfold translateText_try, after_miss, bind, get_state, after_lookup.
  cbn [fst snd].
  destruct (svc_isInitialized s); cbn [negb]; [|reflexivity].
  destruct (enableCache (advanced (settings s))).
  - unfold getCachedTranslation, bind, log_effect, modify, get_state, ret.
    cbn [fst snd translationCache set_world]. unfold fingerprint.
    destruct (JsMap.get _ (translationCache s)); reflexivity.
  - reflexivity.
Qed.

(** The body of [translateText] takes one of the paths. *)
Lemma translateText_try_path request s :
  path request s (translateText_try request s).
Proof.
  rewrite translateText_try_unfold.
  destruct (svc_isInitialized s) eqn:Hi; cbn [negb];
    [|by apply path_uninitialized].
  destruct (enableCache (advanced (settings s))) eqn:Hc.
  - destruct (JsMap.get (fingerprint s request) (translationCache s))
      as [item|] eqn:Hg.
    + by apply path_hit.
    + apply after_miss_path; [done|]. by rewrite Hc.
  - apply after_miss_path; [done|]. rewrite Hc. discriminate.
Qed.

(** [translateText] returns what its body returns, and the response of
    [catch] when the body throws; the state is the one the body left. *)
Lemma translateText_unfold request s :
  translateText request s
  = match translateText_try request s with
    | (Returned r, s1) => (Returned r, s1)
    | (Threw e, s1) => (Returned (caught_response request e s1), s1)
    end.
Proof.
  unfold translateText, try_catch.
  destruct (translateText_try request s) as [[r|e] s1]; reflexivity.
Qed.

(** [translateText] never throws. *)
Lemma translateText_returns request s :
  exists r, fst (translateText request s) = Returned r.
Proof.
  rewrite translateText_unfold.
  destruct (translateText_try request s) as [[r|e] s1]; eauto.
Qed.

(** On a failure of the body the response has status [error], echoes
    the text and the target language of the request, and its source
    language or [auto] when that is empty; its [error] is the message
    of an instance of [Error], and ["Unknown error"] for anything else. *)
Lemma translateText_failure request s e s1 :
  translateText_try request s = (Threw e, s1) ->
  exists r,
    translateText request s = (Returned r, s1)
    /\ status r = error
    /\ originalText r = req_text request
    /\ sourceLang r = or_else (req_sourceLang request) LanguageCode.AUTO
    /\ targetLang r = req_targetLang request
    /\ error_msg r = Some (if instanceof_Error e then thrown_message e
                           else lit "Unknown error").
Proof.
  intros H. rewrite translateText_unfold, H. eexists. by repeat split.
Qed.

(** A failure of the translator's [translate] reaches the caller as
    ["Unknown error"]. *)
Lemma translateText_backend_failure request s inst e w w' :
  translate inst (backend_request s request) w = (Threw e, w') ->
  error_msg (caught_response request e s) = Some (lit "Unknown error").
Proof.
  intros H. apply translate_throws_object in H.
  unfold caught_response. cbn. by rewrite H.
Qed.

Lemma addToHistory_spec response tr s :
  addToHistory response tr s
  = (Returned tt,
     set_history
       (history_push (history_item (entropy (world s) (draws (world s)))
                        response tr)
          (translationHistory s))
       (set_world
          (log (HistoryAppended (entropy (world s) (draws (world s))))
             (snd (draw (world s))))
          s)).
Proof. reflexivity. Qed.

Lemma cacheTranslation_spec text response tr s :
  cacheTranslation text response tr s
  = (Returned tt,
     set_cache
       (cache_put (generateTextHash text (sourceLang response)
                     (targetLang response) tr)
          (item_of text response tr s) (translationCache s))
       (set_world
          (log (CacheWrite (generateTextHash text (sourceLang response)
                              (targetLang response) tr))
             (world s))
          s)).
Proof. reflexivity. Qed.

(** What a lookup leaves. *)
Lemma after_lookup_frame s request : same_service s (after_lookup s request).
Proof. unfold after_lookup. destruct (enableCache _); auto with frame. Qed.

Lemma after_lookup_factory s request :
  factory (after_lookup s request) = factory s.
Proof. unfold after_lookup. by destruct (enableCache _). Qed.

(** The fields after the write-through. *)
Lemma write_through_cache s request response s1 :
  translationCache (write_through s request response s1)
  = if enableCache (advanced (settings s))
       && bool_decide (status response = success)
    then cache_put
           (generateTextHash (req_text request) (sourceLang response)
              (targetLang response)
              (default (defaultTranslator (settings s)) (req_translator request)))
           (item_of (req_text request) response
              (default (defaultTranslator (settings s)) (req_translator request))
              s1)
           (translationCache s1)
    else translationCache s1.
Proof.
  unfold write_through. rewrite addToHistory_spec. cbn [snd].
  destruct (enableCache _ && _); [rewrite cacheTranslation_spec|]; reflexivity.
Qed.

Lemma write_through_history s request response s1 :
  exists id,
    translationHistory (write_through s request response s1)
    = history_push
        (history_item id response
           (default (defaultTranslator (settings s)) (req_translator request)))
        (translationHistory s1).
Proof.
  unfold write_through. rewrite addToHistory_spec. cbn [snd].
  destruct (enableCache _ && _); [rewrite cacheTranslation_spec|];
    eexists; reflexivity.
Qed.

Lemma write_through_rest s request response s1 :
  svc_isInitialized (write_through s request response s1) = svc_isInitialized s1
  /\ settings (write_through s request response s1) = settings s1
  /\ factory (write_through s request response s1) = factory s1
  /\ batchTasks (write_through s request response s1) = batchTasks s1.
Proof.
  unfold write_through. rewrite addToHistory_spec. cbn [snd].
  destruct (enableCache _ && _); [rewrite cacheTranslation_spec|];
    repeat split.
Qed.

(** The fingerprint written is the fingerprint looked up. *)
Lemma written_fingerprint s request inst w response w' :
  translate inst (backend_request s request) w = (Returned response, w') ->
  generateTextHash (req_text request) (sourceLang response)
    (targetLang response)
    (default (defaultTranslator (settings s)) (req_translator request))
  = fingerprint s request.
Proof.
  intros H. apply translate_returns in H as (_ & _ & -> & -> & _).
  reflexivity.
Qed.

(** Every path leaves the settings and the initialization flag. *)
Lemma path_frame request s o s1 :
  path request s (o, s1) ->
  svc_isInitialized s1 = svc_isInitialized s /\ settings s1 = settings s.
Proof.
  assert (Hc : forall tr c id s2,
    snd (TranslatorFactory.createTranslatorAsync tr c id (after_lookup s request))
    = s2 ->
    svc_isInitialized s2 = svc_isInitialized s /\ settings s2 = settings s).
  { intros tr c id s2 <-.
    destruct (createTranslatorAsync_frame tr c id (after_lookup s request))
      as (-> & -> & _).
    by destruct (after_lookup_frame s request) as (-> & -> & _). }
  intros Hp.
  inversion Hp
    as [ ? | item ? ? ?
       | ? ? ?
       | c e s2 ? ? ? Hcreate
       | c inst s2 e w ? ? ? Hcreate Htr
       | c inst s2 response w ? ? ? Hcreate Htr ]; subst.
  - done.
  - by destruct (after_lookup_frame s request) as (-> & -> & _).
  - by destruct (after_lookup_frame s request) as (-> & -> & _).
  - eapply Hc. by erewrite Hcreate.
  - cbn [svc_isInitialized settings set_world].
    eapply Hc. by erewrite Hcreate.
  - destruct (write_through_rest s request response (set_world w s2))
      as (-> & -> & _).
    cbn [svc_isInitialized settings set_world].
    eapply Hc. by erewrite Hcreate.
Qed.

(** The cache after a miss that was translated: the old one with the
    new item under the fingerprint of the request. *)
Lemma translated_cache request s c inst s1 response w :
  TranslatorFactory.createTranslatorAsync
    (default (defaultTranslator (settings s)) (req_translator request))
    c None (after_lookup s request) = (Returned inst, s1) ->
  translate inst (backend_request s request) (world s1)
  = (Returned response, w) ->
  translationCache (write_through s request response (set_world w s1))
  = if enableCache (advanced (settings s))
    then cache_put (fingerprint s request)
           (item_of (req_text request) response
              (default (defaultTranslator (settings s)) (req_translator request))
              (set_world w s1))
           (translationCache s)
    else translationCache s.
Proof.
  intros Hcreate Htr. rewrite write_through_cache.
  pose proof (translate_returns _ _ _ _ _ Htr) as (-> & _).
  rewrite bool_decide_eq_true_2, andb_true_r by done.
  rewrite (written_fingerprint _ _ _ _ _ _ Htr).
  cbn [translationCache set_world].
  pose proof (createTranslatorAsync_frame
                (default (defaultTranslator (settings s)) (req_translator request))
                c None (after_lookup s request)) as (_ & _ & Hcache & _).
  rewrite Hcreate in Hcache. cbn [snd] in Hcache. rewrite Hcache.
  by destruct (after_lookup_frame s request) as (_ & _ & -> & _).
Qed.

(** With caching on, a successful call leaves the service initialized,
    with the same settings and with an item under the fingerprint of the
    request that holds the translation it returned. *)
Lemma success_is_cached request s r1 s1 :
  enableCache (advanced (settings s)) = true ->
  translateText request s = (Returned r1, s1) ->
  status r1 = success ->
  svc_isInitialized s1 = true
  /\ settings s1 = settings s
  /\ exists item,
       JsMap.get (fingerprint s request) (translationCache s1) = Some item
       /\ ci_translatedText item = translatedText r1.
Proof.
  intros Hc Heq Hs. rewrite translateText_unfold in Heq.
  pose proof (translateText_try_path request s) as Hp.
  destruct (translateText_try request s) as [[r|e] s'].
  2:{ inversion Heq; subst. discriminate. }
  inversion Heq; subst r s'. clear Heq.
  destruct (path_frame _ _ _ _ Hp) as [Hi' Hs'].
  inversion Hp
    as [ | item Hi ? Hg | | |
       | c inst s2 response w Hi Hmiss ? Hcreate Htr ]; subst.
  - split; [congruence|]. split; [done|].
    exists item. split; [|done].
    by destruct (after_lookup_frame s request) as (_ & _ & -> & _).
  - split; [congruence|]. split; [done|].
    erewrite translated_cache by eassumption. rewrite Hc.
    eexists. split; [apply cache_put_get_new; auto|]. reflexivity.
Qed.

(** The cache effects of a log that grows by other effects. *)
Lemma cache_effects_log e w :
  is_cache_effect e = false ->
  cache_effects (effects (log e w)) = cache_effects (effects w).
Proof.
  intros He. unfold cache_effects. cbn [log effects].
  rewrite List.filter_app. cbn. rewrite He. apply app_nil_r.
Qed.

Lemma translate_cache_effects inst request w :
  cache_effects (effects (snd (translate inst request w)))
  = cache_effects (effects w).
Proof.
  unfold translate, translate_try.
  destruct (isInitialized inst); cbn [negb]; [|done].
  destruct (validateRequest inst request); [done|].
  destruct (doTranslate _ _ _ _ _); cbn [snd]; by apply cache_effects_log.
Qed.

Lemma destroyInstance_world id s :
  world (snd (TranslatorFactory.destroyInstance id s)) = world s.
Proof. apply destroyInstance_effects. Qed.

Lemma createTranslatorAsync_cache_effects type config id s :
  cache_effects
    (effects (world (snd (TranslatorFactory.createTranslatorAsync
                            type config id s))))
  = cache_effects (effects (world s)).
Proof.
  unfold TranslatorFactory.createTranslatorAsync, bind, get_state. cbn.
  destruct (translators (factory s) !! type) as [reg|]; cbn; [|done].
  set (gen := if truthy (default [] id) then _ else _).
  assert (Hgen : cache_effects (effects (world (snd (gen s))))
                 = cache_effects (effects (world s))).
  { subst gen. by destruct (truthy (default [] id)). }
  destruct (gen s) as [[i|e] s1]; cbn in *; [|done].
  set (d := if JsMap.has i (instances (factory s1)) then _ else _).
  assert (Hd : world (snd (d s1)) = world s1).
  { subst d. destruct (JsMap.has i (instances (factory s1))); cbn;
      [apply destroyInstance_world | done]. }
  destruct (d s1) as [[[]|e] s2]; cbn in *; [|by rewrite Hd].
  destruct (initialize _ _) as [inst' [e|]]; cbn; [by rewrite Hd|].
  rewrite Hd. unfold cache_effects. rewrite List.filter_app. cbn.
  rewrite app_nil_r. exact Hgen.
Qed.

(** With caching off no path looks the cache up or writes it. *)
Lemma path_no_cache_effects request s o s1 :
  enableCache (advanced (settings s)) = false ->
  path request s (o, s1) ->
  cache_effects (effects (world s1)) = cache_effects (effects (world s))
  /\ translationCache s1 = translationCache s.
Proof.
  intros Hoff Hp.
  assert (Hl : after_lookup s request = s).
  { unfold after_lookup. by rewrite Hoff. }
  assert (Hc : forall tr c id o2 s2,
    TranslatorFactory.createTranslatorAsync tr c id s = (o2, s2) ->
    cache_effects (effects (world s2)) = cache_effects (effects (world s))
    /\ translationCache s2 = translationCache s).
  { intros tr c id o2 s2 Heq.
    pose proof (createTranslatorAsync_cache_effects tr c id s) as H1.
    pose proof (createTranslatorAsync_frame tr c id s) as (_ & _ & H2 & _).
    rewrite Heq in H1, H2. by split. }
  inversion Hp
    as [ ? | item ? Hon ?
       | ? ? ?
       | c e s2 ? ? ? Hcreate
       | c inst s2 e w ? ? ? Hcreate Htr
       | c inst s2 response w ? ? ? Hcreate Htr ]; subst;
    rewrite ?Hl in *.
  - done.
  - congruence.
  - done.
  - eapply Hc; eassumption.
  - destruct (Hc _ _ _ _ _ Hcreate) as [Hce Hca].
    cbn [world translationCache set_world]. split; [|done].
    pose proof (translate_cache_effects inst (backend_request s request)
                  (world s2)) as Htc.
    rewrite Htr in Htc. cbn [snd] in Htc. congruence.
  - destruct (Hc _ _ _ _ _ Hcreate) as [Hce Hca].
    pose proof (translate_cache_effects inst (backend_request s request)
                  (world s2)) as Htc.
    rewrite Htr in Htc. cbn [snd] in Htc.
    rewrite write_through_cache, Hoff. cbn [andb translationCache set_world].
    split; [|done].
    unfold write_through. rewrite Hoff. cbn [andb].
    rewrite addToHistory_spec. cbn [snd world set_history set_world].
    rewrite cache_effects_log by done. cbn [draw snd effects]. congruence.
Qed.

(** The history grows exactly on the path that was translated. *)
Lemma path_history request s o s1 :
  path request s (o, s1) ->
  match o with
  | Returned r =>
      (enableCache (advanced (settings s)) = true
       /\ is_Some (JsMap.get (fingerprint s request) (translationCache s))
       /\ translationHistory s1 = translationHistory s)
      \/ (exists id,
            translationHistory s1
            = history_push
                (history_item id r
                   (default (defaultTranslator (settings s))
                      (req_translator request)))
                (translationHistory s))
  | Threw _ => translationHistory s1 = translationHistory s
  end.
Proof.
  intros Hp.
  assert (Hc : forall tr c id o2 s2,
    TranslatorFactory.createTranslatorAsync tr c id (after_lookup s request)
    = (o2, s2) ->
    translationHistory s2 = translationHistory s).
  { intros tr c id o2 s2 Heq.
    pose proof (createTranslatorAsync_frame tr c id (after_lookup s request))
      as (_ & _ & _ & H2 & _).
    rewrite Heq in H2. cbn [snd] in H2. rewrite H2.
    by destruct (after_lookup_frame s request) as (_ & _ & _ & -> & _). }
  inversion Hp
    as [ ? | item ? Hon Hg
       | ? ? ?
       | c e s2 ? ? ? Hcreate
       | c inst s2 e w ? ? ? Hcreate Htr
       | c inst s2 response w ? ? ? Hcreate Htr ]; subst.
  - done.
  - left. split; [done|]. split; [by rewrite Hg|].
    by destruct (after_lookup_frame s request) as (_ & _ & _ & -> & _).
  - by destruct (after_lookup_frame s request) as (_ & _ & _ & -> & _).
  - eapply Hc; eassumption.
  - cbn [translationHistory set_world]. eapply Hc; eassumption.
  - right.
    destruct (write_through_history s request response (set_world w s2))
      as [id ->].
    exists id. cbn [translationHistory set_world].
    by erewrite Hc by eassumption.
Qed.

(** A call keeps every cache entry, except that a write into a full
    cache drops the oldest. *)
Lemma path_cache_keeps request s o s1 k item :
  path request s (o, s1) ->
  JsMap.get k (translationCache s) = Some item ->
  JsMap.get k (translationCache s1) = Some item
  \/ (JsMap.first_key (translationCache s) = Some k
      /\ (maxCacheSize <= length (translationCache s))%nat).
Proof.
  intros Hp Hk.
  assert (Hc : forall tr c id o2 s2,
    TranslatorFactory.createTranslatorAsync tr c id (after_lookup s request)
    = (o2, s2) ->
    translationCache s2 = translationCache s).
  { intros tr c id o2 s2 Heq.
    pose proof (createTranslatorAsync_frame tr c id (after_lookup s request))
      as (_ & _ & H2 & _).
    rewrite Heq in H2. cbn [snd] in H2. rewrite H2.
    by destruct (after_lookup_frame s request) as (_ & _ & -> & _). }
  inversion Hp
    as [ ? | item' ? Hon Hg
       | ? ? ?
       | c e s2 ? ? ? Hcreate
       | c inst s2 e w ? ? ? Hcreate Htr
       | c inst s2 response w ? Hmiss ? Hcreate Htr ]; subst.
  - by left.
  - left. by destruct (after_lookup_frame s request) as (_ & _ & -> & _).
  - left. by destruct (after_lookup_frame s request) as (_ & _ & -> & _).
  - left. by erewrite Hc by eassumption.
  - left. cbn [translationCache set_world]. by erewrite Hc by eassumption.
  - erewrite translated_cache by eassumption.
    destruct (enableCache (advanced (settings s))) eqn:Hon; [|by left].
    destruct (decide (JsMap.first_key (translationCache s) = Some k)) as [Hf|Hf];
      destruct (decide (length (translationCache s) < maxCacheSize)%nat)
        as [Hl|Hl].
    + left. apply cache_put_keeps; auto.
    + right. split; [done | lia].
    + left. apply cache_put_keeps; auto.
    + left. apply cache_put_keeps; auto.
Qed.

End ServiceFacts.


Module ServiceClaims.

Import BaseTranslator ContentTranslationService JsMapFacts CacheFacts
  BaseTranslatorFacts ServiceFacts Fixtures TemplateSpec ServiceSpec.

(** C4.  With caching enabled, after a call of [translateText] that
    returned a success, a call with the same request, at any later time,
    is answered from the cache: it returns a success with the same
    translated text, the factory is as it was (no instance is created),
    the log grows by the lookup alone (no backend call), and cache and
    history are unchanged. *)
Theorem second_call_answered_from_cache
    (request : TranslationRequest) (s : Sys)
    (r1 : TranslationResponse) (s1 : Sys) :
  enableCache (advanced (settings s)) = true ->
  translateText request s = (Returned r1, s1) ->
  status r1 = success ->
  forall t : Z,
  exists r2 s2,
    translateText request (at_time t s1) = (Returned r2, s2)
    /\ status r2 = success
    /\ translatedText r2 = translatedText r1
    /\ factory s2 = factory s1
    /\ effects (world s2)
       = effects (world s1) ++ [CacheLookup (fingerprint s request)]
    /\ backend_calls (effects (world s2)) = backend_calls (effects (world s1))
    /\ translationCache s2 = translationCache s1
    /\ translationHistory s2 = translationHistory s1.
Proof.
  intros Hc Heq Hs t.
  destruct (success_is_cached request s r1 s1 Hc Heq Hs)
    as (Hi & Hset & item & Hg & Htext).
  assert (Hfp : fingerprint (at_time t s1) request = fingerprint s request).
  { unfold fingerprint. cbn [settings at_time set_world]. by rewrite Hset. }
  eexists _, _. split.
  { apply translateText_hit with (item := item).
    - exact Hi.
    - cbn [settings at_time set_world]. by rewrite Hset.
    - rewrite Hfp. exact Hg. }
  rewrite Hfp. cbn.
  repeat split; try done.
  clear. induction (effects (world s1)) as [|[] l IH]; cbn; by rewrite ?IH.
Qed.

(** The scenario of the specification: ["Hello"] from [auto] to
    [zh-CN], twice. *)
Lemma second_call_answered_from_cache_witness :
  exists r1 s1 r2 s2,
    translateText hello_request sys0 = (Returned r1, s1)
    /\ translateText hello_request (at_time 1730000005000 s1) = (Returned r2, s2)
    /\ status r2 = success
    /\ translatedText r2 = translatedText r1
    /\ backend_calls (effects (world s2)) = backend_calls (effects (world s1)).
Proof.
  destruct (translateText hello_request sys0) as [o s1] eqn:Heq.
  assert (Ho : exists r1, o = Returned r1 /\ status r1 = success).
  { replace o with (fst (translateText hello_request sys0)) by (by rewrite Heq).
    vm_compute. eexists. split; reflexivity. }
  destruct Ho as (r1 & -> & Hs).
  destruct (second_call_answered_from_cache hello_request sys0 r1 s1
              eq_refl Heq Hs 1730000005000)
    as (r2 & s2 & H2 & Hs2 & Ht & _ & _ & Hb & _).
  exists r1, s1, r2, s2. repeat split; assumption.
Defined.

(** C10.  A cache entry does not expire.  Whatever the time [t] of the
    call, whatever the timestamp of the item and whatever
    [advanced.cacheExpiry], a lookup of a fingerprint that has an item
    returns that item, and [translateText] answers from it and leaves
    the cache as it is.  Across any call of [translateText] an entry
    stays, with its item, unless it is the oldest of a full cache into
    which the call writes; the only other way out is
    [clearTranslationCache]. *)
Theorem cache_entries_never_expire
    (s : Sys) (request : TranslationRequest) (item : TranslationCacheItem) :
  svc_isInitialized s = true ->
  enableCache (advanced (settings s)) = true ->
  JsMap.get (fingerprint s request) (translationCache s) = Some item ->
  (forall t expiry : Z,
     let s' := with_cacheExpiry expiry (at_time t s) in
     fst (getCachedTranslation (req_text request)
            (or_else (req_sourceLang request) LanguageCode.AUTO)
            (req_targetLang request)
            (default (defaultTranslator (settings s)) (req_translator request))
            s')
     = Returned (Some item)
     /\ fst (translateText request s') = Returned (response_of_item item t)
     /\ translationCache (snd (translateText request s')) = translationCache s)
  /\ (forall request' o s',
        translateText request' s = (o, s') ->
        JsMap.get (fingerprint s request) (translationCache s') = Some item
        \/ (JsMap.first_key (translationCache s) = Some (fingerprint s request)
            /\ (1000 <= length (translationCache s))%nat))
  /\ translationCache (snd (clearTranslationCache s)) = [].
Proof.
  intros Hi Hc Hg. split; [|split; [|reflexivity]].
  - intros t expiry s'.
    split.
    { rewrite (proj2 (getCachedTranslation_cache _ _ _ _ s')).
      change (translationCache s') with (translationCache s).
      unfold fingerprint in Hg. by rewrite Hg. }
    rewrite (translateText_hit request s' item); [by split| done | done |].
    exact Hg.
  - intros request' o s' Heq. rewrite <- maxCacheSize_value.
    rewrite translateText_unfold in Heq.
    pose proof (translateText_try_path request' s) as Hp.
    destruct (translateText_try request' s) as [[r|e] s1];
      injection Heq as <- <-; eapply path_cache_keeps; eassumption.
Qed.

(** An entry written at one time is served at a much later one, under
    an expiry of one millisecond. *)
Lemma cache_entries_never_expire_witness :
  let s1 := snd (translateText hello_request sys0) in
  exists item,
    JsMap.get (fingerprint s1 hello_request) (translationCache s1) = Some item
    /\ ci_timestamp item = 1730000000000
    /\ fst (translateText hello_request
              (with_cacheExpiry 1 (at_time 2000000000000 s1)))
       = Returned (response_of_item item 2000000000000).
Proof.
  intros s1.
  assert (Hg : exists item,
    JsMap.get (fingerprint s1 hello_request) (translationCache s1) = Some item
    /\ ci_timestamp item = 1730000000000).
  { vm_compute. eexists. split; reflexivity. }
  destruct Hg as (item & Hg & Ht).
  exists item. split; [exact Hg|]. split; [exact Ht|].
  assert (Hi : svc_isInitialized s1 = true) by (vm_compute; reflexivity).
  assert (Hc : enableCache (advanced (settings s1)) = true)
    by (vm_compute; reflexivity).
  destruct (cache_entries_never_expire s1 hello_request item Hi Hc Hg)
    as [Hserve _].
  exact (proj1 (proj2 (Hserve 2000000000000 1))).
Defined.

(** C9, as the code has it.  Caching is behind the flag
    [advanced.enableCache], on by default: with the flag off a call of
    [translateText] adds no cache lookup and no cache write to the log
    and leaves the cache as it is.  History has no flag: a call that
    returns a success not taken from the cache appends one entry to the
    history (cut to its last 1000), whatever the settings; a call
    answered from the cache or answered with an error leaves the
    history as it is. *)
Theorem caching_gated_history_unconditional
    (request : TranslationRequest) (s : Sys)
    (r : TranslationResponse) (s' : Sys) :
  translateText request s = (Returned r, s') ->
  enableCache (advanced ConfigService.DEFAULT_CONFIG) = true
  /\ (enableCache (advanced (settings s)) = false ->
      cache_effects (effects (world s')) = cache_effects (effects (world s))
      /\ translationCache s' = translationCache s)
  /\ (status r = success ->
      enableCache (advanced (settings s)) = false
      \/ JsMap.get (fingerprint s request) (translationCache s) = None ->
      exists id,
        translationHistory s'
        = history_push
            (history_item id r
               (default (defaultTranslator (settings s)) (req_translator request)))
            (translationHistory s))
  /\ (status r = error \/
      (enableCache (advanced (settings s)) = true
       /\ is_Some (JsMap.get (fingerprint s request) (translationCache s))) ->
      translationHistory s' = translationHistory s).
Proof.
  intros Heq. split; [reflexivity|].
  rewrite translateText_unfold in Heq.
  pose proof (translateText_try_path request s) as Hp.
  destruct (translateText_try request s) as [[r0|e] s1];
    injection Heq as <- <-.
  - pose proof (path_history _ _ _ _ Hp) as Hh. cbn in Hh.
    split; [intros Hoff; by eapply path_no_cache_effects|].
    split.
    + intros _ Hmiss.
      destruct Hh as [(Hon & [item Hg] & _)|Hh]; [|done].
      destruct Hmiss; congruence.
    + intros [Herr|[Hon [item Hg]]].
      * inversion Hp
          as [ | item ? ? ? | | |
             | c inst s2 response w ? ? ? Hcreate Htr ]; subst.
        -- discriminate.
        -- apply translate_returns in Htr as (Hs & _). congruence.
      * inversion Hp
          as [ | item' ? ? Hg' | | |
             | c inst s2 response w ? Hmiss ? Hcreate Htr ]; subst.
        -- by destruct (after_lookup_frame s request) as (_ & _ & _ & -> & _).
        -- rewrite (Hmiss Hon) in Hg. discriminate.
  - pose proof (path_history _ _ _ _ Hp) as Hh. cbn in Hh.
    split; [intros Hoff; by eapply path_no_cache_effects|].
    split; [intros Hs; discriminate | done].
Qed.

(** With every flag of the settings off, a successful call still
    appends to the history. *)
Lemma history_recorded_with_flags_off :
  let s := sys_with false false in
  enableCache (advanced (settings s)) = false
  /\ enableLogging (advanced (settings s)) = false
  /\ exists r s',
       translateText hello_request s = (Returned r, s')
       /\ status r = success
       /\ translationHistory s = []
       /\ length (translationHistory s') = 1%nat.
Proof.
  intros s. split; [reflexivity|]. split; [reflexivity|].
  destruct (translateText hello_request s) as [o s'] eqn:Heq.
  assert (H : (exists r, o = Returned r /\ status r = success)
              /\ length (translationHistory s') = 1%nat).
  { replace o with (fst (translateText hello_request s)) by (by rewrite Heq).
    replace s' with (snd (translateText hello_request s)) by (by rewrite Heq).
    vm_compute. split; [eexists; split; reflexivity | reflexivity]. }
  destruct H as [(r & -> & Hs) Hl].
  exists r, s'. by repeat split.
Qed.

(** The amended C9 on the scenario: caching off, the cache stays empty
    and the history gets its entry. *)
Lemma caching_gated_history_unconditional_witness :
  let s := sys_with false true in
  exists r s',
    translateText hello_request s = (Returned r, s')
    /\ translationCache s' = []
    /\ cache_effects (effects (world s')) = []
    /\ length (translationHistory s') = 1%nat.
Proof.
  intros s.
  destruct (translateText hello_request s) as [o s'] eqn:Heq.
  assert (H : exists r, o = Returned r /\ status r = success).
  { replace o with (fst (translateText hello_request s)) by (by rewrite Heq).
    vm_compute. eexists. split; reflexivity. }
  destruct H as (r & -> & Hs).
  destruct (caching_gated_history_unconditional hello_request s r s' Heq)
    as (_ & Hcache & Hhist & _).
  destruct (Hcache eq_refl) as [He Hc].
  destruct (Hhist Hs (or_introl eq_refl)) as [id Hh].
  exists r, s'. split; [reflexivity|]. split; [exact Hc|].
  split; [exact He|]. rewrite Hh. reflexivity.
Defined.

(** C3, at a request whose source and target language are the same.  The
    translator is created, its [translate] throws the object of
    [createTranslationError] with the message of the failure, and
    [translateText] returns a response of status [error] whose [error]
    field is ["Unknown error"]: the message is lost, because the object
    thrown is not an instance of [Error]. *)
Theorem translateText_loses_backend_message :
  exists inst s1 te w r s',
    TranslatorFactory.createTranslatorAsync OPENAI
      (with_maxTokens openai_config 128000) None
      (after_lookup sys0 same_language_request) = (Returned inst, s1)
    /\ translate inst (backend_request sys0 same_language_request) (world s1)
       = (Threw (TranslationErrorObject te), w)
    /\ te_message te = lit "Source and target languages cannot be the same"
    /\ translateText same_language_request sys0 = (Returned r, s')
    /\ status r = error
    /\ originalText r = req_text same_language_request
    /\ error_msg r = Some (lit "Unknown error")
    /\ error_msg r <> Some (te_message te).
Proof.
  destruct (TranslatorFactory.createTranslatorAsync OPENAI
              (with_maxTokens openai_config 128000) None
              (after_lookup sys0 same_language_request)) as [o s1] eqn:Hc.
  assert (Ho : exists inst, o = Returned inst /\ isInitialized inst = true
                            /\ adapter inst = stub_adapter openai_config).
  { replace o with (fst (TranslatorFactory.createTranslatorAsync OPENAI
              (with_maxTokens openai_config 128000) None
              (after_lookup sys0 same_language_request))) by (by rewrite Hc).
    vm_compute. eexists. repeat split. }
  destruct Ho as (inst & -> & Hi & Ha).
  destruct (translate inst (backend_request sys0 same_language_request)
              (world s1)) as [o2 w] eqn:Ht.
  assert (Ho2 : exists te, o2 = Threw (TranslationErrorObject te)
    /\ te_message te = lit "Source and target languages cannot be the same").
  { replace o2 with (fst (translate inst
       (backend_request sys0 same_language_request) (world s1)))
      by (by rewrite Ht).
    unfold translate, translate_try. rewrite Hi. cbn [negb].
    unfold validateRequest. rewrite Ha.
    vm_compute. eexists. split; reflexivity. }
  destruct Ho2 as (te & -> & Hm).
  destruct (translateText same_language_request sys0) as [o3 s'] eqn:H3.
  assert (Ho3 : exists r, o3 = Returned r /\ status r = error
    /\ originalText r = req_text same_language_request
    /\ error_msg r = Some (lit "Unknown error")).
  { replace o3 with (fst (translateText same_language_request sys0))
      by (by rewrite H3).
    vm_compute. eexists. repeat split. }
  destruct Ho3 as (r & -> & Hs & Ho & He).
  exists inst, s1, te, w, r, s'. repeat split; try done.
  rewrite He, Hm. vm_compute. discriminate.
Qed.

End ServiceClaims.


(* ================================================================== *)
(** ** Batch tasks: alignment and cancellation *)
(* ================================================================== *)

Module BatchFacts.

Import BaseTranslator BatchTranslation JsMapFacts BaseTranslatorFacts
  ServiceFacts TemplateSpec ServiceSpec BatchSpec BatchTerms ScheduleSpec.

Lemma run_cons e es m : run (e :: es) m = run es (step e m).
Proof. reflexivity. Qed.

(** Settling a chunk leaves the inputs and the status of the task. *)
Lemma settle_chunk_frame i o w task :
  texts (settle_chunk i o w task) = texts task
  /\ task_status (settle_chunk i o w task) = task_status task
  /\ task_from (settle_chunk i o w task) = task_from task
  /\ task_to (settle_chunk i o w task) = task_to task
  /\ task_translator (settle_chunk i o w task) = task_translator task.
Proof.
  unfold settle_chunk. destruct o as [r|e]; cbn; [|done].
  by destruct (bool_decide (status r = error)).
Qed.

Lemma chunk_request_settle i o w task text :
  chunk_request (settle_chunk i o w task) text = chunk_request task text.
Proof.
  unfold chunk_request.
  by destruct (settle_chunk_frame i o w task) as (_ & _ & -> & -> & ->).
Qed.

Lemma settle_chunk_results i o w task text :
  texts task !! i = Some text ->
  results (settle_chunk i o w task) = results task ++ [chunk_result task text o w]
  /\ task_errors (settle_chunk i o w task) = task_errors task ++ chunk_errors o.
Proof.
  intros Ht. unfold settle_chunk, chunk_result, chunk_errors.
  destruct o as [r|e]; cbn.
  - destruct (bool_decide (status r = error)); cbn; by rewrite ?app_nil_r.
  - rewrite Ht. cbn. done.
Qed.

Lemma chunk_outcomes_length inst task rest w :
  length (chunk_outcomes inst task rest w) = length rest.
Proof.
  revert w. induction rest as [|text rest IH]; intros w; cbn; [done|].
  destruct (translate inst (chunk_request task text) w). cbn. by rewrite IH.
Qed.

Lemma chunk_outcomes_settle inst i o w0 task rest w :
  chunk_outcomes inst (settle_chunk i o w0 task) rest w
  = chunk_outcomes inst task rest w.
Proof.
  revert w. induction rest as [|text rest IH]; intros w; cbn; [done|].
  rewrite chunk_request_settle.
  destruct (translate inst (chunk_request task text) w). by rewrite IH.
Qed.

(** An uncancelled executor, from the head of iteration [i], runs the
    remaining chunks one resumption each. *)
Lemma loop_head_runs inst id :
  forall rest i s task exs,
    JsMap.get id (batchTasks s) = Some task ->
    task_status task = task_running ->
    drop i (texts task) = rest ->
    let m1 := {| sys := fst (loop_head id i inst s);
                 executors := JsMap.set id (snd (loop_head id i inst s)) exs |} in
    let m' := run (replicate (length rest) (Resume id)) m1 in
    JsMap.get id (batchTasks (sys m'))
    = Some (fst (remaining inst i rest task (world s)))
    /\ world (sys m') = snd (remaining inst i rest task (world s))
    /\ JsMap.get id (executors m') = Some Resolved.
Proof.
  induction rest as [|text rest IH]; intros i s task exs Hg Hrun Hdrop m1 m'.
  - assert (Hi : texts task !! i = None).
    { apply lookup_ge_None. apply (f_equal length) in Hdrop.
      rewrite length_drop in Hdrop. cbn in Hdrop. lia. }
    subst m' m1. unfold loop_head. rewrite Hg, Hi. cbn.
    rewrite get_alter_eq, Hg, get_set_eq. done.
  - assert (Hi : texts task !! i = Some text).
    { rewrite <- (take_drop i (texts task)), Hdrop.
      assert (i <= length (texts task))%nat.
      { destruct (decide (i <= length (texts task))%nat); [done|].
        rewrite drop_ge in Hdrop by lia. discriminate. }
      rewrite lookup_app_r by (rewrite length_take; lia).
      rewrite length_take, Nat.min_l by lia. by rewrite Nat.sub_diag. }
    destruct (translate inst (chunk_request task text) (world s))
      as [o w1] eqn:Htr.
    assert (Hlh0 : loop_head id i inst s
                   = (set_world w1 s, AwaitTranslate i inst o)).
    { unfold loop_head. rewrite Hg, Hi, Hrun.
      rewrite bool_decide_eq_true_2 by done. cbn [negb]. by rewrite Htr. }
    set (s2 := after_chunk id i o (set_world w1 s)).
    destruct (loop_head id (S i) inst s2) as [s3 k] eqn:Hlh.
    assert (Hres :
      resume id {| sys := set_world w1 s;
                   executors := JsMap.set id (AwaitTranslate i inst o) exs |}
      = {| sys := s3;
           executors :=
             JsMap.set id k (JsMap.set id (AwaitTranslate i inst o) exs) |}).
    { unfold resume. cbn [executors sys]. rewrite get_set_eq.
      fold s2. by rewrite Hlh. }
    assert (Hg2 : JsMap.get id (batchTasks s2)
                  = Some (settle_chunk i o w1 task)).
    { subst s2. unfold after_chunk, with_task. cbn.
      by rewrite get_alter_eq, Hg. }
    destruct (settle_chunk_frame i o w1 task) as (Ht & Hs & _).
    specialize (IH (S i) s2 (settle_chunk i o w1 task)
                  (JsMap.set id (AwaitTranslate i inst o) exs) Hg2).
    rewrite Hs, Ht, Hlh in IH. cbn [fst snd] in IH.
    specialize (IH Hrun).
    assert (Hd : drop (S i) (texts task) = rest).
    { rewrite <- (Nat.add_1_r i), <- drop_drop, Hdrop. reflexivity. }
    specialize (IH Hd).
    replace (world s2) with w1 in IH by reflexivity.
    subst m' m1. rewrite Hlh0. cbn [fst snd length replicate].
    rewrite run_cons. cbn [step]. rewrite Hres.
    cbn [remaining]. rewrite Htr. exact IH.
Qed.

Lemma chunk_result_settle i o0 w0 task text o w :
  chunk_result (settle_chunk i o0 w0 task) text o w = chunk_result task text o w.
Proof.
  unfold chunk_result, placeholder. destruct o; [done|].
  by destruct (settle_chunk_frame i o0 w0 task) as (_ & _ & -> & -> & ->).
Qed.

Lemma chunk_results_settle inst i o w0 task rest w :
  chunk_results inst (settle_chunk i o w0 task) rest w
  = chunk_results inst task rest w.
Proof.
  revert w. induction rest as [|text rest IH]; intros w; cbn; [done|].
  rewrite chunk_request_settle.
  destruct (translate inst (chunk_request task text) w).
  by rewrite IH, chunk_result_settle.
Qed.

(** The task after the remaining chunks. *)
Lemma remaining_spec inst :
  forall rest i task w,
    drop i (texts task) = rest ->
    let task' := fst (remaining inst i rest task w) in
    task_status task' = task_completed
    /\ texts task' = texts task
    /\ results task' = results task ++ chunk_results inst task rest w
    /\ task_errors task'
       = task_errors task
         ++ concat (chunk_errors <$> chunk_outcomes inst task rest w).
Proof.
  induction rest as [|text rest IH]; intros i task w Hdrop task'.
  - subst task'. cbn. by rewrite !app_nil_r.
  - subst task'. cbn [remaining chunk_results chunk_outcomes].
    destruct (translate inst (chunk_request task text) w) as [o w1] eqn:Htr.
    assert (Hi : texts task !! i = Some text).
    { rewrite <- (take_drop i (texts task)), Hdrop.
      assert (i <= length (texts task))%nat.
      { destruct (decide (i <= length (texts task))%nat); [done|].
        rewrite drop_ge in Hdrop by lia. discriminate. }
      rewrite lookup_app_r by (rewrite length_take; lia).
      rewrite length_take, Nat.min_l by lia. by rewrite Nat.sub_diag. }
    destruct (settle_chunk_frame i o w1 task) as (Ht & Hs & _).
    destruct (settle_chunk_results i o w1 task text Hi) as [Hr He].
    assert (Hd : drop (S i) (texts (settle_chunk i o w1 task)) = rest).
    { rewrite Ht, <- (Nat.add_1_r i), <- drop_drop, Hdrop. reflexivity. }
    destruct (IH (S i) (settle_chunk i o w1 task) w1 Hd) as (H1 & H2 & H3 & H4).
    split; [done|]. split; [congruence|].
    rewrite H3, H4, Hr, He, chunk_results_settle, chunk_outcomes_settle.
    cbn [fmap list_fmap concat]. by rewrite <- !app_assoc.
Qed.

(** The state [startBatchTranslation] leaves when the translator was
    created. *)
Lemma started_task txts from to tr m0 id m1 inst :
  startBatchTranslation txts from to tr m0 = (id, m1) ->
  JsMap.get id (executors m1) = Some (AwaitCreate (Returned inst)) ->
  exists task0,
    JsMap.get id (batchTasks (sys m1)) = Some task0
    /\ texts task0 = txts /\ task_from task0 = from /\ task_to task0 = to
    /\ task_translator task0 = tr
    /\ task_status task0 = task_running
    /\ results task0 = [] /\ task_errors task0 = [].
Proof.
  unfold startBatchTranslation.
  destruct (draw (world (sys m0))) as [taskId w1].
  set (task := {| task_id := taskId; texts := txts |}).
  set (s1 := set_tasks _ _).
  unfold execute_begin.
  assert (Hg : JsMap.get taskId (batchTasks s1) = Some task).
  { subst s1. cbn. apply get_set_eq. }
  rewrite Hg.
  set (s2 := with_task taskId _ s1).
  assert (Hg2 : JsMap.get taskId (batchTasks s2)
                = Some (set_startTime (now (world s1))
                          (set_status task_running task))).
  { subst s2. unfold with_task. cbn [batchTasks set_tasks].
    by rewrite get_alter_eq, Hg. }
  destruct (translators_cfg (settings s2) (task_translator task)) as [c|].
  - destruct (TranslatorFactory.createTranslatorAsync _ _ _ s2)
      as [o s3] eqn:Hc.
    intros Heq Hex. injection Heq as <- <-. cbn in Hex.
    rewrite get_set_eq in Hex. injection Hex as ->.
    pose proof (createTranslatorAsync_frame (task_translator task) c None s2)
      as (_ & _ & _ & _ & Hb).
    rewrite Hc in Hb. cbn [snd] in Hb. cbn [sys]. rewrite Hb, Hg2.
    eexists. split; [reflexivity|]. by repeat split.
  - intros Heq Hex. injection Heq as <- <-. cbn in Hex.
    rewrite get_set_eq in Hex. discriminate.
Qed.

Lemma loop_head_other id' i inst s id :
  id' <> id ->
  JsMap.get id (batchTasks (fst (loop_head id' i inst s)))
  = JsMap.get id (batchTasks s).
Proof.
  intros Hne. unfold loop_head.
  destruct (JsMap.get id' (batchTasks s)) as [task|]; [|reflexivity].
  destruct (texts task !! i) as [text|].
  - destruct (negb _).
    + cbn. now apply get_alter_ne.
    + destruct (translate _ _ _). reflexivity.
  - cbn. now apply get_alter_ne.
Qed.

(** An occurrence about another task leaves a task and its executor
    as they are. *)
Lemma step_other e m id :
  subject e <> id ->
  JsMap.get id (batchTasks (sys (step e m))) = JsMap.get id (batchTasks (sys m))
  /\ JsMap.get id (executors (step e m)) = JsMap.get id (executors m).
Proof.
  intros Hne. destruct e as [id'|id']; cbn [subject] in Hne; cbn [step].
  - unfold resume.
    destruct (JsMap.get id' (executors m)) as [[[inst|e]|i inst o| |e]|];
      try (split; reflexivity).
    + pose proof (loop_head_other id' 0 inst (sys m) id Hne) as Hl.
      destruct (loop_head id' 0 inst (sys m)) as [s1 k]. cbn [fst] in Hl.
      cbn [sys executors]. split; [exact Hl|now apply get_set_ne].
    + cbn [sys executors]. split; [|now apply get_set_ne].
      unfold on_rejected, with_task. cbn. now apply get_alter_ne.
    + pose proof (loop_head_other id' (S i) inst
                    (after_chunk id' i o (sys m)) id Hne) as Hl.
      destruct (loop_head id' (S i) inst (after_chunk id' i o (sys m)))
        as [s1 k]. cbn [fst] in Hl.
      cbn [sys executors]. split; [|now apply get_set_ne].
      rewrite Hl. unfold after_chunk, with_task. cbn.
      now apply get_alter_ne.
  - unfold cancelBatchTranslation.
    destruct (JsMap.get id' (batchTasks (sys m))) as [task|];
      [|split; reflexivity].
    destruct (bool_decide _); [split; reflexivity|].
    cbn [snd sys executors]. split; [|reflexivity].
    unfold with_task. cbn. now apply get_alter_ne.
Qed.

Lemma started_progress txts from to tr m0 id m1 inst :
  startBatchTranslation txts from to tr m0 = (id, m1) ->
  JsMap.get id (executors m1) = Some (AwaitCreate (Returned inst)) ->
  exists task0,
    JsMap.get id (batchTasks (sys m1)) = Some task0
    /\ texts task0 = txts
    /\ task_status task0 = task_running
    /\ progress task0 = (0, 1).
Proof.
  unfold startBatchTranslation.
  destruct (draw (world (sys m0))) as [taskId w1].
  set (task := {| task_id := taskId; texts := txts |}).
  set (s1 := set_tasks _ _).
  unfold execute_begin.
  assert (Hg : JsMap.get taskId (batchTasks s1) = Some task).
  { subst s1. cbn. apply get_set_eq. }
  rewrite Hg.
  set (s2 := with_task taskId _ s1).
  assert (Hg2 : JsMap.get taskId (batchTasks s2)
                = Some (set_startTime (now (world s1))
                          (set_status task_running task))).
  { subst s2. unfold with_task. cbn [batchTasks set_tasks].
    by rewrite get_alter_eq, Hg. }
  destruct (translators_cfg (settings s2) (task_translator task)) as [c|].
  - destruct (TranslatorFactory.createTranslatorAsync _ _ _ s2)
      as [o s3] eqn:Hc.
    intros Heq Hex. injection Heq as <- <-.
    pose proof (createTranslatorAsync_frame (task_translator task) c None s2)
      as (_ & _ & _ & _ & Hb).
    rewrite Hc in Hb. cbn [snd] in Hb. cbn [sys]. rewrite Hb, Hg2.
    eexists. split; [reflexivity|]. by repeat split.
  - intros Heq Hex. injection Heq as <- <-. cbn in Hex.
    rewrite get_set_eq in Hex. discriminate.
Qed.

Lemma chunk_request_same task task0 text :
  task_from task = task_from task0 -> task_to task = task_to task0 ->
  task_translator task = task_translator task0 ->
  chunk_request task text = chunk_request task0 text.
Proof. unfold chunk_request. by intros -> -> ->. Qed.

Lemma placeholder_same task task0 text e w :
  task_from task = task_from task0 -> task_to task = task_to task0 ->
  task_translator task = task_translator task0 ->
  placeholder task text e w = placeholder task0 text e w.
Proof. unfold placeholder. by intros -> -> ->. Qed.

Lemma settled_finish inst task0 task os z st :
  settled inst task0 task os ->
  settled inst task0 (set_endTime z (set_status st task)) os.
Proof. intros H. exact H. Qed.

Lemma settled_settle inst task0 task os text o w :
  settled inst task0 task os ->
  texts task0 !! length os = Some text ->
  answered inst (chunk_request task0 text) o ->
  settled inst task0 (settle_chunk (length os) o w task) (os ++ [o]).
Proof.
  intros (Ht & Hf & Hto & Htr & Hle & Hlen & Hpt & Herr & Hpr) Htext Hans.
  assert (Htext' : texts task !! length os = Some text) by (by rewrite Ht).
  destruct (settle_chunk_frame (length os) o w task)
    as (Ht' & _ & Hf' & Hto' & Htr').
  destruct (settle_chunk_results (length os) o w task text Htext')
    as [Hres Herrs].
  assert (Hlt : (length os < length (texts task0))%nat).
  { by apply lookup_lt_Some in Htext. }
  unfold settled. rewrite Ht', Hf', Hto', Htr', Hres, Herrs.
  split; [done|]. split; [done|]. split; [done|]. split; [done|].
  split; [rewrite length_app; cbn; lia|].
  split; [rewrite !length_app; cbn; lia|].
  split; [|split].
  - intros j text' o' Hj Ho.
    apply lookup_app_Some in Ho as [Ho|[Hge Ho]].
    + destruct (Hpt j text' o' Hj Ho) as (Ha & r & Hr & Hp).
      split; [exact Ha|]. exists r. split; [|exact Hp].
      by apply lookup_app_l_Some.
    + destruct (j - length os)%nat eqn:E; [|done]. cbn in Ho.
      injection Ho as <-. assert (j = length os) as -> by lia.
      rewrite Htext in Hj. injection Hj as <-.
      split; [exact Hans|].
      exists (chunk_result task text o w). split.
      * rewrite lookup_app_r by lia. by rewrite Hlen, Nat.sub_diag.
      * unfold pushed_for, chunk_result. destruct o as [r|e]; [done|].
        exists w. by apply placeholder_same.
  - rewrite Herr, fmap_app, concat_app. cbn. by rewrite app_nil_r.
  - unfold settle_chunk. cbn [progress set_progress].
    destruct os as [|o0 os]; cbn [app length] in *.
    + rewrite Ht. f_equal.
    + rewrite Ht, length_app. cbn [length]. f_equal. lia.
Qed.

(** From the head of iteration [i], with [i] chunks settled. *)
Lemma loop_head_stage inst task0 id s task os exs :
  JsMap.get id (batchTasks s) = Some task ->
  settled inst task0 task os ->
  task_status task = task_running ->
  stage inst task0 id
    {| sys := fst (loop_head id (length os) inst s);
       executors := JsMap.set id (snd (loop_head id (length os) inst s)) exs |}
    (length (texts task0) - length os).
Proof.
  intros Hg Hset Hrun.
  pose proof Hset as (Ht & Hf & Hto & Htr & Hle & _).
  unfold loop_head. rewrite Hg, Ht.
  destruct (texts task0 !! length os) as [text|] eqn:Htext.
  - rewrite Hrun, bool_decide_eq_true_2 by done. cbn [negb].
    rewrite (chunk_request_same task task0 text Hf Hto Htr).
    destruct (translate inst (chunk_request task0 text) (world s))
      as [o w1] eqn:Htrans.
    cbn [fst snd]. exists task, os. cbn [sys executors batchTasks set_world].
    split; [exact Hg|]. split; [exact Hset|].
    rewrite get_set_eq. repeat split; try done.
    exists text. split; [done|]. by exists (world s), w1.
  - apply lookup_ge_None in Htext.
    unfold finish. cbn [fst snd].
    exists (set_endTime (now (world s)) (set_status task_completed task)), os.
    cbn [sys executors]. unfold with_task. cbn [batchTasks set_tasks].
    rewrite get_alter_eq, Hg, get_set_eq. cbn [fmap option_fmap option_map].
    split; [done|]. split; [by apply settled_finish|].
    repeat split; try done; lia.
Qed.

Lemma stage_resume inst task0 id m n :
  stage inst task0 id m (S n) -> stage inst task0 id (resume id m) n.
Proof.
  intros (task & os & Hg & Hset & Hex). unfold resume.
  destruct (JsMap.get id (executors m)) as [[[inst'|e]|i inst' o| |e]|];
    try done.
  - destruct Hex as (-> & -> & Hrun & Hneed).
    pose proof (loop_head_stage inst task0 id (sys m) task [] (executors m)
                  Hg Hset Hrun) as Hst.
    cbn [length] in Hst. rewrite Nat.sub_0_r in Hst.
    destruct (loop_head id 0 inst (sys m)) as [s1 k].
    cbn [fst snd] in Hst. by injection Hneed as ->.
  - destruct Hex as (-> & -> & Hrun & (text & Htext & Hans) & Hneed).
    set (s1 := after_chunk id (length os) o (sys m)).
    assert (Hg1 : JsMap.get id (batchTasks s1)
                  = Some (settle_chunk (length os) o (world (sys m)) task)).
    { subst s1. unfold after_chunk, with_task. cbn.
      by rewrite get_alter_eq, Hg. }
    pose proof (settled_settle inst task0 task os text o (world (sys m))
                  Hset Htext Hans) as Hset1.
    destruct (settle_chunk_frame (length os) o (world (sys m)) task)
      as (_ & Hst & _).
    pose proof (loop_head_stage inst task0 id s1 _ (os ++ [o]) (executors m)
                  Hg1 Hset1) as Hstage.
    rewrite Hst in Hstage. specialize (Hstage Hrun).
    rewrite length_app in Hstage. cbn [length] in Hstage.
    rewrite Nat.add_1_r in Hstage.
    destruct (loop_head id (S (length os)) inst s1) as [s2 k].
    cbn [fst snd] in Hstage.
    replace n with (length (texts task0) - S (length os))%nat by lia.
    exact Hstage.
  - destruct Hex as (_ & _ & Hneed). discriminate.
Qed.

Lemma stage_other inst task0 id m n e :
  subject e <> id -> stage inst task0 id m n ->
  stage inst task0 id (step e m) n.
Proof.
  intros Hne (task & os & Hg & Hset & Hex).
  destruct (step_other e m id Hne) as [Ht Hk].
  exists task, os. rewrite Ht, Hk. done.
Qed.

Lemma stage_returned inst task0 id m :
  stage inst task0 id m 0 -> resume id m = m.
Proof.
  intros (task & os & Hg & Hset & Hex). unfold resume.
  destruct (JsMap.get id (executors m)) as [[[inst'|e]|i inst' o| |e]|];
    try done.
  - destruct Hex as (_ & _ & _ & Hneed). discriminate.
  - destruct Hex as (_ & -> & _ & (text & Htext & _) & Hneed).
    apply lookup_lt_Some in Htext. lia.
Qed.

(** An uncancelled task advances by one stage at each resumption of
    its executor, whatever else happens in between. *)
Lemma run_stage inst task0 id es :
  forall m n,
    stage inst task0 id m n -> uncancelled id es ->
    stage inst task0 id (run es m) (n - resumptions id es).
Proof.
  induction es as [|e es IH]; intros m n Hst Hun.
  - cbn. by rewrite Nat.sub_0_r.
  - apply Forall_cons in Hun as [He Hun]. rewrite run_cons.
    destruct e as [id'|id']; cbn [resumptions].
    + destruct (Js.eqb id' id) eqn:E.
      * apply eqb_true in E. subst id'. cbn [step].
        destruct n as [|n].
        -- rewrite (stage_returned _ _ _ _ Hst).
           specialize (IH m 0%nat Hst Hun). by rewrite Nat.sub_0_l in *.
        -- apply stage_resume in Hst.
           specialize (IH _ n Hst Hun). exact IH.
      * apply eqb_false in E. apply IH; [|done].
        by apply stage_other.
    + apply IH; [|done]. apply stage_other; [|done].
      cbn. congruence.
Qed.

Lemma started_stage txts from to tr m0 id m1 inst :
  startBatchTranslation txts from to tr m0 = (id, m1) ->
  JsMap.get id (executors m1) = Some (AwaitCreate (Returned inst)) ->
  exists task0,
    JsMap.get id (batchTasks (sys m1)) = Some task0
    /\ texts task0 = txts /\ task_from task0 = from /\ task_to task0 = to
    /\ task_translator task0 = tr
    /\ task_status task0 = task_running
    /\ results task0 = [] /\ task_errors task0 = []
    /\ stage inst task0 id m1 (S (length txts)).
Proof.
  intros Hstart Hex.
  destruct (started_task _ _ _ _ _ _ _ _ Hstart Hex)
    as (task0 & Hg & Ht & Hf & Hto & Htr & Hrun & Hres & Herr).
  destruct (started_progress _ _ _ _ _ _ _ _ Hstart Hex)
    as (task0' & Hg' & _ & _ & Hp).
  rewrite Hg in Hg'. injection Hg' as <-.
  exists task0. repeat split; try done.
  exists task0, []. split; [exact Hg|]. split.
  - unfold settled. rewrite Hres, Herr, Hp. cbn.
    repeat split; try done; try lia.
  - rewrite Hex, Ht. done.
Qed.

Lemma pushed_chunk_result task text o w :
  pushed_for task text o (chunk_result task text o w).
Proof. unfold pushed_for, chunk_result. destruct o; eauto. Qed.

(** In the run without interruption, each chunk has at its index the
    outcome of its call and the result pushed for it. *)
Lemma chunk_results_exact inst task :
  forall rest w j text,
    rest !! j = Some text ->
    exists o w1,
      chunk_outcomes inst task rest w !! j = Some o
      /\ answered inst (chunk_request task text) o
      /\ chunk_results inst task rest w !! j
         = Some (chunk_result task text o w1).
Proof.
  induction rest as [|t rest IH]; intros w j text Hj; [done|].
  cbn [chunk_outcomes chunk_results].
  destruct (translate inst (chunk_request task t) w) as [o w1] eqn:Htr.
  destruct j as [|j]; cbn in Hj |- *.
  - injection Hj as ->. exists o, w1. split; [done|].
    split; [by exists w, w1 | done].
  - by apply IH.
Qed.

(** What the outcome of a call says about the result pushed for it. *)
Lemma answered_pushed inst task0 text o r :
  answered inst (chunk_request task0 text) o ->
  pushed_for task0 text o r ->
  originalText r = text
  /\ match o with
     | Returned _ => status r = success /\ chunk_errors o = []
     | Threw _ => status r = error /\ chunk_errors o = [lit "Unknown error"]
     end.
Proof.
  intros (w & w' & Htr) Hp. destruct o as [response|e]; cbn in Hp.
  - subst r. apply translate_returns in Htr as (Hs & Ho & _).
    split; [exact Ho|]. split; [exact Hs|].
    cbn. by rewrite Hs, bool_decide_eq_false_2.
  - destruct Hp as [w0 ->]. split; [done|]. split; [done|].
    apply translate_throws_object in Htr.
    cbn. unfold caught_message. by rewrite Htr.
Qed.

Lemma errors_count (os : list (Outcome TranslationResponse)) :
  Forall (fun o => match o with
                   | Returned _ => chunk_errors o = []
                   | Threw _ => chunk_errors o = [lit "Unknown error"]
                   end) os ->
  length (concat (chunk_errors <$> os)) = failures os.
Proof.
  induction 1 as [|o os Ho _ IH]; [done|].
  cbn [fmap list_fmap concat failures]. rewrite length_app, IH.
  destruct o; rewrite Ho; done.
Qed.

End BatchFacts.

Module BatchClaims.

Import BaseTranslator BatchTranslation JsMapFacts BaseTranslatorFacts
  ServiceFacts BatchFacts Fixtures TemplateSpec ServiceSpec BatchSpec
  BatchTerms ScheduleSpec.

Lemma chunk_results_length inst task rest w :
  length (chunk_results inst task rest w) = length rest.
Proof.
  revert w. induction rest as [|text rest IH]; intros w; cbn; [done|].
  destruct (translate inst (chunk_request task text) w). cbn. by rewrite IH.
Qed.

(** C2.  A batch task of [k] texts whose translator was created and
    which is not cancelled ends with status [completed] and [k] results
    once its executor has been resumed [k + 1] times, whatever happens to
    other tasks in between and however the resumptions are spaced.  The
    result at index [j] belongs to [texts[j]]: it is the very response
    [translate] returned for that chunk, a success, or, when that call
    threw, the placeholder of status [error] built for that chunk; every
    chunk is processed, whatever the outcome of the ones before, and
    [task.errors] holds, in order, one entry for each chunk that failed.
    In the run that nothing interrupts the outcomes are those of the
    calls made one after the other from the world the start left. *)
Theorem batch_results_aligned
    (txts : list jsstring) (from to : jsstring) (tr : TranslatorType)
    (m0 : Machine) (id : jsstring) (m1 : Machine) (inst : Translator)
    (es : list Occurrence) :
  startBatchTranslation txts from to tr m0 = (id, m1) ->
  JsMap.get id (executors m1) = Some (AwaitCreate (Returned inst)) ->
  uncancelled id es ->
  (S (length txts) <= resumptions id es)%nat ->
  let m := run es m1 in
  exists task0 task os,
    JsMap.get id (batchTasks (sys m1)) = Some task0
    /\ JsMap.get id (batchTasks (sys m)) = Some task
    /\ JsMap.get id (executors m) = Some Resolved
    /\ task_status task = task_completed
    /\ texts task = txts
    /\ length (results task) = length txts
    /\ length os = length txts
    /\ (forall j text,
          txts !! j = Some text ->
          exists o r,
            os !! j = Some o
            /\ answered inst (chunk_request task0 text) o
            /\ results task !! j = Some r
            /\ pushed_for task0 text o r
            /\ originalText r = text
            /\ match o with
               | Returned _ => status r = success
               | Threw _ => status r = error
               end)
    /\ task_errors task = concat (chunk_errors <$> os)
    /\ length (task_errors task) = failures os
    /\ (es = replicate (S (length txts)) (Resume id) ->
        os = chunk_outcomes inst task0 txts (world (sys m1))).
Proof.
  intros Hstart Hex Hun Hres m.
  destruct (started_stage _ _ _ _ _ _ _ _ Hstart Hex)
    as (task0 & Hg0 & Ht0 & _ & _ & _ & Hrun0 & Hres0 & Herr0 & Hst).
  assert (Hcore : exists task os,
    JsMap.get id (batchTasks (sys m)) = Some task
    /\ JsMap.get id (executors m) = Some Resolved
    /\ task_status task = task_completed
    /\ texts task = txts
    /\ length (results task) = length os
    /\ length os = length txts
    /\ (forall j text o,
          txts !! j = Some text -> os !! j = Some o ->
          answered inst (chunk_request task0 text) o
          /\ exists r, results task !! j = Some r
                       /\ pushed_for task0 text o r)
    /\ task_errors task = concat (chunk_errors <$> os)
    /\ (es = replicate (S (length txts)) (Resume id) ->
        os = chunk_outcomes inst task0 txts (world (sys m1)))).
  { destruct (decide (es = replicate (S (length txts)) (Resume id)))
      as [Hes|Hes].
    - assert (Hm : m = run (replicate (length txts) (Resume id))
                         {| sys := fst (loop_head id 0 inst (sys m1));
                            executors :=
                              JsMap.set id
                                (snd (loop_head id 0 inst (sys m1)))
                                (executors m1) |}).
      { subst m. rewrite Hes. cbn [replicate]. rewrite run_cons.
        cbn [step]. unfold resume. rewrite Hex.
        by destruct (loop_head id 0 inst (sys m1)). }
      assert (Hd : drop 0 (texts task0) = txts) by (by rewrite drop_0).
      destruct (loop_head_runs inst id txts 0%nat (sys m1) task0
                  (executors m1) Hg0 Hrun0 Hd) as (Hfin & _ & Hk).
      rewrite <- Hm in Hfin, Hk.
      destruct (remaining_spec inst txts 0%nat task0 (world (sys m1)) Hd)
        as (Hs & Htx & Hr & He).
      rewrite Hres0 in Hr. rewrite Herr0 in He. cbn [app] in Hr, He.
      exists (fst (remaining inst 0 txts task0 (world (sys m1)))),
        (chunk_outcomes inst task0 txts (world (sys m1))).
      split; [exact Hfin|]. split; [exact Hk|]. split; [exact Hs|].
      split; [congruence|].
      split; [by rewrite Hr, chunk_results_length, chunk_outcomes_length|].
      split; [apply chunk_outcomes_length|].
      split; [|split; [exact He|done]].
      intros j text o Hj Ho.
      destruct (chunk_results_exact inst task0 txts (world (sys m1)) j text Hj)
        as (o' & w1 & Ho' & Hans & Hrj).
      rewrite Ho in Ho'. injection Ho' as <-.
      split; [exact Hans|]. rewrite Hr.
      eexists. split; [exact Hrj|apply pushed_chunk_result].
    - pose proof (run_stage inst task0 id es m1 _ Hst Hun) as Hend.
      fold m in Hend.
      replace (S (length txts) - resumptions id es)%nat with 0%nat in Hend
        by lia.
      destruct Hend as (task & os & Hg & Hset & Hk).
      destruct Hset as (Ht & _ & _ & _ & _ & Hlen & Hpt & Herr & _).
      destruct (JsMap.get id (executors m))
        as [[[inst'|e]|i inst' o| |e]|] eqn:Hexm; try done.
      + destruct Hk as (_ & _ & _ & Hneed). discriminate.
      + destruct Hk as (_ & -> & _ & (text & Htext & _) & Hneed).
        apply lookup_lt_Some in Htext. rewrite Ht0 in Htext, Hneed. lia.
      + destruct Hk as (Hlo & Hs & _).
        exists task, os. rewrite Ht0 in *.
        split; [done|]. split; [done|]. split; [done|].
        split; [congruence|]. split; [done|]. split; [done|].
        split; [exact Hpt|]. split; [exact Herr|done]. }
  destruct Hcore as (task & os & Hg & Hk & Hs & Ht & Hlen & Hlo & Hpt & Herr
                     & Hpin).
  assert (Hall : forall j text,
    txts !! j = Some text ->
    exists o r,
      os !! j = Some o
      /\ answered inst (chunk_request task0 text) o
      /\ results task !! j = Some r
      /\ pushed_for task0 text o r).
  { intros j text Hj.
    destruct (lookup_lt_is_Some_2 os j) as [o Ho].
    { rewrite Hlo. by apply lookup_lt_Some in Hj. }
    destruct (Hpt j text o Hj Ho) as (Hans & r & Hr & Hp).
    exists o, r. done. }
  exists task0, task, os.
  split; [done|]. split; [done|]. split; [done|]. split; [done|].
  split; [done|]. split; [congruence|]. split; [done|].
  split.
  { intros j text Hj.
    destruct (Hall j text Hj) as (o & r & Ho & Hans & Hr & Hp).
    destruct (answered_pushed inst task0 text o r Hans Hp) as [Hot Hst'].
    exists o, r. repeat split; try done. destruct o; tauto. }
  split; [done|]. split; [|done].
  rewrite Herr. apply errors_count.
  apply Forall_lookup. intros j o Ho.
  destruct (lookup_lt_is_Some_2 txts j) as [text Hj].
  { rewrite <- Hlo. by apply lookup_lt_Some in Ho. }
  destruct (Hall j text Hj) as (o' & r & Ho' & Hans & Hr & Hp).
  rewrite Ho in Ho'. injection Ho' as <-.
  destruct (answered_pushed inst task0 text o r Hans Hp) as [_ Hst'].
  destruct o; tauto.
Qed.

(** Three chunks, the second refused by the backend, resumed between
    occurrences that concern another task: three results, the second
    the placeholder of status [error], the others the translations of
    their chunks, one error. *)
Lemma batch_results_aligned_witness :
  let es := [Resume three_chunks_id; Cancel (lit "other");
             Resume three_chunks_id; Resume (lit "other");
             Resume three_chunks_id; Resume three_chunks_id] in
  exists task,
    JsMap.get three_chunks_id
      (batchTasks (sys (run es three_chunks_started))) = Some task
    /\ task_status task = task_completed
    /\ (status <$> results task) = [success; error; success]
    /\ (originalText <$> results task) = three_chunks
    /\ (translatedText <$> results task)
       = [lit "[zh-CN] first chunk"; []; lit "[zh-CN] third chunk"]
    /\ task_errors task = [lit "Unknown error"].
Proof.
  intros es.
  assert (Hex : exists inst,
    JsMap.get three_chunks_id (executors three_chunks_started)
    = Some (AwaitCreate (Returned inst))).
  { vm_compute. eexists. reflexivity. }
  destruct Hex as [inst Hex].
  assert (Hun : uncancelled three_chunks_id es).
  { apply (bool_decide_unpack _). vm_compute. exact I. }
  assert (Hres : (S (length three_chunks) <= resumptions three_chunks_id es)%nat).
  { vm_compute. lia. }
  destruct (batch_results_aligned three_chunks LanguageCode.EN
              LanguageCode.ZH_CN OPENAI machine0 three_chunks_id
              three_chunks_started inst es
              (surjective_pairing _) Hex Hun Hres)
    as (task0 & task & os & _ & Hg & _ & Hs & _).
  exists task. split; [exact Hg|]. split; [exact Hs|].
  assert (Hall : forall t,
    JsMap.get three_chunks_id
      (batchTasks (sys (run es three_chunks_started))) = Some t ->
    (status <$> results t) = [success; error; success]
    /\ (originalText <$> results t) = three_chunks
    /\ (translatedText <$> results t)
       = [lit "[zh-CN] first chunk"; []; lit "[zh-CN] third chunk"]
    /\ task_errors t = [lit "Unknown error"]).
  { vm_compute. intros t Ht. injection Ht as <-. repeat split. }
  exact (Hall task Hg).
Defined.

(** After a cancellation the executor, once resumed, marks the task
    completed. *)
Lemma resume_after_cancel id m i inst o task :
  JsMap.get id (executors m) = Some (AwaitTranslate i inst o) ->
  JsMap.get id (batchTasks (sys m)) = Some task ->
  task_status task = task_failed ->
  status_of id (resume id m) = Some task_completed
  /\ backend_calls (effects (world (sys (resume id m))))
     = backend_calls (effects (world (sys m))).
Proof.
  intros Hex Hg Hs. unfold resume, status_of. rewrite Hex.
  set (s1 := after_chunk id i o (sys m)).
  assert (Hg1 : JsMap.get id (batchTasks s1)
                = Some (settle_chunk i o (world (sys m)) task)).
  { subst s1. unfold after_chunk, with_task. cbn.
    by rewrite get_alter_eq, Hg. }
  destruct (settle_chunk_frame i o (world (sys m)) task) as (_ & Hst & _).
  assert (Hfin : forall k,
    (let '(s2, k0) := finish id s1 in
     {| sys := s2; executors := JsMap.set id k0 k |})
    = {| sys := with_task id
                  (fun t => set_endTime (now (world s1))
                              (set_status task_completed t)) s1;
         executors := JsMap.set id Resolved k |}) by reflexivity.
  unfold loop_head. rewrite Hg1, Hst, Hs.
  assert (Hfalse : bool_decide (task_failed = task_running) = false) by done.
  rewrite Hfalse. cbn [negb].
  assert (Hgoal :
    (task_status <$> JsMap.get id
       (batchTasks (with_task id
                      (fun t => set_endTime (now (world s1))
                                  (set_status task_completed t)) s1)))
    = Some task_completed
    /\ backend_calls (effects (world (with_task id
                      (fun t => set_endTime (now (world s1))
                                  (set_status task_completed t)) s1)))
       = backend_calls (effects (world (sys m)))).
  { unfold with_task. cbn [batchTasks set_tasks world].
    rewrite get_alter_eq, Hg1. split; reflexivity. }
  destruct (texts _ !! S i); rewrite Hfin; exact Hgoal.
Qed.

(** C1, on a task of three chunks cancelled while its first chunk is in
    flight.  The cancellation marks the task [failed] and records its
    error; the executor, resumed when the chunk settles, issues no
    further backend call, and then marks the task [completed]: the
    status of a task that was [failed] changes. *)
Theorem cancelled_task_ends_completed :
  let '(id, m1) :=
    startBatchTranslation three_chunks LanguageCode.EN LanguageCode.ZH_CN
      OPENAI machine0 in
  let running := run [Resume id] m1 in
  let cancelled := run [Resume id; Cancel id] m1 in
  let resumed := run [Resume id; Cancel id; Resume id] m1 in
  status_of id running = Some task_running
  /\ fst (cancelBatchTranslation id running) = true
  /\ status_of id cancelled = Some task_failed
  /\ (task_errors <$> JsMap.get id (batchTasks (sys cancelled)))
     = Some [lit "Translation cancelled by user"]
  /\ length (backend_calls (effects (world (sys cancelled)))) = 1%nat
  /\ length (backend_calls (effects (world (sys resumed)))) = 1%nat
  /\ JsMap.get id (executors resumed) = Some Resolved
  /\ status_of id resumed = Some task_completed.
Proof. vm_compute. repeat split. Qed.

End BatchClaims.


(* ================================================================== *)
(** * [CryptoUtils]: the fingerprint and the comparison *)
(* ================================================================== *)

Module CryptoProps.
Import Js CryptoUtils StringSpec.

Lemma to_int32_shift z : exists k, to_int32 z = z + k * 2 ^ 32.
Proof.
  exists (- ((z + 2 ^ 31) / 2 ^ 32)). unfold to_int32.
  pose proof (Z.div_mod (z + 2 ^ 31) (2 ^ 32) ltac:(lia)). lia.
Qed.

Lemma to_int32_plus z k : to_int32 (z + k * 2 ^ 32) = to_int32 z.
Proof.
  unfold to_int32.
  replace (z + k * 2 ^ 32 + 2 ^ 31) with (z + 2 ^ 31 + k * 2 ^ 32) by lia.
  now rewrite Z_mod_plus_full.
Qed.

Lemma to_int32_small z : - 2 ^ 31 <= z < 2 ^ 31 -> to_int32 z = z.
Proof.
  intros H. unfold to_int32. rewrite Z.mod_small; lia.
Qed.

Lemma to_int32_range z : - 2 ^ 31 <= to_int32 z < 2 ^ 31.
Proof.
  unfold to_int32.
  pose proof (Z.mod_pos_bound (z + 2 ^ 31) (2 ^ 32) ltac:(lia)). lia.
Qed.

Lemma to_int32_idem z : to_int32 (to_int32 z) = to_int32 z.
Proof. apply to_int32_small, to_int32_range. Qed.

(** One round of the loop is [31 * hash + char], wrapped to 32 bits. *)
Lemma hash_step_spec h c : hash_step h c = to_int32 (31 * h + c).
Proof.
  unfold hash_step. cbv zeta. rewrite Z.land_diag, to_int32_idem.
  rewrite Z.shiftl_mul_pow2 by lia.
  destruct (to_int32_shift h) as [k ->].
  destruct (to_int32_shift ((h + k * 2 ^ 32) * 2 ^ 5)) as [k' ->].
  replace ((h + k * 2 ^ 32) * 2 ^ 5 + k' * 2 ^ 32 - h + c)
    with (31 * h + c + (32 * k + k') * 2 ^ 32) by lia.
  apply to_int32_plus.
Qed.

Lemma hash_two_steps h a b :
  hash_step (hash_step h a) b = to_int32 (961 * h + (31 * a + b)).
Proof.
  rewrite !hash_step_spec.
  destruct (to_int32_shift (31 * h + a)) as [k ->].
  replace (31 * (31 * h + a + k * 2 ^ 32) + b)
    with (961 * h + (31 * a + b) + (31 * k) * 2 ^ 32) by lia.
  apply to_int32_plus.
Qed.

(** X1.  Two texts that differ in one pair of adjacent code units
    [a b] / [a' b'] with [31 * a + b = 31 * a' + b'] have the same
    [hash], whatever surrounds the pair: 'Aa' and 'BB' are such a
    pair. *)
Theorem hash_collides_on_pairs (p q : jsstring) (a b a' b' : Z) :
  31 * a + b = 31 * a' + b' ->
  hash (p ++ [a; b] ++ q) = hash (p ++ [a'; b'] ++ q).
Proof.
  intros Heq. unfold hash.
  rewrite !length_app. cbn [length].
  destruct (bool_decide _); [reflexivity|].
  do 2 f_equal.
  rewrite !fold_left_app. cbn [fold_left].
  now rewrite !hash_two_steps, Heq.
Qed.

Lemma hash_collides_on_pairs_witness :
  hash (lit "xAay") = hash (lit "xBBy") /\ lit "xAay" <> lit "xBBy".
Proof.
  split.
  - apply (hash_collides_on_pairs (lit "x") (lit "y") 65 97 66 66).
    reflexivity.
  - vm_compute. discriminate.
Defined.

Lemma code_unit_log2 c : 0 <= c < 2 ^ 16 -> Z.log2 c < 16.
Proof.
  intros [H0 H1]. destruct (Z.eq_dec c 0) as [->|Hn]; [reflexivity|].
  apply Z.log2_lt_pow2; lia.
Qed.

Lemma log2_small c : 0 <= c -> Z.log2 c < 16 -> 0 <= c < 2 ^ 16.
Proof.
  intros H0 Hl. split; [assumption|].
  destruct (Z.eq_dec c 0) as [->|Hn]; [reflexivity|].
  apply Z.log2_lt_pow2; lia.
Qed.

Lemma lxor_small a b :
  0 <= a < 2 ^ 16 -> 0 <= b < 2 ^ 16 -> 0 <= Z.lxor a b < 2 ^ 16.
Proof.
  intros Ha Hb. apply log2_small.
  - apply Z.lxor_nonneg. lia.
  - pose proof (Z.log2_lxor a b ltac:(lia) ltac:(lia)).
    pose proof (code_unit_log2 a Ha). pose proof (code_unit_log2 b Hb). lia.
Qed.

Lemma lor_small a b :
  0 <= a < 2 ^ 16 -> 0 <= b < 2 ^ 16 -> 0 <= Z.lor a b < 2 ^ 16.
Proof.
  intros Ha Hb. apply log2_small.
  - apply Z.lor_nonneg. lia.
  - rewrite Z.log2_lor by lia.
    pose proof (code_unit_log2 a Ha). pose proof (code_unit_log2 b Hb). lia.
Qed.

Lemma safeCompare_loop_zero (a : jsstring) : forall (b : jsstring) (r : Z),
  length a = length b -> 0 <= r < 2 ^ 16 ->
  code_units a -> code_units b ->
  safeCompare_loop a b r = 0 <-> r = 0 /\ a = b.
Proof.
  induction a as [|x a IH]; intros [|y b] r Hlen Hr Ha Hb;
    cbn [length] in Hlen; try discriminate; cbn [safeCompare_loop].
  - tauto.
  - apply Forall_cons in Ha as [Hx Ha]. apply Forall_cons in Hb as [Hy Hb].
    unfold code_unit in Hx, Hy.
    pose proof (lxor_small x y ltac:(lia) ltac:(lia)) as Hxor.
    pose proof (lor_small r (Z.lxor x y) Hr Hxor) as Hor.
    rewrite (to_int32_small x), (to_int32_small y), (to_int32_small r),
      (to_int32_small (Z.lxor x y)), (to_int32_small (Z.lor _ _)) by lia.
    rewrite IH by (try injection Hlen as Hlen; auto).
    rewrite Z.lor_eq_0_iff, Z.lxor_eq_0_iff.
    split.
    + intros [[-> ->] ->]. auto.
    + intros [-> [= -> ->]]. auto.
Qed.

(** X2.  On strings, [safeCompare] decides equality: it answers [true]
    exactly when its two arguments are the same string. *)
Theorem safeCompare_decides_equality (a b : jsstring) :
  code_units a -> code_units b ->
  safeCompare a b = bool_decide (a = b).
Proof.
  intros Ha Hb. unfold safeCompare.
  destruct (Nat.eqb (length a) (length b)) eqn:Hlen; cbn [negb].
  - apply Nat.eqb_eq in Hlen.
    pose proof (safeCompare_loop_zero a b 0 Hlen ltac:(lia) Ha Hb) as Hz.
    destruct (Z.eqb_spec (safeCompare_loop a b 0) 0) as [He|Hne].
    + symmetry. apply bool_decide_eq_true. now apply Hz.
    + symmetry. apply bool_decide_eq_false. intros ->. apply Hne, Hz. auto.
  - apply Nat.eqb_neq in Hlen.
    symmetry. apply bool_decide_eq_false. intros ->. now apply Hlen.
Qed.

Lemma safeCompare_decides_equality_witness :
  safeCompare (lit "secret") (lit "secreT") = false
  /\ safeCompare (lit "secret") (lit "secret") = true.
Proof.
  split.
  - rewrite (safeCompare_decides_equality (lit "secret") (lit "secreT")).
    + reflexivity.
    + unfold code_units, code_unit. vm_compute. repeat constructor; discriminate.
    + unfold code_units, code_unit. vm_compute. repeat constructor; discriminate.
  - rewrite (safeCompare_decides_equality (lit "secret") (lit "secret")).
    + reflexivity.
    + unfold code_units, code_unit. vm_compute. repeat constructor; discriminate.
    + unfold code_units, code_unit. vm_compute. repeat constructor; discriminate.
Defined.

End CryptoProps.


(* ================================================================== *)
(** * [ValidationUtils]: texts and configuration objects *)
(* ================================================================== *)

Module ValidationProps.
Import Js ValidationUtils.

Lemma existsb_trimStart (f : Z -> bool) (s : jsstring) :
  (forall c, f c = true -> is_space c = false) ->
  existsb f (trimStart s) = existsb f s.
Proof.
  intros Hf. induction s as [|c r IH]; [reflexivity|].
  cbn [trimStart]. destruct (is_space c) eqn:Hc; [|reflexivity].
  cbn [existsb]. rewrite IH.
  destruct (f c) eqn:Hfc; [|reflexivity].
  apply Hf in Hfc. congruence.
Qed.

Lemma existsb_rev (f : Z -> bool) (s : jsstring) :
  existsb f (rev s) = existsb f s.
Proof.
  induction s as [|c r IH]; [reflexivity|].
  cbn [rev existsb]. rewrite existsb_app, IH. cbn [existsb].
  rewrite orb_false_r. apply orb_comm.
Qed.

Lemma existsb_trim (f : Z -> bool) (s : jsstring) :
  (forall c, f c = true -> is_space c = false) ->
  existsb f (trim s) = existsb f s.
Proof.
  intros Hf. unfold trim, trimEnd.
  rewrite existsb_rev, existsb_trimStart, existsb_rev by assumption.
  now apply existsb_trimStart.
Qed.

Lemma content_unit_not_space c :
  is_content_unit c = true -> is_space c = false.
Proof.
  intros Hc. apply not_true_is_false. intros Hs.
  unfold is_content_unit, is_word, is_alnum, is_digit, is_upper, is_lower in Hc.
  unfold is_space in Hs.
  repeat rewrite ?orb_true_iff, ?andb_true_iff, ?Z.leb_le, ?Z.eqb_eq in Hc.
  repeat rewrite ?orb_true_iff, ?andb_true_iff, ?Z.leb_le, ?Z.eqb_eq in Hs.
  lia.
Qed.

Lemma validateText_existsb (text : jsstring) :
  validateText text = existsb is_content_unit text.
Proof.
  unfold validateText.
  destruct text as [|c r]; [reflexivity|]. cbn [truthy negb].
  rewrite <- (existsb_trim is_content_unit (c :: r) content_unit_not_space).
  case_bool_decide as Hlen; [|reflexivity].
  destruct (trim (c :: r)); [reflexivity|discriminate].
Qed.

(** X3.  [validateText] accepts a text exactly when one of its code units
    is a word character, a CJK ideograph or a kana, wherever it stands;
    so a text of punctuation, symbols or other scripts only is refused. *)
Theorem validateText_content (text : jsstring) :
  validateText text = true
  <-> exists p c q, text = p ++ c :: q /\ is_content_unit c = true.
Proof.
  rewrite validateText_existsb, existsb_exists. split.
  - intros (c & Hin & Hc). apply in_split in Hin as (p & q & ->). eauto.
  - intros (p & c & q & -> & Hc). exists c. split; [|assumption].
    apply in_or_app. right. now left.
Qed.

Lemma append_not_empty {A} (l : list A) (x : A) :
  bool_decide (length (l ++ [x]) = 0%nat) = false.
Proof.
  apply bool_decide_eq_false. rewrite length_app. cbn. lia.
Qed.

Ltac split_checks :=
  repeat match goal with
         | |- context [if ?b then _ else _] => destruct b
         end.

(** X4.  [validateConfig] reports as invalid, with at least one error,
    every object that lacks one of the keys [translatorType],
    [sourceLanguage] and [targetLanguage]; what the other fields hold
    does not matter. *)
Theorem validateConfig_required_fields (config : ConfigObject) :
  co_translatorType config = None
  \/ co_sourceLanguage config = None
  \/ co_targetLanguage config = None ->
  valid (validateConfig config) = false
  /\ errors (validateConfig config) <> [].
Proof.
  intros Hmissing.
  assert (Hvalid : valid (validateConfig config) = false).
  { destruct config as [ty src tgt key]. cbn in Hmissing.
    unfold validateConfig.
    cbn [valid co_translatorType co_sourceLanguage co_targetLanguage co_apiKey].
    destruct ty, src, tgt;
      try (destruct Hmissing as [? | [? | ?]]; discriminate);
      cbn [has_field field_truthy andb];
      split_checks; cbn [app length]; rewrite ?length_app; cbn [length];
      apply bool_decide_eq_false; lia. }
  split; [exact Hvalid|].
  intros Hnil. unfold validateConfig in Hvalid, Hnil. cbn [valid errors] in *.
  rewrite Hnil in Hvalid. discriminate.
Qed.

Lemma validateConfig_required_fields_witness :
  valid (validateConfig
           {| co_translatorType := Some (lit "openai");
              co_sourceLanguage := None;
              co_targetLanguage := None;
              co_apiKey := None |}) = false
  /\ errors (validateConfig
               {| co_translatorType := Some (lit "openai");
                  co_sourceLanguage := None;
                  co_targetLanguage := None;
                  co_apiKey := None |}) <> [].
Proof.
  apply (validateConfig_required_fields
           {| co_translatorType := Some (lit "openai");
              co_sourceLanguage := None;
              co_targetLanguage := None;
              co_apiKey := None |}).
  right. left. reflexivity.
Defined.

Lemma filter_clean (text : jsstring) :
  Forall (fun c => is_dangerous c = false)
    (List.filter (fun c => negb (is_dangerous c)) text).
Proof.
  apply List.Forall_forall. intros c Hc.
  apply List.filter_In in Hc as [_ Hc]. now apply negb_true_iff in Hc.
Qed.

(** X5.  The text [sanitizeText] returns holds none of the five
    characters it removes, and with a [maxLength] other than 0 it is at
    most that long (empty for a negative one).  A [maxLength] of 0 is
    no limit. *)
Theorem sanitizeText_clean_and_bounded (text : jsstring) (maxLength : option Z) :
  Forall (fun c => is_dangerous c = false) (sanitizeText text maxLength)
  /\ (forall n, maxLength = Some n -> n <> 0 ->
        (length (sanitizeText text maxLength) <= Z.to_nat n)%nat)
  /\ sanitizeText text (Some 0) = sanitizeText text None.
Proof.
  unfold sanitizeText.
  destruct (truthy text); cbn [negb].
  2:{ split; [apply Forall_nil_2|split; [intros; cbn; lia|reflexivity]]. }
  pose proof (filter_clean (trim text)) as Hclean.
  set (sanitized := List.filter _ (trim text)) in *.
  split; [|split; [|reflexivity]].
  - destruct maxLength as [n|]; [|assumption].
    destruct (negb (n =? 0) && (n <? Z.of_nat (length sanitized)));
      [|assumption].
    unfold substring0. now apply Forall_take.
  - intros n -> Hn.
    destruct (Z.eqb_spec n 0) as [|_]; [contradiction|]. cbn [negb andb].
    destruct (Z.ltb_spec n (Z.of_nat (length sanitized))) as [Hlt|Hge].
    + unfold substring0. rewrite length_take. lia.
    + lia.
Qed.

Lemma sanitizeText_clean_and_bounded_witness :
  (length (sanitizeText (lit " <b>Tom & Jerry</b> ") (Some 5%Z)) <= 5)%nat.
Proof.
  apply (proj1 (proj2 (sanitizeText_clean_and_bounded
                         (lit " <b>Tom & Jerry</b> ") (Some 5))) 5).
  - reflexivity.
  - lia.
Defined.

End ValidationProps.


(* ================================================================== *)
(** * [BaseTranslator]: the text sent out, refusals, the life cycle *)
(* ================================================================== *)

Module TranslatorProps.
Import Js BaseTranslator Adapters TemplateSpec TranslatorSpec.
Import ValidationUtils.

Lemma existsb_collapse (f : Z -> bool) (s : jsstring) :
  (forall c, f c = true -> is_space c = false) ->
  forall in_run, existsb f (collapse_spaces in_run s) = existsb f s.
Proof.
  intros Hf. induction s as [|c r IH]; intros in_run; [reflexivity|].
  cbn [collapse_spaces existsb].
  assert (H32 : f 32 = false).
  { destruct (f 32) eqn:H; [|reflexivity]. apply Hf in H. discriminate. }
  destruct (is_space c) eqn:Hc.
  - assert (f c = false) as ->.
    { destruct (f c) eqn:H; [|reflexivity]. apply Hf in H. congruence. }
    destruct in_run; cbn [existsb]; rewrite ?H32, IH; reflexivity.
  - cbn [existsb]. now rewrite IH.
Qed.

Lemma existsb_filter (f g : Z -> bool) (s : jsstring) :
  (forall c, f c = true -> g c = true) ->
  existsb f (List.filter g s) = existsb f s.
Proof.
  intros Hfg. induction s as [|c r IH]; [reflexivity|].
  cbn [List.filter existsb].
  destruct (g c) eqn:Hg; cbn [existsb]; rewrite IH; [reflexivity|].
  destruct (f c) eqn:Hfc; [|reflexivity].
  apply Hfg in Hfc. congruence.
Qed.

Lemma content_unit_not_zero_width c :
  is_content_unit c = true -> negb (is_zero_width c) = true.
Proof.
  intros Hc. apply negb_true_iff, not_true_is_false. intros Hz.
  unfold is_content_unit, is_word, is_alnum, is_digit, is_upper, is_lower in Hc.
  unfold is_zero_width in Hz.
  repeat rewrite ?orb_true_iff, ?andb_true_iff, ?Z.leb_le, ?Z.eqb_eq in Hc.
  repeat rewrite ?orb_true_iff, ?andb_true_iff, ?Z.leb_le, ?Z.eqb_eq in Hz.
  lia.
Qed.

Lemma collapse_spaces_plain (s : jsstring) : forall in_run,
  Forall (fun c => is_space c = true -> c = 32) (collapse_spaces in_run s).
Proof.
  induction s as [|c r IH]; intros in_run; cbn [collapse_spaces].
  - constructor.
  - destruct (is_space c) eqn:Hc.
    + destruct in_run; [apply IH|]. constructor; [reflexivity|apply IH].
    + constructor; [congruence|apply IH].
Qed.

Lemma preprocessText_clean (text : jsstring) :
  Forall clean_unit (preprocessText text).
Proof.
  unfold preprocessText, clean_unit.
  apply List.Forall_forall. intros c Hc.
  apply List.filter_In in Hc as [Hin Hz].
  split; [now apply negb_true_iff in Hz|].
  pose proof (collapse_spaces_plain (trim text) false) as Hall.
  rewrite List.Forall_forall in Hall. now apply Hall.
Qed.

Lemma preprocessText_content (text : jsstring) :
  existsb is_content_unit (preprocessText text)
  = existsb is_content_unit text.
Proof.
  unfold preprocessText.
  rewrite existsb_filter by apply content_unit_not_zero_width.
  rewrite existsb_collapse by apply ValidationProps.content_unit_not_space.
  apply ValidationProps.existsb_trim, ValidationProps.content_unit_not_space.
Qed.

(** X6.  For a request [translate] accepts, the one text handed to the
    adapter's [doTranslate] still holds a word character, an ideograph
    or a kana, and holds no zero-width code unit and no white space
    other than the plain space. *)
Theorem translate_sends_clean_text
    (t : Translator) (request : TranslationRequest) (w : World) :
  isInitialized t = true -> ~ invalid_request t request ->
  exists call,
    backend_calls (effects (snd (translate t request w)))
    = backend_calls (effects w) ++ [call]
    /\ bc_text call = preprocessText (req_text request)
    /\ existsb is_content_unit (bc_text call) = true
    /\ Forall clean_unit (bc_text call).
Proof.
  intros Hi Hv.
  eexists. split; [apply BaseTranslatorFacts.translate_calls_backend; assumption|].
  cbn [bc_text]. split; [reflexivity|]. split.
  - rewrite preprocessText_content, <- ValidationProps.validateText_existsb.
    destruct (validateText (req_text request)) eqn:Ht; [reflexivity|].
    exfalso. apply Hv. right. now left.
  - apply preprocessText_clean.
Qed.

Lemma stub_accepts_hello :
  ~ invalid_request Fixtures.stub_instance Fixtures.hello_request.
Proof.
  intros H. apply BaseTranslatorFacts.validateRequest_refuses in H.
  destruct H as [e He]. vm_compute in He. discriminate.
Qed.

Lemma translate_sends_clean_text_witness :
  exists call,
    backend_calls
      (effects (snd (translate Fixtures.stub_instance Fixtures.hello_request
                       Fixtures.world0)))
    = backend_calls (effects Fixtures.world0) ++ [call]
    /\ bc_text call = preprocessText (req_text Fixtures.hello_request)
    /\ existsb is_content_unit (bc_text call) = true
    /\ Forall clean_unit (bc_text call).
Proof.
  apply (translate_sends_clean_text Fixtures.stub_instance
           Fixtures.hello_request Fixtures.world0).
  - reflexivity.
  - apply stub_accepts_hello.
Defined.

Lemma code_of_text_refusal :
  getErrorCode (new_Error (lit "Invalid text for translation"))
  = lit "UNKNOWN_ERROR".
Proof. vm_compute. reflexivity. Qed.

Lemma code_of_source_refusal :
  getErrorCode (new_Error (lit "Invalid source language code"))
  = lit "UNSUPPORTED_LANGUAGE".
Proof. vm_compute. reflexivity. Qed.

Lemma code_of_target_refusal :
  getErrorCode (new_Error (lit "Invalid target language code"))
  = lit "UNSUPPORTED_LANGUAGE".
Proof. vm_compute. reflexivity. Qed.

Lemma code_of_same_refusal :
  getErrorCode
    (new_Error (lit "Source and target languages cannot be the same"))
  = lit "UNSUPPORTED_LANGUAGE".
Proof. vm_compute. reflexivity. Qed.

Lemma code_of_unsupported (code : jsstring) :
  validateLanguageCode code = true ->
  getErrorCode
    (new_Error (lit "Source language " ++ code ++ lit " is not supported"))
  = lit "UNSUPPORTED_LANGUAGE"
  /\ getErrorCode
       (new_Error (lit "Target language " ++ code ++ lit " is not supported"))
     = lit "UNSUPPORTED_LANGUAGE".
Proof.
  unfold validateLanguageCode. destruct (truthy code); [|discriminate].
  cbn [negb]. intros Hin. apply bool_decide_eq_true in Hin.
  revert code Hin. apply Forall_forall.
  vm_compute. repeat constructor.
Qed.

(** X7.  A request that an initialized translator refuses is rethrown as
    a [TranslationError] object whose code is [UNKNOWN_ERROR] when the
    text is the reason, and [UNSUPPORTED_LANGUAGE] for every refusal
    about the languages: a code outside the enumeration, source equal
    to target, or a language the adapter does not list. *)
Theorem translate_refusal_code
    (t : Translator) (request : TranslationRequest) (w : World) :
  isInitialized t = true -> invalid_request t request ->
  exists e,
    translate t request w = (Threw (TranslationErrorObject e), w)
    /\ te_code e = refusal_code request.
Proof.
  intros Hi Hbad. unfold translate, translate_try, refusal_code.
  rewrite Hi. cbn [negb].
  destruct (BaseTranslatorFacts.validateRequest_refuses _ _ Hbad) as [e0 He0].
  rewrite He0. eexists. split; [reflexivity|].
  cbn [createTranslationError te_code].
  revert He0. unfold validateRequest.
  destruct (truthy (req_text request)) eqn:Ht; cbn [negb orb].
  2:{ intros [= <-]. destruct (req_text request); [|discriminate].
      apply code_of_text_refusal. }
  destruct (validateText (req_text request)) eqn:Hv; cbn [negb].
  2:{ intros [= <-]. apply code_of_text_refusal. }
  destruct (truthy (req_sourceLang request)); cbn [negb orb].
  2:{ intros [= <-]. apply code_of_source_refusal. }
  destruct (validateLanguageCode (req_sourceLang request)) eqn:Hs; cbn [negb].
  2:{ intros [= <-]. apply code_of_source_refusal. }
  destruct (validateLanguageCode (req_targetLang request)) eqn:Hg; cbn [negb].
  2:{ intros [= <-]. apply code_of_target_refusal. }
  destruct (Js.eqb _ _).
  { intros [= <-]. apply code_of_same_refusal. }
  case_bool_decide; cbn [negb].
  2:{ intros [= <-]. now apply code_of_unsupported. }
  case_bool_decide; cbn [negb].
  2:{ intros [= <-]. now apply code_of_unsupported. }
  discriminate.
Qed.

Lemma translate_refusal_code_witness :
  exists e,
    translate Fixtures.stub_instance Fixtures.same_language_request
      Fixtures.world0
    = (Threw (TranslationErrorObject e), Fixtures.world0)
    /\ te_code e = lit "UNSUPPORTED_LANGUAGE".
Proof.
  apply (translate_refusal_code Fixtures.stub_instance
           Fixtures.same_language_request Fixtures.world0).
  - reflexivity.
  - unfold invalid_request. do 4 right. left. reflexivity.
Defined.

Lemma code_of_not_initialized :
  getErrorCode (new_Error (lit "Translator not initialized"))
  = lit "UNKNOWN_ERROR".
Proof. vm_compute. reflexivity. Qed.

Lemma backend_calls_snoc (l : list Effect) (c : BackendCall) :
  backend_calls (l ++ [BackendCalled c]) = backend_calls l ++ [c].
Proof. induction l as [|[] l IH]; cbn; by rewrite ?IH. Qed.

Lemma isAvailable_calls (t : Translator) (w : World) :
  backend_calls (effects (snd (isAvailable t w)))
  = backend_calls (effects w) ++ [probe_call t].
Proof.
  unfold isAvailable.
  destruct (doTranslate _ _ _ _ _); cbn [snd log effects];
    apply backend_calls_snoc.
Qed.

(** X8.  After [updateConfig] with an API key or an API URL, and after a
    [destroy] that went through, the translator refuses every request,
    valid or not, with the message 'Translator not initialized' and
    without a backend call.  The [isAvailable] of the adapters has no
    such guard: on the same translator it still sends its probe to the
    backend. *)
Theorem out_of_service_refuses_but_probes
    (t t' : Translator) (request : TranslationRequest) (w : World) :
  taken_out_of_service t t' ->
  (exists e,
      translate t' request w = (Threw (TranslationErrorObject e), w)
      /\ te_message e = lit "Translator not initialized"
      /\ te_code e = lit "UNKNOWN_ERROR")
  /\ backend_calls (effects (snd (isAvailable t' w)))
     = backend_calls (effects w) ++ [probe_call t'].
Proof.
  intros Hout.
  assert (Hi : isInitialized t' = false).
  { destruct Hout as [(n & Hn & ->) | [Hd ->]].
    - unfold updateConfig. cbn [isInitialized]. now rewrite Hn.
    - unfold destroy. now rewrite Hd. }
  split; [|apply isAvailable_calls].
  unfold translate, translate_try. rewrite Hi. cbn [negb].
  eexists. split; [reflexivity|].
  cbn [createTranslationError te_message te_code]. split; [reflexivity|].
  apply code_of_not_initialized.
Qed.

(** The stub, destroyed. *)
Lemma out_of_service_refuses_but_probes_witness :
  (exists e,
      translate (fst (destroy Fixtures.stub_instance)) Fixtures.hello_request
        Fixtures.world0
      = (Threw (TranslationErrorObject e), Fixtures.world0)
      /\ te_message e = lit "Translator not initialized"
      /\ te_code e = lit "UNKNOWN_ERROR")
  /\ backend_calls
       (effects (snd (isAvailable (fst (destroy Fixtures.stub_instance))
                        Fixtures.world0)))
     = [{| bc_adapter := OPENAI; bc_text := lit "Hello";
           bc_from := LanguageCode.EN; bc_to := LanguageCode.ZH_CN |}].
Proof.
  apply (out_of_service_refuses_but_probes Fixtures.stub_instance
           (fst (destroy Fixtures.stub_instance)) Fixtures.hello_request
           Fixtures.world0).
  right. split; reflexivity.
Defined.

(** X9.  The availability check of the adapters costs exactly one
    backend call, a translation of 'Hello' from English to simplified
    Chinese, whatever the state of the translator; it answers [true]
    exactly when the backend returns a text that is not empty.  The call
    is made even when [translate] refuses that very request without
    calling the backend: a translator that is not initialized, or a
    language the adapter does not list. *)
Theorem isAvailable_bypasses_validation (t : Translator) (w : World) :
  backend_calls (effects (snd (isAvailable t w)))
  = backend_calls (effects w) ++ [probe_call t]
  /\ (fst (isAvailable t w) = true
      <-> exists result,
            doTranslate (adapter t) (backend_calls (effects w))
              (lit "Hello") LanguageCode.EN LanguageCode.ZH_CN
            = Returned result
            /\ result <> [])
  /\ (isInitialized t = false \/ invalid_request t (probe_request t) ->
      backend_calls (effects (snd (translate t (probe_request t) w)))
      = backend_calls (effects w)).
Proof.
  split; [apply isAvailable_calls|]. split.
  - unfold isAvailable.
    destruct (doTranslate _ _ _ _ _) as [result|e]; cbn [fst].
    + split.
      * intros Ht. exists result. split; [reflexivity|].
        intros ->. discriminate.
      * intros (result' & [= <-] & Hne). now destruct result.
    + split; [discriminate|]. intros (result & Heq & _). discriminate.
  - intros Hbad. unfold translate, translate_try.
    destruct (isInitialized t); cbn [negb]; [|reflexivity].
    destruct Hbad as [Hbad|Hbad]; [discriminate|].
    destruct (BaseTranslatorFacts.validateRequest_refuses _ _ Hbad) as [e ->].
    reflexivity.
Qed.

(** An adapter set up for Japanese and Korean: the probe goes out and
    is answered, the same request through [translate] is refused. *)
Lemma isAvailable_bypasses_validation_witness :
  isAvailable Fixtures.custom_instance Fixtures.world0
  = (true,
     log (BackendCalled
            {| bc_adapter := CUSTOM; bc_text := lit "Hello";
               bc_from := LanguageCode.EN; bc_to := LanguageCode.ZH_CN |})
       Fixtures.world0)
  /\ backend_calls
       (effects (snd (translate Fixtures.custom_instance
                        (probe_request Fixtures.custom_instance)
                        Fixtures.world0)))
     = [].
Proof.
  destruct (isAvailable_bypasses_validation Fixtures.custom_instance
              Fixtures.world0) as (_ & _ & Hrefused).
  split; [reflexivity|].
  apply Hrefused. right. unfold invalid_request. do 5 right. left.
  apply (bool_decide_unpack _). vm_compute. exact I.
Defined.

End TranslatorProps.


(* ================================================================== *)
(** * [HttpUtils.checkConnection] *)
(* ================================================================== *)

Module HttpProps.
Import Js HttpUtils.

(** X10.  [checkConnection] makes exactly one fetch and never waits or
    retries, whatever the endpoint does afterwards; it never throws.  It
    answers [true] exactly when that fetch resolves with a response
    whose body can be read and whose status is from 200 to 299: an
    answer 2xx whose body does not parse gives [false]. *)
Theorem checkConnection_single_attempt (ep : Endpoint) :
  checkConnection ep
  = Some (match ep 0%nat with
          | Responded r =>
              match fetched_body r with
              | Returned _ =>
                  (200 <=? fetched_status r) && (fetched_status r <? 300)
              | Threw _ => false
              end
          | Failed _ => false
          end, [Fetch 0]).
Proof.
  unfold checkConnection, get, request, config_retries, config_retryDelay,
    config_validateStatus.
  cbn [retries retryDelay validateStatus default from_option].
  unfold Datatypes.id.
  change (Z.to_nat (0 + 1)) with 1%nat.
  cbn [request_loop]. change (0 <=? 0) with true. cbv iota.
  change (Z.to_nat 0) with 0%nat. unfold attempt_once.
  destruct (ep 0%nat) as [r|e]; [|reflexivity].
  destruct (fetched_body r) as [body|e]; [|reflexivity].
  unfold defaultValidateStatus.
  destruct ((200 <=? fetched_status r) && (fetched_status r <? 300));
    reflexivity.
Qed.

(** An answer 200 whose body does not parse. *)
Lemma checkConnection_single_attempt_witness :
  checkConnection (fun _ => Responded Fixtures.unreadable_200)
  = Some (false, [Fetch 0]).
Proof.
  exact (checkConnection_single_attempt
           (fun _ => Responded Fixtures.unreadable_200)).
Defined.

End HttpProps.


(* ================================================================== *)
(** * [ContentTranslationService]: detection, history, batches of requests *)
(* ================================================================== *)

Module ServiceProps.
Import Js BaseTranslator ContentTranslationService JsMapFacts CacheFacts
  BaseTranslatorFacts ServiceFacts TemplateSpec ServiceSpec ServiceTerms.

Lemma has_in_range_app lo hi (p q : jsstring) :
  has_in_range lo hi (p ++ q) = has_in_range lo hi p || has_in_range lo hi q.
Proof. unfold has_in_range. apply existsb_app. Qed.

Lemma has_in_range_below lo hi (text : jsstring) :
  Forall (fun c => c < lo) text -> has_in_range lo hi text = false.
Proof.
  intros Hall. unfold has_in_range.
  induction Hall as [|c r Hc _ IH]; [reflexivity|].
  cbn [existsb]. rewrite IH.
  destruct (Z.leb_spec lo c); [lia|reflexivity].
Qed.

(** X11.  [detectLanguage] answers with one of six language codes and
    never with [auto].  One CJK ideograph anywhere in the text makes the
    answer [zh-CN], whatever else the text holds, kana included; a text
    with no code unit from U+0400 on, the empty text included, is
    [en]. *)
Theorem detectLanguage_precedence (text : jsstring) :
  ValidationUtils.validateLanguageCode (detectLanguage text) = true
  /\ detectLanguage text <> LanguageCode.AUTO
  /\ (forall p c q, text = p ++ c :: q -> 19968 <= c <= 40959 ->
        detectLanguage text = LanguageCode.ZH_CN)
  /\ (Forall (fun c => c < 1024) text -> detectLanguage text = LanguageCode.EN).
Proof.
  split; [|split; [|split]].
  - unfold detectLanguage.
    repeat match goal with
           | |- context [if ?b then _ else _] => destruct b
           end; vm_compute; reflexivity.
  - unfold detectLanguage.
    repeat match goal with
           | |- context [if ?b then _ else _] => destruct b
           end; vm_compute; discriminate.
  - intros p c q -> Hc. unfold detectLanguage.
    rewrite has_in_range_app. unfold has_in_range at 2. cbn [existsb].
    destruct (Z.leb_spec 19968 c); [|lia].
    destruct (Z.leb_spec c 40959); [|lia].
    cbn [andb orb]. now rewrite orb_true_r.
  - intros Hall. unfold detectLanguage.
    rewrite !has_in_range_below; [reflexivity|..];
      (eapply Forall_impl; [exact Hall|]); cbn; intros; lia.
Qed.

(** Japanese with a kanji is taken for Chinese. *)
Lemma detectLanguage_precedence_witness :
  detectLanguage [26085; 26412; 35486; 12391; 12377] = LanguageCode.ZH_CN
  /\ detectLanguage (lit "Hello, world!") = LanguageCode.EN.
Proof.
  split.
  - apply (proj1 (proj2 (proj2 (detectLanguage_precedence
                                  [26085; 26412; 35486; 12391; 12377])))
             [] 26085 [26412; 35486; 12391; 12377]).
    + reflexivity.
    + lia.
  - apply (proj2 (proj2 (proj2 (detectLanguage_precedence
                                  (lit "Hello, world!"))))).
    vm_compute. repeat constructor.
Defined.

Lemma slice_last_length {A} (n : nat) (l : list A) :
  (length (slice_last n l) <= n)%nat.
Proof. unfold slice_last. rewrite length_drop. lia. Qed.

Lemma history_push_spec (x : TranslationHistory) (h : list TranslationHistory) :
  history_push x h = drop (length h + 1 - maxHistorySize) h ++ [x].
Proof.
  unfold history_push, slice_last, maxHistorySize.
  rewrite length_app. cbn [length].
  case_bool_decide as Hlen.
  - rewrite drop_app_le by lia. reflexivity.
  - replace (length h + 1 - 1000)%nat with 0%nat by lia. reflexivity.
Qed.

(** X12.  Whatever the length of the history before, after [addToHistory]
    it has at most 1000 entries; the new entry is the last one, the
    entries before it are the newest of the old ones in their order, and
    nothing is dropped while there is room. *)
Theorem addToHistory_bounded
    (response : TranslationResponse) (tr : TranslatorType) (s : Sys) :
  let h := translationHistory s in
  let h' := translationHistory (snd (addToHistory response tr s)) in
  let x := history_item (entropy (world s) (draws (world s))) response tr in
  (length h' <= maxHistorySize)%nat
  /\ h' = drop (length h + 1 - maxHistorySize) h ++ [x]
  /\ ((length h < maxHistorySize)%nat -> h' = h ++ [x]).
Proof.
  intros h h' x. subst h'. rewrite addToHistory_spec.
  cbn [snd translationHistory set_history]. fold x.
  cbn [translationHistory set_world]. fold h.
  rewrite history_push_spec. split; [|split; [reflexivity|]].
  - rewrite length_app, length_drop. cbn [length]. unfold maxHistorySize. lia.
  - intros Hlt. replace (length h + 1 - maxHistorySize)%nat with 0%nat by lia.
    reflexivity.
Qed.

Lemma addToHistory_bounded_witness :
  translationHistory
    (snd (addToHistory Fixtures.hello_response OPENAI Fixtures.sys0))
  = [history_item (lit "r0") Fixtures.hello_response OPENAI].
Proof.
  apply (proj2 (proj2 (addToHistory_bounded Fixtures.hello_response OPENAI
                         Fixtures.sys0))).
  vm_compute. lia.
Defined.

Lemma addToHistory_history response tr s :
  translationHistory (snd (addToHistory response tr s))
  = drop (length (translationHistory s) + 1 - maxHistorySize)
      (translationHistory s)
    ++ [history_item (entropy (world s) (draws (world s))) response tr].
Proof.
  rewrite addToHistory_spec. cbn [snd translationHistory set_history].
  apply history_push_spec.
Qed.

(** X13.  [getTranslationHistory] lists the newest entry first: right
    after [addToHistory] the entry just added heads the list, with or
    without a limit.  A positive limit [n] gives the [n] newest entries
    (all of them when there are fewer); a limit of 0 gives the whole
    history, like no limit. *)
Theorem getTranslationHistory_newest_first
    (response : TranslationResponse) (tr : TranslatorType) (s : Sys) (n : Z) :
  0 <= n ->
  let s' := snd (addToHistory response tr s) in
  let x := history_item (entropy (world s) (draws (world s))) response tr in
  head (getTranslationHistory (Some n) s') = Some x
  /\ head (getTranslationHistory None s') = Some x
  /\ length (getTranslationHistory (Some n) s')
     = (if n =? 0 then length (translationHistory s')
        else Nat.min (Z.to_nat n) (length (translationHistory s')))
  /\ getTranslationHistory (Some 0) s' = getTranslationHistory None s'.
Proof.
  intros Hn s' x. unfold getTranslationHistory.
  assert (Hrev : exists older, rev (translationHistory s') = x :: older).
  { subst s'. rewrite addToHistory_history. fold x.
    rewrite rev_app_distr. cbn [rev app]. eauto. }
  destruct Hrev as [older Hrev].
  split; [|split; [|split; [|reflexivity]]].
  - destruct (Z.eqb_spec n 0) as [|Hne]; [now rewrite Hrev|].
    unfold slice0. destruct (Z.ltb_spec n 0); [lia|].
    rewrite Hrev. destruct (Z.to_nat n) eqn:Hz; [lia|]. reflexivity.
  - now rewrite Hrev.
  - destruct (Z.eqb_spec n 0) as [|Hne]; [apply length_rev|].
    unfold slice0. destruct (Z.ltb_spec n 0); [lia|].
    rewrite length_take, length_rev. reflexivity.
Qed.

Lemma getTranslationHistory_newest_first_witness :
  head (getTranslationHistory (Some 1)
          (snd (addToHistory Fixtures.hello_response OPENAI Fixtures.sys0)))
  = Some (history_item (lit "r0") Fixtures.hello_response OPENAI).
Proof.
  apply (getTranslationHistory_newest_first Fixtures.hello_response OPENAI
           Fixtures.sys0 1).
  lia.
Defined.

(** A response the body of [translateText] returns is a success. *)
Lemma translateText_try_success request s r s1 :
  translateText_try request s = (Returned r, s1) -> status r = success.
Proof.
  intros Heq. pose proof (translateText_try_path request s) as Hp.
  rewrite Heq in Hp.
  inversion Hp as [ | item Hi Hc Hg | | |
                  | c inst s2 response w Hi Hmiss Hcfg Hcreate Htr ]; subst.
  - reflexivity.
  - now apply translate_returns in Htr as [Hs _].
Qed.

Lemma translateText_answers request s :
  exists r s1, translateText request s = (Returned r, s1) /\ answers request r.
Proof.
  destruct (translateText_try request s) as [[r|e] s1] eqn:Heq.
  - exists r, s1. rewrite translateText_unfold, Heq. split; [reflexivity|].
    left. eapply translateText_try_success, Heq.
  - destruct (translateText_failure request s e s1 Heq)
      as (r & Hr & Hs & Ho & _ & Ht & _).
    exists r, s1. split; [exact Hr|]. right. auto.
Qed.

Lemma batchTranslate_loop_total (requests : list TranslationRequest) :
  forall (results : list TranslationResponse) (s : Sys),
  exists added s',
    batchTranslate_loop requests results s = (Returned (results ++ added), s')
    /\ in_sequence requests s added s'
    /\ Forall2 answers requests added.
Proof.
  induction requests as [|request rest IH]; intros results s.
  - exists [], s. cbn. rewrite app_nil_r.
    split; [reflexivity|]. split; constructor.
  - cbn [batchTranslate_loop]. unfold bind.
    destruct (translateText_answers request s) as (r & s1 & Heq & Hr).
    rewrite Heq.
    destruct (IH (results ++ [r]) s1) as (added & s' & -> & Hseq & Hall).
    exists (r :: added), s'. rewrite <- app_assoc. cbn [app].
    split; [reflexivity|]. split; [|now constructor].
    econstructor; eassumption.
Qed.

(** X14.  [batchTranslate] never throws.  The list it returns holds, at
    the index of each request, the response [translateText] gives to that
    request in the state the requests before it left: one response for
    each request, in their order.  Each is a success or an error that
    echoes the text and the target language of its request; a request
    that fails does not stop the ones after it. *)
Theorem batchTranslate_one_response_each
    (requests : list TranslationRequest) (s : Sys) :
  exists responses s',
    batchTranslate requests s = (Returned responses, s')
    /\ in_sequence requests s responses s'
    /\ length responses = length requests
    /\ Forall2 answers requests responses.
Proof.
  unfold batchTranslate, try_catch.
  destruct (batchTranslate_loop_total requests [] s)
    as (added & s' & -> & Hseq & Hall).
  exists added, s'. split; [reflexivity|]. split; [exact Hseq|].
  split; [|exact Hall].
  symmetry. eapply Forall2_length, Hall.
Qed.

(** Two requests and a refused one between them: the translations
    come back at the indices of their requests. *)
Lemma batchTranslate_one_response_each_witness :
  exists responses s',
    batchTranslate [Fixtures.hello_request; Fixtures.french_request;
                    Fixtures.aa_request] Fixtures.sys0
    = (Returned responses, s')
    /\ (status <$> responses) = [success; error; success]
    /\ (translatedText <$> responses)
       = [[20320; 22909]; []; lit "[zh-CN] Aa"].
Proof.
  destruct (batchTranslate_one_response_each
              [Fixtures.hello_request; Fixtures.french_request;
               Fixtures.aa_request] Fixtures.sys0)
    as (responses & s' & Heq & _).
  exists responses, s'. split; [exact Heq|].
  assert (Hr : fst (batchTranslate
                      [Fixtures.hello_request; Fixtures.french_request;
                       Fixtures.aa_request] Fixtures.sys0)
               = Returned responses) by (by rewrite Heq).
  vm_compute in Hr. injection Hr as <-. split; reflexivity.
Defined.

Lemma fingerprint_collision s request1 request2 p q a b a' b' :
  31 * a + b = 31 * a' + b' ->
  req_text request1 = p ++ [a; b] ++ q ->
  req_text request2 = p ++ [a'; b'] ++ q ->
  req_sourceLang request2 = req_sourceLang request1 ->
  req_targetLang request2 = req_targetLang request1 ->
  req_translator request2 = req_translator request1 ->
  fingerprint s request2 = fingerprint s request1.
Proof.
  intros Heq H1 H2 Hs Ht Htr. unfold fingerprint, generateTextHash.
  rewrite H1, H2, Hs, Ht, Htr. rewrite <- !app_assoc.
  unfold CryptoUtils.hash. rewrite !length_app. cbn [length].
  destruct (bool_decide _); [reflexivity|].
  do 2 f_equal.
  rewrite !fold_left_app. cbn [fold_left].
  now rewrite !CryptoProps.hash_two_steps, Heq.
Qed.

Lemma backend_calls_lookup (l : list Effect) (h : jsstring) :
  backend_calls (l ++ [CacheLookup h]) = backend_calls l.
Proof. induction l as [|[] l IH]; cbn; by rewrite ?IH. Qed.

(** X15.  The cache cannot tell apart two texts whose fingerprints
    collide.  With caching enabled, after a successful translation of a
    text, a request for another text that differs from it in a pair of
    code units [a b] / [a' b'] with [31 * a + b = 31 * a' + b'], with
    the same languages and translator, is answered from the cache with
    the translation of the first text, and the backend is not called. *)
Theorem colliding_text_gets_other_translation
    (request1 request2 : TranslationRequest) (s : Sys)
    (r1 : TranslationResponse) (s1 : Sys) (p q : jsstring) (a b a' b' : Z) :
  enableCache (advanced (settings s)) = true ->
  translateText request1 s = (Returned r1, s1) ->
  status r1 = success ->
  31 * a + b = 31 * a' + b' ->
  req_text request1 = p ++ [a; b] ++ q ->
  req_text request2 = p ++ [a'; b'] ++ q ->
  req_sourceLang request2 = req_sourceLang request1 ->
  req_targetLang request2 = req_targetLang request1 ->
  req_translator request2 = req_translator request1 ->
  exists r2 s2,
    translateText request2 s1 = (Returned r2, s2)
    /\ status r2 = success
    /\ translatedText r2 = translatedText r1
    /\ backend_calls (effects (world s2)) = backend_calls (effects (world s1)).
Proof.
  intros Hc Heq Hs Hab H1 H2 Hsl Htl Htr.
  destruct (success_is_cached request1 s r1 s1 Hc Heq Hs)
    as (Hi & Hset & item & Hg & Htext).
  assert (Hfp : fingerprint s1 request2 = fingerprint s request1).
  { transitivity (fingerprint s request2).
    - unfold fingerprint. now rewrite Hset.
    - eapply fingerprint_collision; eassumption. }
  eexists _, _. split.
  { apply translateText_hit with (item := item).
    - exact Hi.
    - now rewrite Hset.
    - rewrite Hfp. exact Hg. }
  cbn [status translatedText response_of_item world set_world effects log].
  split; [reflexivity|]. split; [exact Htext|].
  apply backend_calls_lookup.
Qed.

(** ['Aa'], then ['BB']: the second request gets the translation of
    the first. *)
Lemma colliding_text_gets_other_translation_witness :
  exists r1 s1 r2 s2,
    translateText Fixtures.aa_request Fixtures.sys0 = (Returned r1, s1)
    /\ translateText Fixtures.bb_request s1 = (Returned r2, s2)
    /\ translatedText r2 = translatedText r1
    /\ backend_calls (effects (world s2)) = backend_calls (effects (world s1)).
Proof.
  destruct (translateText Fixtures.aa_request Fixtures.sys0) as [o s1] eqn:Heq.
  assert (Ho : exists r1, o = Returned r1 /\ status r1 = success).
  { replace o with (fst (translateText Fixtures.aa_request Fixtures.sys0))
      by (by rewrite Heq).
    vm_compute. eexists. split; reflexivity. }
  destruct Ho as (r1 & -> & Hs).
  destruct (colliding_text_gets_other_translation
              Fixtures.aa_request Fixtures.bb_request Fixtures.sys0 r1 s1
              [] [] 65 97 66 66
              eq_refl Heq Hs eq_refl eq_refl eq_refl eq_refl eq_refl eq_refl)
    as (r2 & s2 & H2 & _ & Ht & Hb).
  exists r1, s1, r2, s2. repeat split; assumption.
Defined.

Lemma get_absent_keys {V} (k : jsstring) (m : list (jsstring * V)) :
  JsMap.get k m = None <-> k ∉ JsMap.keys m.
Proof.
  unfold JsMap.keys. induction m as [|[k0 v0] m IH]; cbn.
  - split; [intros _; apply not_elem_of_nil|reflexivity].
  - rewrite not_elem_of_cons.
    destruct (Js.eqb k k0) eqn:E.
    + apply eqb_true in E. split; [discriminate|intros [? _]; contradiction].
    + apply eqb_false in E. rewrite IH. tauto.
Qed.

Lemma cache_from_array_app (c : list (jsstring * TranslationCacheItem)) :
  forall acc,
    NoDup (JsMap.keys (acc ++ c)) ->
    Forall (fun kv => fst kv = ci_hash (snd kv)) c ->
    fold_left (fun m item => JsMap.set (ci_hash item) item m) (snd <$> c) acc
    = acc ++ c.
Proof.
  induction c as [|[k v] c IH]; intros acc Hnd Hall.
  - cbn. now rewrite app_nil_r.
  - apply Forall_cons in Hall as [Hk Hall]. cbn in Hk. subst k.
    cbn [fmap list_fmap fold_left snd].
    assert (Hfree : JsMap.get (ci_hash v) acc = None).
    { apply get_absent_keys. unfold JsMap.keys in *.
      rewrite fmap_app in Hnd. apply NoDup_app in Hnd as (_ & Hdisj & _).
      intros Hin. apply (Hdisj _ Hin). cbn. left. }
    rewrite (set_absent _ _ _ Hfree).
    rewrite IH; [now rewrite <- app_assoc| |exact Hall].
    now rewrite <- app_assoc.
Qed.

Lemma keyed_set (c : list (jsstring * TranslationCacheItem)) item :
  keyed_by_hash c -> keyed_by_hash (JsMap.set (ci_hash item) item c).
Proof.
  intros [Hnd Hall]. unfold keyed_by_hash.
  destruct (JsMap.get (ci_hash item) c) as [old|] eqn:Hg.
  - rewrite (set_keys_present _ _ _ _ Hg). split; [exact Hnd|].
    clear Hnd. induction c as [|[k v] c IH]; [discriminate|].
    apply Forall_cons in Hall as [Hk Hall]. cbn in Hg |- *.
    destruct (Js.eqb (ci_hash item) k) eqn:E.
    + apply eqb_true in E. constructor; [now cbn|exact Hall].
    + constructor; [exact Hk|now apply IH].
  - rewrite (set_absent _ _ _ Hg). unfold JsMap.keys. rewrite fmap_app.
    split.
    + apply NoDup_app. split; [exact Hnd|]. split.
      * intros k Hin Hk. cbn in Hk. apply list_elem_of_singleton in Hk.
        subst k. now apply get_absent_keys in Hg.
      * apply NoDup_singleton.
    + apply Forall_app. split; [exact Hall|]. now constructor.
Qed.

Lemma keyed_cache_put (c : list (jsstring * TranslationCacheItem)) item :
  keyed_by_hash c -> keyed_by_hash (cache_put (ci_hash item) item c).
Proof.
  intros Hk. apply (keyed_set c item) in Hk. unfold cache_put.
  destruct (bool_decide _); [|exact Hk].
  destruct (JsMap.set (ci_hash item) item c) as [|[k0 v0] c1];
    [exact Hk|].
  cbn [JsMap.first_key]. rewrite delete_head.
  destruct Hk as [Hnd Hall]. split.
  - now apply NoDup_cons in Hnd as [_ Hnd].
  - now apply Forall_cons in Hall as [_ Hall].
Qed.

(** X16.  The cache survives a save and a load.  Every cache the service
    builds holds each item under the item's own [hash], once; for such
    a cache the array [saveTranslationCache] writes, turned back into
    a map as [loadTranslationCache] does, is the same cache, entries and
    insertion order alike.  [cacheTranslation] keeps a cache of this
    kind. *)
Theorem cache_survives_save_and_load
    (text : jsstring) (response : TranslationResponse) (tr : TranslatorType)
    (s : Sys) :
  keyed_by_hash (translationCache s) ->
  cache_from_array (cache_to_array (translationCache s)) = translationCache s
  /\ keyed_by_hash
       (translationCache (snd (cacheTranslation text response tr s))).
Proof.
  intros Hk. split.
  - destruct Hk as [Hnd Hall]. unfold cache_from_array, cache_to_array.
    now rewrite cache_from_array_app.
  - rewrite cacheTranslation_cache.
    apply (keyed_cache_put (translationCache s) (item_of text response tr s)).
    exact Hk.
Qed.

Lemma cache_survives_save_and_load_witness :
  let s := snd (cacheTranslation (lit "Hello") Fixtures.hello_response OPENAI
                  Fixtures.sys0) in
  cache_from_array (cache_to_array (translationCache s)) = translationCache s.
Proof.
  assert (Hempty : keyed_by_hash (translationCache Fixtures.sys0)).
  { split; [apply NoDup_nil_2|apply Forall_nil_2]. }
  pose proof (proj2 (cache_survives_save_and_load (lit "Hello")
                       Fixtures.hello_response OPENAI Fixtures.sys0 Hempty))
    as Hk.
  exact (proj1 (cache_survives_save_and_load (lit "Hello")
                  Fixtures.hello_response OPENAI _ Hk)).
Defined.

End ServiceProps.


(* ================================================================== *)
(** * Batch tasks: final states, setup failures, progress *)
(* ================================================================== *)

Module BatchProps.
Import Js BaseTranslator BatchTranslation JsMapFacts BaseTranslatorFacts
  ServiceFacts BatchFacts TemplateSpec ServiceSpec BatchSpec BatchTerms
  ScheduleSpec.

(** X17.  [completed] is final.  Once a task is completed and its
    executor has returned, nothing that can happen afterwards, to this
    task or to another, changes the task: resuming has no effect, and
    [cancelBatchTranslation] refuses and leaves status, results and
    errors as they are. *)
Theorem completed_is_final (id : jsstring) (task : BatchTranslationTask)
    (es : list Occurrence) :
  forall m : Machine,
    JsMap.get id (batchTasks (sys m)) = Some task ->
    task_status task = task_completed ->
    JsMap.get id (executors m) = Some Resolved ->
    JsMap.get id (batchTasks (sys (run es m))) = Some task
    /\ JsMap.get id (executors (run es m)) = Some Resolved
    /\ fst (cancelBatchTranslation id (run es m)) = false.
Proof.
  induction es as [|e es IH]; intros m Hg Hs Hex.
  - cbn [run fold_left]. split; [exact Hg|]. split; [exact Hex|].
    unfold cancelBatchTranslation. rewrite Hg, Hs.
    now rewrite bool_decide_eq_true_2.
  - rewrite run_cons.
    destruct (decide (subject e = id)) as [Heq|Hne].
    + assert (Hstep : step e m = m).
      { destruct e as [id'|id']; cbn [subject] in Heq; subst id'; cbn [step].
        - unfold resume. now rewrite Hex.
        - unfold cancelBatchTranslation. rewrite Hg, Hs.
          now rewrite bool_decide_eq_true_2. }
      rewrite Hstep. now apply IH.
    + destruct (step_other e m id Hne) as [Ht Hk].
      apply IH; [now rewrite Ht|exact Hs|now rewrite Hk].
Qed.

(** The batch of three chunks, once completed, is cancelled and
    resumed: it stays completed. *)
Lemma completed_is_final_witness :
  status_of Fixtures.three_chunks_id
    (run [Cancel Fixtures.three_chunks_id; Resume Fixtures.three_chunks_id]
       Fixtures.three_chunks_done)
  = Some task_completed
  /\ fst (cancelBatchTranslation Fixtures.three_chunks_id
            (run [Cancel Fixtures.three_chunks_id;
                  Resume Fixtures.three_chunks_id]
               Fixtures.three_chunks_done)) = false.
Proof.
  assert (Hg : exists task,
    JsMap.get Fixtures.three_chunks_id
      (batchTasks (sys Fixtures.three_chunks_done)) = Some task
    /\ task_status task = task_completed).
  { vm_compute. eexists. split; reflexivity. }
  destruct Hg as (task & Hg & Hs).
  assert (Hex : JsMap.get Fixtures.three_chunks_id
                  (executors Fixtures.three_chunks_done) = Some Resolved).
  { vm_compute. reflexivity. }
  destruct (completed_is_final Fixtures.three_chunks_id task
              [Cancel Fixtures.three_chunks_id;
               Resume Fixtures.three_chunks_id]
              Fixtures.three_chunks_done Hg Hs Hex) as (Ht & _ & Hc).
  split; [|exact Hc].
  unfold status_of. rewrite Ht. cbn [fmap option_fmap option_map].
  now rewrite Hs.
Defined.

Lemma start_unconfigured txts from to tr m id m1 :
  translators_cfg (settings (sys m)) tr = None ->
  startBatchTranslation txts from to tr m = (id, m1) ->
  (exists task,
      JsMap.get id (batchTasks (sys m1)) = Some task
      /\ failed_at_setup (not_configured tr) task)
  /\ JsMap.get id (executors m1) = Some (Rejected (not_configured tr))
  /\ effects (world (sys m1)) = effects (world (sys m)).
Proof.
  intros Hcfg. unfold startBatchTranslation.
  destruct (draw (world (sys m))) as [taskId w1] eqn:Hdraw.
  set (task := {| task_id := taskId; texts := txts |}).
  set (s1 := set_tasks _ _).
  unfold execute_begin.
  assert (Hg : JsMap.get taskId (batchTasks s1) = Some task).
  { subst s1. cbn. apply get_set_eq. }
  rewrite Hg.
  set (s2 := with_task taskId _ s1).
  assert (Hset : settings s2 = settings (sys m)) by reflexivity.
  rewrite Hset. cbn [task_translator task]. rewrite Hcfg.
  intros [= <- <-]. cbn [sys executors].
  split; [|split].
  - unfold on_rejected, with_task. cbn [batchTasks set_tasks].
    rewrite get_alter_eq. subst s2. unfold with_task.
    cbn [batchTasks set_tasks]. rewrite get_alter_eq, Hg.
    cbn [fmap option_fmap option_map]. eexists. split; [reflexivity|].
    unfold failed_at_setup, not_configured. cbn. auto.
  - apply get_set_eq.
  - unfold draw in Hdraw. injection Hdraw as _ <-. reflexivity.
Qed.

(** X18.  A batch started for a translator that has no configuration
    never translates anything.  [startBatchTranslation] still returns a
    task id, but the task has failed at once with the error 'Translator
    ... not configured' and no backend call; whatever happens afterwards
    it stays failed with no results, and that error stays first. *)
Theorem unconfigured_batch_never_runs
    (txts : list jsstring) (from to : jsstring) (tr : TranslatorType)
    (m : Machine) (id : jsstring) (m1 : Machine) (es : list Occurrence) :
  translators_cfg (settings (sys m)) tr = None ->
  startBatchTranslation txts from to tr m = (id, m1) ->
  effects (world (sys m1)) = effects (world (sys m))
  /\ exists task,
       JsMap.get id (batchTasks (sys (run es m1))) = Some task
       /\ failed_at_setup (not_configured tr) task.
Proof.
  intros Hcfg Hstart.
  destruct (start_unconfigured _ _ _ _ _ _ _ Hcfg Hstart)
    as ((task & Hg & Hf) & Hex & Heff).
  split; [exact Heff|].
  clear Hstart Heff Hcfg. revert m1 task Hg Hf Hex.
  induction es as [|e es IH]; intros m1 task Hg Hf Hex.
  - exists task. auto.
  - rewrite run_cons.
    destruct (decide (subject e = id)) as [Heq|Hne].
    + destruct e as [id'|id']; cbn [subject] in Heq; subst id'; cbn [step].
      * unfold resume. rewrite Hex. eapply IH; eassumption.
      * unfold cancelBatchTranslation. rewrite Hg.
        destruct Hf as (Hs & Hr & Hh).
        rewrite bool_decide_eq_false_2 by (rewrite Hs; discriminate).
        cbn [snd].
        eapply IH; [| |exact Hex].
        -- unfold with_task. cbn [sys batchTasks set_tasks].
           rewrite get_alter_eq, Hg. reflexivity.
        -- unfold failed_at_setup. cbn. split; [reflexivity|].
           split; [exact Hr|].
           destruct (task_errors task); [discriminate|exact Hh].
    + destruct (step_other e m1 id Hne) as [Ht Hk].
      eapply IH; [rewrite Ht; exact Hg|exact Hf|now rewrite Hk].
Qed.

(** A batch for the custom translator, which the settings do not
    configure. *)
Lemma unconfigured_batch_never_runs_witness :
  let started :=
    startBatchTranslation Fixtures.three_chunks LanguageCode.EN
      LanguageCode.ZH_CN CUSTOM Fixtures.machine0 in
  exists task,
    JsMap.get (fst started)
      (batchTasks (sys (run [Resume (fst started); Cancel (fst started)]
                          (snd started)))) = Some task
    /\ failed_at_setup (not_configured CUSTOM) task.
Proof.
  intros started.
  apply (unconfigured_batch_never_runs Fixtures.three_chunks LanguageCode.EN
           LanguageCode.ZH_CN CUSTOM Fixtures.machine0 (fst started)
           (snd started) [Resume (fst started); Cancel (fst started)]).
  - reflexivity.
  - apply surjective_pairing.
Defined.

(** X19.  A batch whose translator was created and which is not
    cancelled ends, once its executor has been resumed once more than it
    has texts, whatever happens to other tasks in between, completed and
    with its progress at 100 when it has at least one text; a batch with
    no text completes at its first step with its progress still 0.  (The
    progress is the fraction the pair stands for.) *)
Theorem progress_of_completed_batch
    (txts : list jsstring) (from to : jsstring) (tr : TranslatorType)
    (m0 : Machine) (id : jsstring) (m1 : Machine) (inst : Translator)
    (es : list Occurrence) :
  startBatchTranslation txts from to tr m0 = (id, m1) ->
  JsMap.get id (executors m1) = Some (AwaitCreate (Returned inst)) ->
  uncancelled id es ->
  (S (length txts) <= resumptions id es)%nat ->
  exists task,
    JsMap.get id (batchTasks (sys (run es m1))) = Some task
    /\ task_status task = task_completed
    /\ progress task
       = match txts with
         | [] => (0, 1)
         | _ :: _ => (Z.of_nat (length txts) * 100, Z.of_nat (length txts))
         end.
Proof.
  intros Hstart Hex Hun Hres.
  destruct (started_stage _ _ _ _ _ _ _ _ Hstart Hex)
    as (task0 & _ & Ht0 & _ & _ & _ & _ & _ & _ & Hst).
  pose proof (run_stage inst task0 id es m1 _ Hst Hun) as Hend.
  replace (S (length txts) - resumptions id es)%nat with 0%nat in Hend
    by lia.
  destruct Hend as (task & os & Hg & Hset & Hk).
  destruct Hset as (_ & _ & _ & _ & _ & _ & _ & _ & Hp).
  destruct (JsMap.get id (executors (run es m1)))
    as [[[inst'|e]|i inst' o| |e]|]; try done.
  - destruct Hk as (_ & _ & _ & Hneed). discriminate.
  - destruct Hk as (_ & -> & _ & (text & Htext & _) & Hneed).
    apply lookup_lt_Some in Htext. lia.
  - destruct Hk as (Hlo & Hs & _). rewrite Ht0 in *.
    exists task. split; [exact Hg|]. split; [exact Hs|].
    rewrite Hp. destruct os, txts; cbn in Hlo; try discriminate;
      [reflexivity|]. cbn [length]. by rewrite Hlo.
Qed.

(** The batch of three chunks, resumed between occurrences that
    concern another task, and the batch with no text. *)
Lemma progress_of_completed_batch_witness :
  (exists task,
      JsMap.get Fixtures.three_chunks_id
        (batchTasks
           (sys (run [Resume Fixtures.three_chunks_id; Cancel (lit "other");
                      Resume Fixtures.three_chunks_id;
                      Resume Fixtures.three_chunks_id;
                      Resume Fixtures.three_chunks_id]
                   Fixtures.three_chunks_started))) = Some task
      /\ task_status task = task_completed
      /\ progress task = (300, 3))
  /\ (let started :=
        startBatchTranslation [] LanguageCode.EN LanguageCode.ZH_CN OPENAI
          Fixtures.machine0 in
      exists task,
        JsMap.get (fst started)
          (batchTasks (sys (run [Resume (fst started)] (snd started))))
        = Some task
        /\ task_status task = task_completed
        /\ progress task = (0, 1)).
Proof.
  split.
  - assert (Hex : exists inst,
      JsMap.get Fixtures.three_chunks_id
        (executors Fixtures.three_chunks_started)
      = Some (AwaitCreate (Returned inst))).
    { vm_compute. eexists. reflexivity. }
    destruct Hex as [inst Hex].
    apply (progress_of_completed_batch Fixtures.three_chunks LanguageCode.EN
             LanguageCode.ZH_CN OPENAI Fixtures.machine0
             Fixtures.three_chunks_id Fixtures.three_chunks_started inst
             _ (surjective_pairing _) Hex).
    + apply (bool_decide_unpack _). vm_compute. exact I.
    + vm_compute. lia.
  - intros started.
    assert (Hex : exists inst,
      JsMap.get (fst started) (executors (snd started))
      = Some (AwaitCreate (Returned inst))).
    { vm_compute. eexists. reflexivity. }
    destruct Hex as [inst Hex].
    apply (progress_of_completed_batch [] LanguageCode.EN LanguageCode.ZH_CN
             OPENAI Fixtures.machine0 (fst started) (snd started) inst
             [Resume (fst started)] (surjective_pairing started) Hex).
    + apply (bool_decide_unpack _). vm_compute. exact I.
    + vm_compute. lia.
Defined.

End BatchProps.


(* ================================================================== *)
(** * [TranslatorFactory]: unregistering, cleaning up, reinitializing *)
(* ================================================================== *)

Module FactoryProps.
Import Js BaseTranslator TranslatorFactory JsMapFacts FactoryFacts
  FactorySpec FactoryTerms.

Lemma get_app_first {V} (k : jsstring) (p l : list (jsstring * V)) :
  JsMap.get k p = None -> JsMap.get k (p ++ l) = JsMap.get k l.
Proof.
  induction p as [|[k0 v0] p IH]; cbn; [reflexivity|].
  destruct (Js.eqb k k0); [discriminate|exact IH].
Qed.

Lemma delete_app_first {V} (k : jsstring) (p l : list (jsstring * V)) :
  JsMap.get k p = None -> JsMap.delete k (p ++ l) = p ++ JsMap.delete k l.
Proof.
  induction p as [|[k0 v0] p IH]; cbn; [reflexivity|].
  destruct (Js.eqb k k0); [discriminate|]. intros H. now rewrite IH.
Qed.

(** Destroying the selected ids of [l], in order, keeps the entries
    that stay. *)
Lemma destroy_selected (selected : jsstring -> bool)
    (l : list (jsstring * Translator)) :
  forall p,
    NoDup (JsMap.keys (p ++ l)) ->
    fold_left (fun i key => destroy_one key i)
      (List.filter selected (JsMap.keys l)) (p ++ l)
    = p ++ List.filter (stays selected) l.
Proof.
  induction l as [|[k v] l IH]; intros p Hnd; [reflexivity|].
  assert (Hfree : JsMap.get k p = None).
  { apply ServiceProps.get_absent_keys. unfold JsMap.keys in *.
    rewrite fmap_app in Hnd. apply NoDup_app in Hnd as (_ & Hdisj & _).
    intros Hin. apply (Hdisj _ Hin). cbn. left. }
  assert (Hnd1 : NoDup (JsMap.keys (p ++ l))).
  { unfold JsMap.keys in *. rewrite fmap_app in *. cbn in Hnd.
    apply NoDup_app in Hnd as (Hp & Hdisj & Hl).
    apply NoDup_cons in Hl as [_ Hl].
    apply NoDup_app. split; [exact Hp|]. split; [|exact Hl].
    intros x Hx Hin. apply (Hdisj x Hx). now right. }
  assert (Hnd2 : NoDup (JsMap.keys ((p ++ [(k, v)]) ++ l))).
  { now rewrite <- app_assoc. }
  change (JsMap.keys ((k, v) :: l)) with (k :: JsMap.keys l).
  cbn [List.filter]. unfold stays at 1. cbn [fst snd].
  destruct (selected k) eqn:Hsel; cbn [andb negb].
  - cbn [fold_left]. unfold destroy_one at 2.
    rewrite (get_app_first _ _ _ Hfree). cbn [JsMap.get].
    rewrite eqb_refl.
    destruct (destroyable v) eqn:Hd; cbn [negb].
    + rewrite (delete_app_first _ _ _ Hfree), delete_head.
      now apply IH.
    + change (p ++ (k, v) :: l) with (p ++ [(k, v)] ++ l).
      rewrite app_assoc. rewrite (IH _ Hnd2). now rewrite <- app_assoc.
  - change (p ++ (k, v) :: l) with (p ++ [(k, v)] ++ l).
    rewrite app_assoc. rewrite (IH _ Hnd2). now rewrite <- app_assoc.
Qed.

Lemma destroyInstance_instances key s :
  instances (factory (snd (destroyInstance key s)))
  = destroy_one key (instances (factory s))
  /\ translators (factory (snd (destroyInstance key s)))
     = translators (factory s).
Proof.
  unfold destroyInstance, destroy_one, destroyable, bind, get_state.
  cbn [fst snd].
  destruct (JsMap.get key (instances (factory s))) as [inst|];
    [|split; reflexivity].
  unfold destroy. destruct (doDestroy (adapter inst)) as [e|]; cbn [snd].
  - rewrite bool_decide_eq_false_2 by discriminate. split; reflexivity.
  - rewrite bool_decide_eq_true_2 by reflexivity. split; reflexivity.
Qed.

(** A loop of [destroyInstance] calls whose failures do not reach the
    loop. *)
Lemma for_each_destroy (shield : M unit -> M unit) :
  (forall c s, snd (shield c s) = snd (c s)) ->
  (forall c s, fst (shield c s) = Returned tt) ->
  forall keys s,
    fst (for_each keys (fun key => shield (destroyInstance key)) s)
    = Returned tt
    /\ instances
         (factory (snd (for_each keys
                          (fun key => shield (destroyInstance key)) s)))
       = fold_left (fun i key => destroy_one key i) keys
           (instances (factory s))
    /\ translators
         (factory (snd (for_each keys
                          (fun key => shield (destroyInstance key)) s)))
       = translators (factory s).
Proof.
  intros Hsnd Hfst. induction keys as [|key keys IH]; intros s.
  - cbn. auto.
  - cbn [for_each fold_left]. unfold bind.
    pose proof (Hsnd (destroyInstance key) s) as H1.
    pose proof (Hfst (destroyInstance key) s) as H2.
    destruct (shield (destroyInstance key) s) as [o s1].
    cbn [fst snd] in H1, H2. subst o s1.
    destruct (destroyInstance_instances key s) as [Hi Ht].
    destruct (IH (snd (destroyInstance key s))) as (Ha & Hb & Hc).
    rewrite Ha, Hb, Hc, Hi, Ht. auto.
Qed.

Lemma detached_state (c : M unit) (s : Sys) :
  snd (detached c s) = snd (c s).
Proof. reflexivity. Qed.

Lemma detached_returns (c : M unit) (s : Sys) :
  fst (detached c s) = Returned tt.
Proof. reflexivity. Qed.

Lemma shielded_state (c : M unit) (s : Sys) :
  snd (try_catch c (fun _ => ret tt) s) = snd (c s).
Proof. unfold try_catch, ret. now destruct (c s) as [[[]|e] s1]. Qed.

Lemma shielded_returns (c : M unit) (s : Sys) :
  fst (try_catch c (fun _ => ret tt) s) = Returned tt.
Proof. unfold try_catch, ret. now destruct (c s) as [[[]|e] s1]. Qed.

Lemma filter_all {A} (l : list A) : List.filter (fun _ => true) l = l.
Proof. induction l as [|x l IH]; cbn; [reflexivity|now rewrite IH]. Qed.

(** X20.  [unregisterTranslator] finds the instances of a type by the
    text of their id before the first underscore.  For a registered
    type it removes the registration and every instance whose id starts
    that way and whose [destroy] goes through; an instance stored under
    another id, such as one the caller chose, stays in the factory
    although its type is no longer registered.  For a type that is not
    registered nothing changes.  It never throws.  The [destroyInstance]
    calls are not awaited: the map of instances is the one left when
    they have settled. *)
Theorem unregisterTranslator_by_id_prefix (type : TranslatorType) (s : Sys) :
  NoDup (JsMap.keys (instances (factory s))) ->
  let s' := snd (unregisterTranslator type s) in
  fst (unregisterTranslator type s) = Returned tt
  /\ translators (factory s') = base.delete type (translators (factory s))
  /\ instances (factory s')
     = if isSupported type s
       then List.filter (stays (named_after type)) (instances (factory s))
       else instances (factory s).
Proof.
  intros Hnd s'. subst s'.
  unfold unregisterTranslator, isSupported, bind, get_state. cbn [fst snd].
  destruct (bool_decide (is_Some (translators (factory s) !! type))) eqn:Hreg;
    cbn [negb].
  2:{ unfold ret. cbn [fst snd]. split; [reflexivity|]. split; [|reflexivity].
      apply bool_decide_eq_false in Hreg.
      symmetry. apply delete_id.
      destruct (translators (factory s) !! type) eqn:E; [|reflexivity].
      exfalso. apply Hreg. eauto. }
  destruct (for_each_destroy detached detached_state detached_returns
              (List.filter (named_after type)
                 (JsMap.keys (instances (factory s)))) s)
    as (Hret & Hinst & Htr).
  unfold named_after in Hret, Hinst, Htr.
  destruct (for_each _ _ s) as [o s1]. cbn [fst snd] in Hret, Hinst, Htr.
  subst o. unfold modify. cbn [fst snd].
  split; [reflexivity|].
  cbn [factory set_translators set_factory translators instances].
  rewrite Htr, Hinst. split; [reflexivity|].
  apply (destroy_selected (named_after type) (instances (factory s)) []).
  exact Hnd.
Qed.

Lemma two_instances_distinct :
  NoDup (JsMap.keys (instances (factory Fixtures.sys_two_instances))).
Proof. apply (bool_decide_unpack _). vm_compute. exact I. Qed.

(** The instance under ['main'] outlives its type. *)
Lemma unregisterTranslator_by_id_prefix_witness :
  instances (factory (snd (unregisterTranslator OPENAI
                             Fixtures.sys_two_instances)))
  = [(lit "main", Fixtures.stub_instance)]
  /\ translators (factory (snd (unregisterTranslator OPENAI
                                  Fixtures.sys_two_instances)))
     !! OPENAI = None.
Proof.
  destruct (unregisterTranslator_by_id_prefix OPENAI
              Fixtures.sys_two_instances two_instances_distinct)
    as (_ & Htr & Hinst).
  split.
  - rewrite Hinst. reflexivity.
  - rewrite Htr. apply lookup_delete_eq.
Defined.

(** X21.  [cleanup] and the [destroyAllInstances] inside it never throw.
    Afterwards no type is registered, so that every
    [createTranslatorAsync] is refused with 'is not registered', and
    the instances left are exactly those whose [destroy] threw, in
    their order: none when every [destroy] goes through. *)
Theorem cleanup_leaves_nothing_registered (s : Sys) :
  NoDup (JsMap.keys (instances (factory s))) ->
  let s' := snd (cleanup s) in
  fst (cleanup s) = Returned tt
  /\ instances (factory s')
     = List.filter (fun kv => negb (destroyable (snd kv)))
         (instances (factory s))
  /\ (forall type config id,
        createTranslatorAsync type config id s'
        = (Threw (new_Error (lit "Translator type "
                               ++ TranslatorType_value type
                               ++ lit " is not registered")), s')).
Proof.
  intros Hnd s'. subst s'.
  unfold cleanup, destroyAllInstances, bind, get_state. cbn [fst snd].
  destruct (for_each_destroy (fun c => try_catch c (fun _ => ret tt))
              shielded_state shielded_returns
              (JsMap.keys (instances (factory s))) s)
    as (Hret & Hinst & Htr).
  destruct (for_each _ _ s) as [o s1]. cbn [fst snd] in Hret, Hinst, Htr.
  subst o. unfold modify. cbn [fst snd].
  split; [reflexivity|]. split.
  - cbn [factory set_translators set_factory instances]. rewrite Hinst.
    rewrite <- (filter_all (JsMap.keys (instances (factory s)))).
    apply (destroy_selected (fun _ => true) (instances (factory s)) []).
    exact Hnd.
  - intros type config id.
    apply createTranslatorAsync_not_registered.
    cbn [factory set_translators set_factory translators].
    apply lookup_empty.
Qed.

Lemma cleanup_leaves_nothing_registered_witness :
  instances (factory (snd (cleanup Fixtures.sys_two_instances))) = []
  /\ exists e,
       fst (createTranslatorAsync OPENAI Fixtures.openai_config None
              (snd (cleanup Fixtures.sys_two_instances))) = Threw e.
Proof.
  destruct (cleanup_leaves_nothing_registered Fixtures.sys_two_instances
              two_instances_distinct) as (_ & Hinst & Hcreate).
  split.
  - rewrite Hinst. reflexivity.
  - rewrite (Hcreate OPENAI Fixtures.openai_config None). eexists. reflexivity.
Defined.

(** X22.  [reinitializeInstance] on an id that is not in the factory
    throws 'Instance ... not found' and changes nothing.  On a stored
    instance whose [destroy] goes through but whose [initialize] then
    fails, it rethrows that failure and the instance stays in the
    factory, out of service: it refuses every request without calling
    the backend, although it worked before the call. *)
Theorem reinitializeInstance_failure_disables
    (id : jsstring) (config : option TranslatorConfig) (s : Sys) :
  (getInstance id s = None ->
   reinitializeInstance id config s
   = (Threw (new_Error (lit "Instance " ++ id ++ lit " not found")), s))
  /\ (forall inst inst' e,
        getInstance id s = Some inst ->
        doDestroy (adapter inst) = None ->
        initialize (fst (destroy inst)) config = (inst', Some e) ->
        exists s',
          reinitializeInstance id config s = (Threw e, s')
          /\ getInstance id s' = Some inst'
          /\ isInitialized inst' = false
          /\ forall request w,
               exists err, translate inst' request w = (Threw err, w)).
Proof.
  unfold getInstance. split.
  - intros Hg. unfold reinitializeInstance, bind, get_state. cbn [fst snd].
    now rewrite Hg.
  - intros inst inst' e Hg Hd Hinit.
    assert (Hoff : isInitialized inst' = false).
    { revert Hinit. unfold destroy. rewrite Hd. cbn [fst].
      unfold initialize. cbn [adapter BaseTranslator.config isInitialized].
      destruct (negb _); [now intros [= <- _]|].
      destruct (doInitialize _ _); [now intros [= <- _]|discriminate]. }
    unfold reinitializeInstance, bind, get_state. cbn [fst snd].
    rewrite Hg.
    assert (Hdes : destroy inst = (fst (destroy inst), None)).
    { unfold destroy. now rewrite Hd. }
    rewrite Hdes. cbn [fst]. rewrite Hinit.
    unfold modify. cbn [fst snd]. unfold throw.
    eexists. split; [reflexivity|].
    cbn [factory set_instances set_factory instances].
    rewrite get_alter_eq, Hg. split; [reflexivity|]. split; [exact Hoff|].
    intros request w. unfold translate, translate_try. rewrite Hoff.
    cbn [negb]. eauto.
Qed.

(** ['main'] reinitialized with a configuration that has no key. *)
Lemma reinitializeInstance_failure_disables_witness :
  exists e s' inst',
    reinitializeInstance (lit "main") (Some Fixtures.keyless_config)
      Fixtures.sys_two_instances = (Threw e, s')
    /\ getInstance (lit "main") s' = Some inst'
    /\ isInitialized inst' = false.
Proof.
  destruct (proj2 (reinitializeInstance_failure_disables (lit "main")
                     (Some Fixtures.keyless_config)
                     Fixtures.sys_two_instances)
              Fixtures.stub_instance
              (fst (initialize (fst (destroy Fixtures.stub_instance))
                      (Some Fixtures.keyless_config)))
              (new_Error (lit "Configuration validation failed"))
              eq_refl eq_refl eq_refl)
    as (s' & Hre & Hg & Hoff & _).
  eexists _, s', _. split; [exact Hre|]. split; [exact Hg|exact Hoff].
Defined.

End FactoryProps.
